(** * vscode-phpunit: the TeamCity output decoder and the event correlator

    A shallow embedding of [src/phpunit/problem-matcher.ts]:
    - [EscapeValue]: the escape / unescape transcoder,
    - [TestResultSummaryParser]: the recognizer of the summary line,
    - [TestVersionParser], [ValueParser], [TimeAndMemoryParser]: the
      recognizers of the other lines,
    - [Parser]: the location hint and the fault details of a decoded service
      message, and the choice of the recognizer of a line,
    - [ProblemMatcher]: the store that merges the Started, fault and Finished
      records of one key into a terminal record.

    Conventions of the embedding.
    - A JavaScript string is a [string]: a sequence of 8-bit code units (the
      Latin-1 range).  The regular expressions of the source are written
      without the flag [u] and name ASCII characters only, so they work code
      unit by code unit.  Each one is written out as the matcher it stands
      for, piece by piece, next to its text.
    - A JavaScript number is an integer of [Z]: flow ids, durations, line
      numbers and counts are integers.  The model is the code for the
      integers below 2^53 in absolute value, which a number holds exactly
      and prints in plain digits: beyond, [parseInt] rounds and the
      rendering changes.  A statement that gives the number parsed from a
      text, or that tells two keys apart by their ids, has this bound among
      its hypotheses.
    - An object used as a record (the result of the tokenizer, a decoded
      record, a stored record) is a finite map from property names to values;
      the order of the properties is not modelled.  A value is [undefined], a
      boolean, a number, a string, or an array of detail entries and strings;
      a property whose value is itself an object, which the dot notation of
      the tokenizer can make, is outside the model.
    - A call returns a value or throws; the only exception the code can throw
      is a [TypeError].
    - The stored records are modelled by value.  The source returns from
      [handleStarted] the very object it stores; no statement below depends
      on that sharing.
    - The tokenizer [yargs-parser] is a third-party library: [Parser.doParse]
      takes [toTeamcityArgv], and [ProblemMatcher] takes its parser, as a
      parameter.  The statements about the correlator are made on the records
      the parser decoded ([ProblemMatcher.dispatch], the body of [parse]
      after the parser has answered). *)

From Stdlib Require Import ZArith Lia Bool Ascii String DecimalString DecimalZ DecimalPos.
From stdpp Require Import base option list strings gmap.

Local Open Scope Z_scope.

(** ** Strings: the methods of [String.prototype] the source uses *)

Module Str.

Definition chr (n : nat) : ascii := ascii_of_nat n.

Definition LF : ascii := chr 10.
Definition CR : ascii := chr 13.

Definition of_char (c : ascii) : string := String c EmptyString.

Definition eqb_char (a b : ascii) : bool := Ascii.eqb a b.

(** [s.startsWith(p)] *)
Fixpoint startsWith (p s : string) : bool :=
  match p, s with
  | EmptyString, _ => true
  | String a p', String b s' => eqb_char a b && startsWith p' s'
  | String _ _, EmptyString => false
  end.

Fixpoint drop (n : nat) (s : string) : string :=
  match n, s with
  | O, _ => s
  | S n', String _ s' => drop n' s'
  | S _, EmptyString => EmptyString
  end.

Fixpoint rev_onto (acc s : string) : string :=
  match s with
  | EmptyString => acc
  | String c s' => rev_onto (String c acc) s'
  end.

Definition rev (s : string) : string := rev_onto EmptyString s.

(** [s.replace(new RegExp(p, 'g'), r)] for a pattern [p] that matches the
    literal, non-empty text [pat], and a replacement without [$]:
    the occurrences are found from left to right and do not overlap.
    [skip] counts the code units of the current occurrence still to pass. *)
Fixpoint replaceAll_from (pat rep : string) (skip : nat) (s : string) : string :=
  match s with
  | EmptyString => EmptyString
  | String c s' =>
      match skip with
      | S k => replaceAll_from pat rep k s'
      | O =>
          if startsWith pat s
          then rep +:+ replaceAll_from pat rep (String.length pat - 1) s'
          else String c (replaceAll_from pat rep 0 s')
      end
  end.

Definition replaceAll (pat rep s : string) : string :=
  match pat with
  | EmptyString => s (* no pattern of the source is empty *)
  | _ => replaceAll_from pat rep 0 s
  end.

(** [s.replace(pat, rep)] with a string pattern: the first occurrence only. *)
Fixpoint replaceFirst (pat rep s : string) : string :=
  if startsWith pat s then rep +:+ drop (String.length pat) s
  else match s with
       | EmptyString => EmptyString
       | String c s' => String c (replaceFirst pat rep s')
       end.

End Str.

(** ** Values of a decoded record *)

(** An element of an array: a detail entry [{file, line}], or a string. *)
Inductive item : Type :=
| IDetail (file : string) (line : Z)
| IString (s : string).

Inductive value : Type :=
| VUndefined
| VBoolean (b : bool)
| VNumber (n : Z)
| VString (s : string)
| VArray (l : list item).

(** A record: property name to value. *)
Abbreviation record := (gmap string value).

(** ** EscapeValue *)

Module EscapeValue.

(** [values.escape] and [values.unescape] *)
Definition values_escape : list string :=
  ["||"; "|'"; "|n"; "|r"; "|]"; "|["].

Definition values_unescape : list string :=
  ["|"; "'"; Str.of_char Str.LF; Str.of_char Str.CR; "]"; "["].

(** [toRegExp] puts a backslash before [|], [[] and []] and compiles the
    text with the flag [g]: each pattern matches its text literally, at
    every occurrence.  A pattern is kept as the text it matches. *)
Definition patterns_escape : list string := values_escape.
Definition patterns_unescape : list string := values_unescape.

(** The loop [for (const x in from) value = value.replace(from[x], to[x])]:
    one pass over the whole string per pattern, in the order of the table. *)
Fixpoint change_string (s : string) (from to : list string) : string :=
  match from, to with
  | f :: from', t :: to' => change_string (Str.replaceAll f t s) from' to'
  (* past the end of [to] the replacement would be the text "undefined";
     the tables of the source have equal lengths *)
  | _, _ => s
  end.

Definition change_item (i : item) (from to : list string) : item :=
  match i with
  | IDetail f l => IDetail (change_string f from to) l
  | IString s => IString (change_string s from to)
  end.

(** [change]: an object is changed property by property, a string by the
    replacements, any other value is returned as it is. *)
Definition change (v : value) (from to : list string) : value :=
  match v with
  | VString s => VString (change_string s from to)
  | VArray l => VArray ((fun i => change_item i from to) <$> l)
  | _ => v
  end.

Definition change_record (r : record) (from to : list string) : record :=
  (fun v => change v from to) <$> r.

Definition escape (s : string) : string :=
  change_string s patterns_unescape values_escape.

Definition unescape (s : string) : string :=
  change_string s patterns_escape values_unescape.

Definition SINGLE_QUOTE : string := "%%%SINGLE_QUOTE%%%".

Definition escapeSingleQuote (s : string) : string :=
  change_string s ["|'"] [SINGLE_QUOTE].

Definition unescapeSingleQuote (r : record) : record :=
  change_record r [SINGLE_QUOTE] ["'"].

End EscapeValue.

(** ** The operations of the language on values *)

Module JS.

(** A completion: a normal return, or a thrown [TypeError]. *)
Inductive completion (A : Type) : Type :=
  | Return (a : A)
  | Throw_TypeError.
Arguments Return {A} a.
Arguments Throw_TypeError {A}.

(** [ToBoolean] *)
Definition truthy (v : value) : bool :=
  match v with
  | VUndefined => false
  | VBoolean b => b
  | VNumber n => negb (n =? 0)
  | VString s => negb (String.eqb s "")
  | VArray _ => true
  end.

(** [Number::toString] of an integer, below 10^21 in absolute value *)
Definition decimal (n : Z) : string := NilZero.string_of_int (Z.to_int n).

Fixpoint join (sep : string) (l : list string) : string :=
  match l with
  | [] => ""
  | [x] => x
  | x :: l' => x +:+ sep +:+ join sep l'
  end.

Definition item_toString (i : item) : string :=
  match i with
  | IDetail _ _ => "[object Object]"
  | IString s => s
  end.

(** [ToString], as applied by a template literal, by [+] next to a string
    and by a computed property name *)
Definition toString (v : value) : string :=
  match v with
  | VUndefined => "undefined"
  | VBoolean true => "true"
  | VBoolean false => "false"
  | VNumber n => decimal n
  | VString s => s
  | VArray l => join "," (item_toString <$> l)
  end.

(** [r.k]: the value of the property, [undefined] when there is none *)
Definition get (r : record) (k : string) : value := default VUndefined (r !! k).

(** ['k' in r] *)
Definition has (k : string) (r : record) : bool := bool_decide (is_Some (r !! k)).

(** [{...a, ...b}]: the properties of [b] win *)
Definition spread (a b : record) : record := b ∪ a.

(** [v === s] for a string [s] *)
Definition is_string (v : value) (s : string) : bool :=
  match v with
  | VString t => String.eqb t s
  | _ => false
  end.

(** The elements [...v] spreads into an argument list: those of an array,
    the characters of a string; any other value is not iterable. *)
Definition iterate (v : value) : option (list item) :=
  match v with
  | VArray l => Some l
  | VString s => Some ((fun c => IString (Str.of_char c)) <$> list_ascii_of_string s)
  | _ => None
  end.

End JS.
Import JS.

(** ** Regular expressions, piece by piece *)

Module Re.

Local Open Scope nat_scope.

Definition code (c : ascii) : nat := nat_of_ascii c.

(** [\d] *)
Definition isDigit (c : ascii) : bool := (48 <=? code c) && (code c <=? 57).

(** [\w] *)
Definition isWord (c : ascii) : bool :=
  isDigit c
  || ((65 <=? code c) && (code c <=? 90))
  || ((97 <=? code c) && (code c <=? 122))
  || (code c =? 95).

(** [\s], which is also what [trim] removes: tab, line feed, vertical tab,
    form feed, carriage return, space, no-break space *)
Definition isSpace (c : ascii) : bool :=
  ((9 <=? code c) && (code c <=? 13)) || (code c =? 32) || (code c =? 160).

(** what [.] does not match *)
Definition isLineTerminator (c : ascii) : bool := (code c =? 10) || (code c =? 13).

Definition isChar (a : ascii) (c : ascii) : bool := Str.eqb_char a c.

(** [toLowerCase] of one code unit *)
Definition lower (c : ascii) : ascii :=
  if ((65 <=? code c) && (code c <=? 90))
     || ((192 <=? code c) && (code c <=? 222) && negb (code c =? 215))
  then ascii_of_nat (code c + 32)
  else c.

Fixpoint toLowerCase (s : string) : string :=
  match s with
  | EmptyString => EmptyString
  | String c s' => String (lower c) (toLowerCase s')
  end.

(** The longest prefix of [s] whose characters satisfy [p], and the rest. *)
Fixpoint span (p : ascii -> bool) (s : string) : string * string :=
  match s with
  | EmptyString => (EmptyString, EmptyString)
  | String c s' =>
      if p c then let '(a, b) := span p s' in (String c a, b)
      else (EmptyString, s)
  end.

Fixpoint all (p : ascii -> bool) (s : string) : bool :=
  match s with
  | EmptyString => true
  | String c s' => p c && all p s'
  end.

(** One character of the class [p]. *)
Definition one (p : ascii -> bool) (s : string) : option string :=
  match s with
  | String c s' => if p c then Some s' else None
  | EmptyString => None
  end.

(** [x+] for a class [p], taken greedily: the text matched and the rest.
    Wherever it is used, either what follows in the pattern cannot start
    with a character of [p], so that no shorter repetition can succeed, or
    what follows cannot fail, so that the longest repetition is the match. *)
Definition many1 (p : ascii -> bool) (s : string) : option (string * string) :=
  match span p s with
  | (EmptyString, _) => None
  | (a, b) => Some (a, b)
  end.

(** [x?] for a class [p]. *)
Definition opt (p : ascii -> bool) (s : string) : string :=
  match one p s with
  | Some s' => s'
  | None => s
  end.

(** A literal, under the flag [i]. *)
Fixpoint lit_i (l s : string) : option string :=
  match l, s with
  | EmptyString, _ => Some s
  | String a l', String b s' =>
      if Str.eqb_char (lower a) (lower b) then lit_i l' s' else None
  | String _ _, EmptyString => None
  end.

(** A literal. *)
Definition lit (l s : string) : option string :=
  if Str.startsWith l s then Some (Str.drop (String.length l) s) else None.

(** [trim] *)
Definition trimStart (s : string) : string := snd (span isSpace s).
Definition trimEnd (s : string) : string := Str.rev (trimStart (Str.rev s)).
Definition trim (s : string) : string := trimEnd (trimStart s).

(** [parseInt(s, 10)] of a text of digits: the integer the digits stand
    for, which is what the code has when it is below 2^53 *)
Definition digit_value (c : ascii) : Z := Z.of_nat (code c - 48).

Fixpoint parseInt_from (acc : Z) (s : string) : Z :=
  match s with
  | EmptyString => acc
  | String c s' => parseInt_from (10 * acc + digit_value c)%Z s'
  end.

Definition parseInt (s : string) : Z := parseInt_from 0%Z s.

End Re.

(** ** TestResultSummaryParser *)

Module TestResultSummaryParser.

Import Re.

Definition testResultSummary : string := "testResultSummary".

(** [\s(\d+)[\.\s,]\s?] *)
Definition count_end (s : string) : option string :=
  s ← one isSpace s;
  '(_, s) ← many1 isDigit s;
  s ← one (fun c => isChar "." c || isSpace c || isChar "," c) s;
  Some (opt isSpace s).

(** [^OK\s+\(\d+\stest(s)?] *)
Definition is_terse (s : string) : bool :=
  bool_decide (is_Some (
    s ← lit_i "OK" s;
    '(_, s) ← many1 isSpace s;
    s ← lit "(" s;
    '(_, s) ← many1 isDigit s;
    s ← one isSpace s;
    lit_i "test" s)).

(** [^Test(s)?:\s(\d+)[\.\s,]\s?Assertions:\s(\d+)[\.\s,]\s?(...)*]; the
    repeated group at the end may match no text at all. *)
Definition is_verbose (s : string) : bool :=
  bool_decide (is_Some (
    s ← lit_i "Test" s;
    s ← lit ":" (opt (fun c => isChar "s" (lower c)) s);
    s ← count_end s;
    s ← lit_i "Assertions:" s;
    count_end s)).

(** [is] (a reserved word of Rocq) *)
Definition is_ (text : string) : bool := is_terse text || is_verbose text.

(** One match of
    [((?<name>\w+):\s(?<count>\d+)|(?<count2>\d+)\s(?<name2>\w+))[.s,]?]
    under the flag [i], at the start of [s]: name, count and the rest. *)
Definition name_count (s : string) : option (string * string * string) :=
  '(name, s1) ← many1 isWord s;
  s1 ← lit ":" s1;
  s1 ← one isSpace s1;
  '(count, s1) ← many1 isDigit s1;
  Some (name, count, s1).

Definition count_name (s : string) : option (string * string * string) :=
  '(count, s1) ← many1 isDigit s;
  s1 ← one isSpace s1;
  '(name, s1) ← many1 isWord s1;
  Some (name, count, s1).

Definition match_at (s : string) : option (string * string * string) :=
  '(name, count, rest) ←
    match name_count s with
    | Some m => Some m
    | None => count_name s
    end;
  Some (name, count,
        opt (fun c => isChar "." c || isChar "s" (lower c) || isChar "," c) rest).

(** [text.matchAll(pattern)]: the matches from left to right; after one,
    the search goes on where it ended.  [skip] counts the characters of the
    current match still to pass. *)
Fixpoint matchAll_from (skip : nat) (s : string) : list (string * string) :=
  match s with
  | EmptyString => []
  | String _ s' =>
      match skip with
      | S k => matchAll_from k s'
      | O =>
          match match_at s with
          | Some (name, count, rest) =>
              (name, count)
                :: matchAll_from (String.length s - String.length rest - 1) s'
          | None => matchAll_from 0 s'
          end
      end
  end.

Definition matchAll (text : string) : list (string * string) :=
  matchAll_from 0 text.

Definition endsWith_s (name : string) : bool :=
  match Str.rev name with
  | String c _ => isChar "s" c
  | EmptyString => false
  end.

Definition normalize (name : string) : string :=
  let name := toLowerCase name in
  if bool_decide (name ∈ ["skipped"; "incomplete"; "risky"])
  then name
  else name +:+ (if endsWith_s name then "" else "s").

(** [parse]: every match sets one property of [{ kind, text }]. *)
Definition parse (text : string) : record :=
  foldl (fun (result : record) '(name, count) =>
           <[normalize name := VNumber (parseInt count)]> result)
        (<["kind" := VString testResultSummary]> (<["text" := VString text]> ∅))
        (matchAll text).

End TestResultSummaryParser.

(** ** The other line recognizers *)

Module TestVersionParser.

Import Re.

Definition testVersion : string := "testVersion".

(** [[\d.]] *)
Definition isVersionChar (c : ascii) : bool := isDigit c || isChar "." c.

(** [PHPUnit\s(?<phpunit>[\d.]+)] under the flag [i], at the start of [s]:
    the group. *)
Definition phpunit_at (s : string) : option string :=
  s ← lit_i "PHPUnit" s;
  s ← one isSpace s;
  '(phpunit, _) ← many1 isVersionChar s;
  Some phpunit.

(** [.+PHPUnit\s(?<phpunit>[\d.]+)] at the start of [s]: [.+] takes at least
    one character, no line terminator, and as many characters as it can, so
    the last place that will do is taken. *)
Fixpoint after_some (s : string) : option string :=
  match s with
  | EmptyString => None
  | String c s' =>
      if isLineTerminator c then None
      else match after_some s' with
           | Some phpunit => Some phpunit
           | None => phpunit_at s'
           end
  end.

(** [ParaTest\s(v)?(?<paratest>[\d.]+).+PHPUnit\s(?<phpunit>[\d.]+)]: the
    groups [paratest] and [phpunit].  When nothing stands between the version
    of ParaTest and [PHPUnit], the version gives its last character to [.+],
    if it has two. *)
Definition with_paratest (text : string) : option (string * string) :=
  s ← lit_i "ParaTest" text;
  s ← one isSpace s;
  '(paratest, s) ← many1 isVersionChar (opt (fun c => isChar "v" (lower c)) s);
  match after_some s with
  | Some phpunit => Some (paratest, phpunit)
  | None =>
      match Str.rev paratest with
      | String _ (String c r) =>
          phpunit ← phpunit_at s;
          Some (Str.rev (String c r), phpunit)
      | _ => None
      end
  end.

(** The groups of
    [^(ParaTest\s(v)?(?<paratest>[\d.]+).+)?PHPUnit\s(?<phpunit>[\d.]+)];
    without the first part the group [paratest] is [undefined]. *)
Definition groups (text : string) : option (value * string) :=
  match with_paratest text with
  | Some (paratest, phpunit) => Some (VString paratest, phpunit)
  | None => phpunit ← phpunit_at text; Some (VUndefined, phpunit)
  end.

Definition is_ (text : string) : bool := bool_decide (is_Some (groups text)).

Definition parse (text : string) : completion record :=
  match groups text with
  | Some (paratest, phpunit) =>
      Return (<["kind" := VString testVersion]>
                (<["phpunit" := VString phpunit]>
                   (<["paratest" := paratest]> (<["text" := VString text]> ∅))))
  | None =>
      (* [groups] of [null] *)
      Throw_TypeError
  end.

End TestVersionParser.

Module ValueParser.

Import Re.

(** The last character of [s] that is no line terminator. *)
Fixpoint last_plain (s : string) : option ascii :=
  match s with
  | EmptyString => None
  | String c s' =>
      match last_plain s' with
      | Some d => Some d
      | None => if isLineTerminator c then None else Some c
      end
  end.

(** The group of [^name:\s+(?<name>.+)] under the flag [i], for a [name]
    that is a word of letters, as the three names of the source are: the
    pattern then starts with the name as a literal.  The white space
    is taken whole and the group runs up to the first line terminator; when
    nothing is left for the group, the white space gives back characters, one
    by one from its end, until the group has one that [.] matches. *)
Definition group (name text : string) : option string :=
  s ← lit_i name text;
  s ← lit ":" s;
  '(space, s) ← many1 isSpace s;
  match span (fun c => negb (isLineTerminator c)) s with
  | (EmptyString, _) =>
      match space with
      | String _ space' => c ← last_plain space'; Some (Str.of_char c)
      | EmptyString => None
      end
  | (v, _) => Some v
  end.

Section Named.

(** [constructor(private name: string, private kind: TestResultKind)]; the
    pattern is built from the name once the constructor has stored it. *)
Variables name kind : string.

Definition is_ (text : string) : bool := bool_decide (is_Some (group name text)).

Definition parse (text : string) : completion record :=
  match group name text with
  | Some v =>
      Return (<["kind" := VString kind]>
                (<[toLowerCase name := VString v]> (<["text" := VString text]> ∅)))
  | None => Throw_TypeError
  end.

End Named.

End ValueParser.

Module TimeAndMemoryParser.

Import Re.

Definition timeAndMemory : string := "timeAndMemory".

(** [[\d+:.]] *)
Definition isTimeChar (c : ascii) : bool :=
  isDigit c || isChar "+" c || isChar ":" c || isChar "." c.

(** [Time:\s(?<time>[\d+:.]+(\s\w+)?),\sMemory:\s(?<memory>[\d.]+\s\w+)] at
    the start of [s]: the groups [time] and [memory]. *)
Definition match_at (s : string) : option (string * string) :=
  s ← lit "Time:" s;
  s ← one isSpace s;
  '(digits, s) ← many1 isTimeChar s;
  '(time, s) ←
    match s with
    | String c s' =>
        if isSpace c
        then '(unit, s'') ← many1 isWord s'; Some (digits +:+ String c unit, s'')
        else Some (digits, s)
    | EmptyString => Some (digits, s)
    end;
  s ← lit "," s;
  s ← one isSpace s;
  s ← lit "Memory:" s;
  s ← one isSpace s;
  '(size, s) ← many1 TestVersionParser.isVersionChar s;
  match s with
  | String c s' =>
      if isSpace c
      then '(unit, _) ← many1 isWord s'; Some (time, size +:+ String c unit)
      else None
  | EmptyString => None
  end.

(** The first place of [s] where the pattern matches. *)
Fixpoint groups (s : string) : option (string * string) :=
  match match_at s with
  | Some g => Some g
  | None =>
      match s with
      | EmptyString => None
      | String _ s' => groups s'
      end
  end.

Definition is_ (text : string) : bool := bool_decide (is_Some (groups text)).

Definition parse (text : string) : completion record :=
  match groups text with
  | Some (time, memory) =>
      Return (<["time" := VString time]>
                (<["memory" := VString memory]>
                   (<["kind" := VString timeAndMemory]> (<["text" := VString text]> ∅))))
  | None => Throw_TypeError
  end.

End TimeAndMemoryParser.

(** ** Parser: what is derived from the tokens of a service message *)

Module Parser.

Import Re.

(** [s.split(sep)] for a non-empty text [sep]: the first piece and the
    pieces after it. *)
Fixpoint split_from (sep : string) (skip : nat) (s : string) : string * list string :=
  match s with
  | EmptyString => (EmptyString, [])
  | String c s' =>
      match skip with
      | S k => split_from sep k s'
      | O =>
          if Str.startsWith sep s
          then let '(p, ps) := split_from sep (String.length sep - 1) s' in
               (EmptyString, p :: ps)
          else let '(p, ps) := split_from sep 0 s' in
               (String c p, ps)
      end
  end.

Definition split (sep s : string) : string * list string := split_from sep 0 s.

(** [s.split(/\r\n|\n/g)] *)
Fixpoint split_lines (s : string) : string * list string :=
  match s with
  | EmptyString => (EmptyString, [])
  | String c s' =>
      if isChar Str.LF c
      then let '(p, ps) := split_lines s' in (EmptyString, p :: ps)
      else
        match s' with
        | String c' s'' =>
            if isChar Str.CR c && isChar Str.LF c'
            then let '(p, ps) := split_lines s'' in (EmptyString, p :: ps)
            else let '(p, ps) := split_lines s' in (String c p, ps)
        | EmptyString => (String c EmptyString, [])
        end
  end.

(** *** Location hint *)

Definition double_quote : ascii := Str.chr 34.
Definition backslash : ascii := Str.chr 92.

(** The pattern of the data-set suffix at the start of [s]: a white space,
    [with], a white space, [data], a white space, [set], a white space, a
    [#] or a double quote, then [.+$]: at least one character, and no line
    terminator up to the end. *)
Definition dataset_at (s : string) : bool :=
  match
    s ← one isSpace s;
    s ← lit "with" s;
    s ← one isSpace s;
    s ← lit "data" s;
    s ← one isSpace s;
    s ← lit "set" s;
    s ← one isSpace s;
    one (fun c => isChar "#" c || isChar double_quote c) s
  with
  | Some rest =>
      negb (String.eqb rest "") && all (fun c => negb (isLineTerminator c)) rest
  | None => false
  end.

(** [id.replace(pattern, '')]: the first place where the pattern matches,
    and everything after it, is removed. *)
Fixpoint strip_dataset (id : string) : string :=
  if dataset_at id then EmptyString
  else match id with
       | EmptyString => EmptyString
       | String c id' => String c (strip_dataset id')
       end.

(** [.replace(/^php_qn:\/\//, '')] *)
Definition strip_scheme (s : string) : string :=
  match lit "php_qn://" s with
  | Some s' => s'
  | None => s
  end.

Definition colons_backslash : string := "::" +:+ Str.of_char backslash.

Definition parseLocationHint (argv : record) : completion record :=
  if negb (truthy (get argv "locationHint")) then Return ∅
  else
    match get argv "locationHint" with
    | VString locationHint =>
        let '(file, split) :=
          split "::" (Str.replaceAll colons_backslash "::" (strip_scheme locationHint)) in
        let id := join "::" split in
        let testId := strip_dataset id in
        Return (<["id" := VString id]>
                  (<["file" := VString file]> (<["testId" := VString testId]> ∅)))
    | _ =>
        (* [replace] is a method of strings only *)
        Throw_TypeError
    end.

(** *** Fault details *)

(** The text before the last colon, and the text after it. *)
Fixpoint split_last_colon (s : string) : option (string * string) :=
  match s with
  | EmptyString => None
  | String c s' =>
      match split_last_colon s' with
      | Some (a, b) => Some (String c a, b)
      | None => if isChar ":" c then Some (EmptyString, s') else None
      end
  end.

(** What is left of [s] after its last line terminator. *)
Fixpoint after_last_terminator (s : string) : string :=
  match s with
  | EmptyString => EmptyString
  | String c s' =>
      if all (fun c => negb (isLineTerminator c)) s then s
      else after_last_terminator s'
  end.

(** The groups [file] and [line] of the first match of
    [(s+)?(?<file>.+):(?<line>\d+)$] in [input].
    The line is the text of digits after the last colon, up to the end.
    The match starts as far left as [.] allows: after the last line
    terminator before that colon.  The group [(s+)?] takes the letters [s]
    the match starts with, but leaves [file] one character. *)
Definition filePattern (input : string) : option (string * string) :=
  '(before, line) ← split_last_colon input;
  if negb (String.eqb line "") && all isDigit line
  then
    match after_last_terminator before with
    | EmptyString => None
    | matched =>
        match span (isChar "s") matched with
        | (_, EmptyString) => Some ("s", line)
        | (_, file) => Some (file, line)
        end
    end
  else None.

(** [file.replace(/^(-)+/, '').trim()] *)
Definition clean_file (file : string) : string := trim (snd (span (isChar "-") file)).

Definition parseFileAndLine (text : string) : list (string * Z) :=
  let '(l, ls) := split_lines (trim text) in
  omap (fun input =>
          '(file, line) ← filePattern input;
          Some (clean_file file, parseInt line))
       (l :: ls).

Definition detail_item (d : string * Z) : item := IDetail (fst d) (snd d).

(** [message.replace(`${file}:${line}`, '')] for each detail in turn *)
Definition remove_details (message : string) (details : list (string * Z)) : string :=
  foldl (fun message '(file, line) =>
           Str.replaceFirst (file +:+ ":" +:+ decimal line) "" message)
        message details.

Definition parseDetails (argv : record) : completion record :=
  if negb (has "details" argv) then Return ∅
  else
    match get argv "message", get argv "details" with
    | VString message, VString details_text =>
        let details := parseFileAndLine message in
        Return (<["message" := VString (trim (remove_details message details))]>
                  (<["details" :=
                       VArray (detail_item <$> (details ++ parseFileAndLine details_text))]> ∅))
    | _, _ =>
        (* [trim] is a method of strings only *)
        Throw_TypeError
    end.

(** *** The service message *)

(** [^\s*#+teamcity] *)
Definition pattern (text : string) : option string :=
  match many1 (isChar "#") (snd (span isSpace text)) with
  | Some (_, s) => lit "teamcity" s
  | None => None
  end.

Definition is_ (text : string) : bool := bool_decide (is_Some (pattern text)).

(** [.replace(/^\[|]$/g, '')] *)
Definition strip_brackets (s : string) : string :=
  let s := match lit "[" s with Some s' => s' | None => s end in
  match Str.rev s with
  | String c r => if isChar "]" c then Str.rev r else s
  | EmptyString => s
  end.

Section WithTokenizer.

(** [toTeamcityArgv], which rests on [yargs-parser] *)
Variable toTeamcityArgv : string -> record.

Definition doParse (text : string) : completion record :=
  let text := trim text in
  let text := match pattern text with Some s => s | None => text end in
  let argv := toTeamcityArgv (strip_brackets text) in
  let argv := <["kind" := get argv "event"]> argv in
  match parseLocationHint argv with
  | Throw_TypeError => Throw_TypeError
  | Return hint =>
      match parseDetails argv with
      | Throw_TypeError => Throw_TypeError
      | Return details => Return (spread (spread argv hint) details)
      end
  end.

(** [parsers]: each recognizer with its [is] and its [parse], in the order
    of the source. *)
Definition parsers : list ((string → bool) * (string → completion record)) :=
  [ (TestVersionParser.is_, TestVersionParser.parse);
    (ValueParser.is_ "Runtime", ValueParser.parse "Runtime" "testRuntime");
    (ValueParser.is_ "Configuration",
     ValueParser.parse "Configuration" "testConfiguration");
    (ValueParser.is_ "Processes", ValueParser.parse "Processes" "testProcesses");
    (TimeAndMemoryParser.is_, TimeAndMemoryParser.parse);
    (TestResultSummaryParser.is_,
     fun text => Return (TestResultSummaryParser.parse text)) ].

(** [this.parsers.find((parser) => parser.is(text))?.parse(text)] *)
Fixpoint find_parse (ps : list ((string → bool) * (string → completion record)))
    (text : string) : completion (option record) :=
  match ps with
  | [] => Return None
  | (is_p, parse_p) :: ps' =>
      if is_p text
      then match parse_p text with
           | Return r => Return (Some r)
           | Throw_TypeError => Throw_TypeError
           end
      else find_parse ps' text
  end.

Definition parse (text : string) : completion (option record) :=
  if is_ text
  then match doParse text with
       | Return r => Return (Some r)
       | Throw_TypeError => Throw_TypeError
       end
  else find_parse parsers text.

End WithTokenizer.

End Parser.

(** ** ProblemMatcher *)

Module ProblemMatcher.

(** [collect]: the stored record of each generated id *)
Abbreviation store := (gmap string record).

(** What [parse] can hand back: [undefined], a record, and, through the
    members the dispatch table inherits, a string, a boolean or the matcher
    itself. *)
Inductive returned : Type :=
  | RUndefined
  | RRecord (r : record)
  | RString (s : string)
  | RBoolean (b : bool)
  | RThis.

Definition testSuiteStarted : string := "testSuiteStarted".
Definition testSuiteFinished : string := "testSuiteFinished".
Definition testStarted : string := "testStarted".
Definition testFailed : string := "testFailed".
Definition testIgnored : string := "testIgnored".
Definition testFinished : string := "testFinished".

Definition generateId (testResult : record) : string :=
  toString (get testResult "name") +:+ "-" +:+ toString (get testResult "flowId").

Definition isFault (testResult : record) : bool :=
  is_string (get testResult "event") testFailed
  || is_string (get testResult "event") testIgnored.

Definition isTestResult (result : record) : bool :=
  has "event" result && has "name" result && has "flowId" result.

Definition handleStarted (collect : store) (testResult : record)
  : store * completion returned :=
  let id := generateId testResult in
  (<[id := testResult]> collect, Return (RRecord testResult)).

(** [prevData.details.push(...testResult.details)]: the new contents of the
    array, or nothing when the statement throws (the stored [details] is
    not an array, or the incoming one is not iterable). *)
Definition push_details (prevData testResult : record) : option (list item) :=
  match get prevData "details", iterate (get testResult "details") with
  | VArray l, Some l' => Some (l ++ l')
  | _, _ => None
  end.

Definition append_message (prevData testResult : record) : record :=
  if truthy (get testResult "message")
  then <["message" :=
           VString (toString (get prevData "message")
                    +:+ Str.of_char Str.LF +:+ Str.of_char Str.LF
                    +:+ toString (get testResult "message"))]> prevData
  else prevData.

Definition handleFault (collect : store) (testResult : record)
  : store * completion returned :=
  let id := generateId testResult in
  match collect !! id with
  | None => (<[id := testResult]> collect, Return RUndefined)
  | Some prevData =>
      if is_string (get prevData "kind") testStarted
      then (<[id := spread prevData testResult]> collect, Return RUndefined)
      else
        (* the stored object is changed in place: the new message stays
           even when the next statement throws *)
        let prevData := append_message prevData testResult in
        match push_details prevData testResult with
        | Some l =>
            (<[id := <["details" := VArray l]> prevData]> collect, Return RUndefined)
        | None => (<[id := prevData]> collect, Throw_TypeError)
        end
  end.

Definition handleFinished (collect : store) (testResult : record)
  : store * completion returned :=
  let id := generateId testResult in
  match collect !! id with
  | None =>
      (* [isFault(undefined)] reads [event] of [undefined] *)
      (collect, Throw_TypeError)
  | Some prevData =>
      let event :=
        if isFault prevData then get prevData "event" else get testResult "event" in
      let result :=
        <["kind" := event]> (<["event" := event]> (spread prevData testResult)) in
      (delete id collect, Return (RRecord result))
  end.

(** The members of [lookup].  The table is an object literal, so besides its
    six own properties it answers to the names it inherits from
    [Object.prototype]. *)
Inductive member : Type :=
  | m_handleStarted
  | m_handleFinished
  | m_handleFault
  | m_constructor
  | m_toString
  | m_toLocaleString
  | m_valueOf
  | m_hasOwnProperty
  | m_isPrototypeOf
  | m_propertyIsEnumerable
  | m_defineGetter
  | m_defineSetter
  | m_lookupGetter
  | m_lookupSetter
  | m_proto.

Definition own_members : list (string * member) :=
  [ (testSuiteStarted, m_handleStarted);
    (testStarted, m_handleStarted);
    (testSuiteFinished, m_handleFinished);
    (testFinished, m_handleFinished);
    (testFailed, m_handleFault);
    (testIgnored, m_handleFault) ].

Definition inherited_members : list (string * member) :=
  [ ("constructor", m_constructor);
    ("toString", m_toString);
    ("toLocaleString", m_toLocaleString);
    ("valueOf", m_valueOf);
    ("hasOwnProperty", m_hasOwnProperty);
    ("isPrototypeOf", m_isPrototypeOf);
    ("propertyIsEnumerable", m_propertyIsEnumerable);
    ("__defineGetter__", m_defineGetter);
    ("__defineSetter__", m_defineSetter);
    ("__lookupGetter__", m_lookupGetter);
    ("__lookupSetter__", m_lookupSetter);
    ("__proto__", m_proto) ].

Fixpoint assoc (k : string) (l : list (string * member)) : option member :=
  match l with
  | [] => None
  | (k', m) :: l' => if String.eqb k k' then Some m else assoc k l'
  end.

(** [this.lookup[k]] *)
Definition lookup (k : string) : option member :=
  match assoc k own_members with
  | Some m => Some m
  | None => assoc k inherited_members
  end.

(** The property key a record turns into: the text [[object Object]],
    unless an own [toString] (never a function here) hides the inherited
    one, in which case the conversion throws. *)
Definition record_key (r : record) : completion string :=
  if has "toString" r then Throw_TypeError else Return "[object Object]".

(** [m.call(this, testResult)] *)
Definition call (m : member) (collect : store) (testResult : record)
  : store * completion returned :=
  match m with
  | m_handleStarted => handleStarted collect testResult
  | m_handleFinished => handleFinished collect testResult
  | m_handleFault => handleFault collect testResult
  | m_constructor =>
      (* [Object(testResult)] is [testResult] *)
      (collect, Return (RRecord testResult))
  | m_toString | m_toLocaleString => (collect, Return (RString "[object Object]"))
  | m_valueOf => (collect, Return RThis)
  | m_hasOwnProperty | m_propertyIsEnumerable =>
      (collect,
       match record_key testResult with
       | Return _ => Return (RBoolean false)
       | Throw_TypeError => Throw_TypeError
       end)
  | m_isPrototypeOf => (collect, Return (RBoolean false))
  | m_defineGetter | m_defineSetter =>
      (* the accessor function, the second argument, is missing *)
      (collect, Throw_TypeError)
  | m_lookupGetter | m_lookupSetter =>
      (collect,
       match record_key testResult with
       | Return _ => Return RUndefined
       | Throw_TypeError => Throw_TypeError
       end)
  | m_proto =>
      (* [lookup.__proto__] is [Object.prototype], which has no [call] *)
      (collect, Throw_TypeError)
  end.

(** The body of [parse] once the parser has answered. *)
Definition dispatch (collect : store) (result : option record)
  : store * completion returned :=
  match result with
  | None => (collect, Return RUndefined)
  | Some r =>
      if isTestResult r
      then match lookup (toString (get r "event")) with
           | Some m => call m collect r
           | None => (collect, Return RUndefined)
           end
      else (collect, Return (RRecord r))
  end.

Section WithParser.

(** [constructor(private parser: Parser)] *)
Variable parser_parse : string -> completion (option record).

Definition parse (collect : store) (input : string)
  : store * completion returned :=
  match parser_parse input with
  | Return result => dispatch collect result
  | Throw_TypeError => (collect, Throw_TypeError)
  end.

(** The lines of a run, one call of [parse] each; the matcher outlives a
    call that throws. *)
Fixpoint parse_all (collect : store) (inputs : list string)
  : store * list (completion returned) :=
  match inputs with
  | [] => (collect, [])
  | input :: inputs' =>
      let '(collect', c) := parse collect input in
      let '(collect'', cs) := parse_all collect' inputs' in
      (collect'', c :: cs)
  end.

End WithParser.

(** The same run, on the records the parser decoded. *)
Fixpoint dispatch_all (collect : store) (results : list (option record))
  : store * list (completion returned) :=
  match results with
  | [] => (collect, [])
  | result :: results' =>
      let '(collect', c) := dispatch collect result in
      let '(collect'', cs) := dispatch_all collect' results' in
      (collect'', c :: cs)
  end.

End ProblemMatcher.

(** ** Notions the statements use *)

Module Run.

Import ProblemMatcher.




(** A lifecycle record of the given event, name and flow id, as the decoder
    builds it: [kind] repeats [event]. *)
Definition lifecycle_of (event name : string) (flowId : Z) (r : record) : Prop :=
  r !! "event" = Some (VString event)
  ∧ r !! "kind" = Some (VString event)
  ∧ r !! "name" = Some (VString name)
  ∧ r !! "flowId" = Some (VNumber flowId).

(** [needle] occurs in [s]. *)
Fixpoint includes (needle s : string) : bool :=
  Str.startsWith needle s
  || match s with
     | EmptyString => false
     | String _ s' => includes needle s'
     end.

(** The least record that is a lifecycle record. *)
Definition lifecycle (event name : string) (flowId : Z) : record :=
  <["event" := VString event]>
    (<["kind" := VString event]>
       (<["name" := VString name]> (<["flowId" := VNumber flowId]> ∅))).

Definition fault (event name : string) (flowId : Z) (message : string)
    (details : list item) : record :=
  <["message" := VString message]>
    (<["details" := VArray details]>
       (<["duration" := VNumber 0]> (lifecycle event name flowId))).

Definition finished (name : string) (flowId duration : Z) : record :=
  <["duration" := VNumber duration]> (lifecycle testFinished name flowId).






(** A fault record of a line that has no [details] argument. *)
Definition fault_without_details (event name : string) (flowId : Z)
    (message : string) : record :=
  <["message" := VString message]> (lifecycle event name flowId).

(** The fault records of one test, each with its event, its message and
    its details. *)
Definition fault_records (name : string) (flowId : Z)
    (l : list (string * string * list item)) : list record :=
  (λ '(event, message, details), fault event name flowId message details) <$> l.

Definition is_fault_event (event : string) : Prop :=
  event = testFailed ∨ event = testIgnored.

(** The messages of the faults of one test, a blank line between them; an
    empty message after the first one adds nothing. *)
Definition gathered_message (first : string) (later : list string) : string :=
  join (String Str.LF (String Str.LF "")) (first :: filter (λ m, m ≠ "") later).

(** A number that holds its integer exactly. *)
Definition exact (n : Z) : Prop := Z.abs n < 2 ^ 53.

(** A record with a text as name and a natural number as flow id. *)
Definition text_key (r : record) : Prop :=
  ∃ (name : string) (flowId : Z),
    r !! "name" = Some (VString name)
    ∧ r !! "flowId" = Some (VNumber flowId)
    ∧ 0 ≤ flowId ∧ exact flowId.

(** Every lifecycle record of the run has such a key. *)
Definition text_keys (results : list (option record)) : Prop :=
  Forall (λ result, ∀ r, result = Some r → isTestResult r = true → text_key r) results.

(** Every record of the store is filed under its own id. *)
Definition well_keyed (collect : store) : Prop :=
  ∀ k p, collect !! k = Some p → generateId p = k.

(** Every record of the store has a text as name and a natural number as
    flow id. *)
Definition text_keyed (collect : store) : Prop :=
  ∀ k p, collect !! k = Some p → text_key p.

(** The store holds the record [p] for the key made of [name] and
    [flowId]. *)
Definition holds (collect : store) (name flowId : value) (p : record) : Prop :=
  ∃ k, collect !! k = Some p ∧ get p "name" = name ∧ get p "flowId" = flowId.

(** [result] is a Finished or SuiteFinished record of the key made of
    [name] and [flowId]. *)
Definition finishes (result : option record) (name flowId : value) : Prop :=
  ∃ r, result = Some r
       ∧ isTestResult r = true
       ∧ (toString (get r "event") = testFinished
          ∨ toString (get r "event") = testSuiteFinished)
       ∧ get r "name" = name
       ∧ get r "flowId" = flowId.

(** The name and the flow id of a record, when they are numbers, are exact:
    the id then holds their digits. *)
Definition exact_key (r : record) : Prop :=
  (∀ n, get r "name" = VNumber n → exact n)
  ∧ (∀ n, get r "flowId" = VNumber n → exact n).

(** [result] is a Finished or SuiteFinished record filed under [k]. *)
Definition finishing (result : option record) (k : string) : Prop :=
  ∃ r, result = Some r
       ∧ isTestResult r = true
       ∧ (toString (get r "event") = testFinished
          ∨ toString (get r "event") = testSuiteFinished)
       ∧ generateId r = k.

End Run.


Module Text.

Import Re.

(** The field [name] with the count [count] is written in [text], as
    [name: count] or as [count name], a white space in between. *)
Definition field_in_text (name count text : string) : Prop :=
  ∃ (before after : string) (space : ascii),
    isSpace space = true
    ∧ (text = before +:+ name +:+ String ":" (String space count) +:+ after
       ∨ text = before +:+ count +:+ String space name +:+ after).

(** The data-set suffix of an id: [ with data set #3] has the mark [#] and
    the label [3]; for a named data set the mark is the double quote and the
    label is the name and the closing quote. *)
Definition dataset_suffix (mark : ascii) (label : string) : string :=
  " with data set " +:+ String mark label.

Definition quoted (name : string) : string := name +:+ Str.of_char Parser.double_quote.

(** The number the digits of [count] stand for is one that a number of the
    code holds exactly. *)
Definition exact_count (count : string) : Prop := (parseInt count < 2 ^ 53)%Z.

(** The last character of a text. *)
Fixpoint last_char (s : string) : option ascii :=
  match s with
  | EmptyString => None
  | String c s' =>
      match last_char s' with
      | Some d => Some d
      | None => Some c
      end
  end.

(** The count field [name] with the count [count] is written in [text]: a
    word and a number, as [name: count] or as [count name] with one white
    space in between.  The number is written whole: no digit stands next to
    it.  The word of [count name] runs as far as it can; the word of
    [name: count] starts where the text starts, or after a character that is
    no letter and no underscore, or after a letter [s], which the pattern
    takes as the end of the field before. *)
Definition written_field (name count text : string) : Prop :=
  name ≠ "" ∧ all isWord name = true
  ∧ count ≠ "" ∧ all isDigit count = true
  ∧ ∃ (before after : string) (space : ascii),
      isSpace space = true
      ∧ ((text = before +:+ name +:+ String ":" (String space count) +:+ after
          ∧ (∀ p, last_char before = Some p → isWord p = true →
                  isDigit p = true ∨ isChar "s" (lower p) = true)
          ∧ one isDigit after = None)
         ∨ (text = before +:+ count +:+ String space name +:+ after
            ∧ (∀ p, last_char before = Some p → isDigit p = false)
            ∧ one isWord after = None)).

(** The match before ended with the character [p], and [s] follows: [p] is
    the optional character at the end of the pattern, or the last digit of a
    count, or the last character of a name. *)
Definition ended (p : ascii) (s : string) : Prop :=
  isChar "." p || isChar "s" (lower p) || isChar "," p = true
  ∨ (isDigit p = true ∧ one isDigit s = None)
  ∨ (isWord p = true ∧ one isWord s = None).

(** The search for the fields of a line has passed [before]; [s] is still to
    come, and its first [skip] characters belong to the match before.  Either
    no match starts at the last character of [before], or a match ends where
    the characters to skip end. *)
Definition searching (before : string) (skip : nat) (s : string) : Prop :=
  (skip = 0%nat
   ∧ ∀ p, last_char before = Some p →
          TestResultSummaryParser.match_at (String p s) = None)
  ∨ ∃ (mid rest : string) (q : ascii),
      s = mid +:+ rest
      ∧ String.length mid = skip
      ∧ last_char (before +:+ mid) = Some q
      ∧ ended q rest.

(** A field of the summary as it is written: the name, a colon, a space and
    the count. *)
Definition field (f : string * string) : string := f.1 +:+ ": " +:+ f.2.

(** The line of a summary: the fields, a comma and a space between them,
    and a full stop. *)
Fixpoint summary_line (l : list (string * string)) : string :=
  match l with
  | [] => "."
  | f :: l' =>
      field f +:+ match l' with
                  | [] => "."
                  | _ :: _ => ", " +:+ summary_line l'
                  end
  end.

(** The line of a run without faults: [OK (5 tests, 10 assertions)]; [ts]
    and [as_] are the plural endings, a letter [s] or nothing. *)
Definition terse_line (tests ts assertions as_ : string) : string :=
  "OK (" +:+ tests +:+ " test" +:+ ts +:+ ", "
  +:+ assertions +:+ " assertion" +:+ as_ +:+ ")".

(** The name of a field is a word and its count a number. *)
Definition well_formed_field (f : string * string) : Prop :=
  f.1 ≠ "" ∧ all isWord f.1 = true ∧ f.2 ≠ "" ∧ all isDigit f.2 = true.

End Text.

(** ** The escaped text, character by character *)

Module Tokens.

(** The reserved characters, each with the letter that follows the pipe in
    its escape sequence, in the order of the tables of [EscapeValue]. *)
Definition reserved : list (ascii * ascii) :=
  [ ("|", "|"); ("'", "'"); (Str.LF, "n"); (Str.CR, "r"); ("]", "]"); ("[", "[") ]%char.

Fixpoint letter_of (c : ascii) (l : list (ascii * ascii)) : option ascii :=
  match l with
  | [] => None
  | (x, y) :: l' => if Str.eqb_char c x then Some y else letter_of c l'
  end.

(** What stands for the character [c] once the first [k] passes of
    [unescape] are over: its escape sequence if [c] is one of the reserved
    characters still to decode, [c] itself otherwise. *)
Definition token (k : nat) (c : ascii) : string :=
  match letter_of c (drop k reserved) with
  | Some y => String "|" (Str.of_char y)
  | None => Str.of_char c
  end.

Fixpoint flat_map (f : ascii → string) (s : string) : string :=
  match s with
  | EmptyString => EmptyString
  | String c s' => f c +:+ flat_map f s'
  end.

Definition head_is (y : ascii) (s : string) : bool :=
  match s with
  | String h _ => Str.eqb_char h y
  | EmptyString => false
  end.

(** [c] is one of the six characters that [escape] rewrites. *)
Definition is_reserved (c : ascii) : bool :=
  bool_decide (is_Some (letter_of c reserved)).

(** No pipe of [s] is followed by the letter [n] or the letter [r]. *)
Definition no_pipe_letter (s : string) : bool :=
  negb (Run.includes "|n" s) && negb (Run.includes "|r" s).

(** In pass [k], which decodes [x] from a pipe and [y]: no pipe that is
    already plain text is followed by a token that starts with [y]. *)
Fixpoint separate (x y : ascii) (T : ascii → string) (s : string) : bool :=
  match s with
  | EmptyString => true
  | String a s' =>
      negb (Str.eqb_char a "|" && negb (Str.eqb_char a x)
            && match s' with
               | String b _ => head_is y (T b)
               | EmptyString => false
               end)
      && separate x y T s'
  end.

End Tokens.

(** ** The lines that are no service message *)

Module Lines.



End Lines.

(** * Properties *)

(** ** The definitions at work *)

Example escape_all_six :
  EscapeValue.escape ("a|b'c" +:+ Str.of_char Str.LF +:+ Str.of_char Str.CR +:+ "][")
  = "a||b|'c|n|r|]|[".
Proof. reflexivity. Qed.

Example unescape_all_six :
  EscapeValue.unescape "a||b|'c|n|r|]|["
  = "a|b'c" +:+ Str.of_char Str.LF +:+ Str.of_char Str.CR +:+ "][".
Proof. reflexivity. Qed.

Example unescape_pipe_n :
  EscapeValue.unescape (EscapeValue.escape "|n") = Str.of_char Str.LF.
Proof. reflexivity. Qed.

Example summary_terse_matches :
  TestResultSummaryParser.matchAll "OK (5 tests, 10 assertions)"
  = [("tests", "5"); ("assertions", "10")].
Proof. reflexivity. Qed.

Example summary_verbose_matches :
  TestResultSummaryParser.matchAll "Tests: 5, Assertions: 10, Failures: 2, Skipped: 1."
  = [("Tests", "5"); ("Assertions", "10"); ("Failures", "2"); ("Skipped", "1")].
Proof. reflexivity. Qed.

Example summary_is :
  TestResultSummaryParser.is_ "OK (5 tests, 10 assertions)" = true
  /\ TestResultSummaryParser.is_ "Tests: 5, Assertions: 10, Failures: 2, Skipped: 1." = true
  /\ TestResultSummaryParser.is_ "Time: 00:00.049, Memory: 6.00 MB" = false.
Proof. repeat split; reflexivity. Qed.

Example locationHint_plain :
  Parser.parseLocationHint
    {[ "locationHint" := VString "php_qn://src/FileTest.php::Ns\FileTest::test_foo" ]}
  = Return (<["id" := VString "Ns\FileTest::test_foo"]>
              (<["file" := VString "src/FileTest.php"]>
                 (<["testId" := VString "Ns\FileTest::test_foo"]> ∅))).
Proof. reflexivity. Qed.

Example locationHint_leading_backslash :
  Parser.parseLocationHint
    {[ "locationHint" := VString "php_qn://C:\p\AssertionsTest.php::\Recca0120\VSCode\Tests\AssertionsTest::test_passed" ]}
  = Return (<["id" := VString "Recca0120\VSCode\Tests\AssertionsTest::test_passed"]>
              (<["file" := VString "C:\p\AssertionsTest.php"]>
                 (<["testId" := VString "Recca0120\VSCode\Tests\AssertionsTest::test_passed"]> ∅))).
Proof. reflexivity. Qed.

Example strip_dataset_number :
  Parser.strip_dataset "addition_provider with data set #3" = "addition_provider".
Proof. reflexivity. Qed.

Example filePattern_examples :
  Parser.filePattern "C:\p\AssertionsTest.php:22" = Some ("C:\p\AssertionsTest.php", "22")
  /\ Parser.filePattern "--- Expected" = None
  /\ Parser.filePattern "src/a.php:x" = None
  /\ Parser.filePattern "ss:1" = Some ("s", "1")
  /\ Parser.filePattern "src/a.php:7" = Some ("rc/a.php", "7").
Proof. repeat split; reflexivity. Qed.


Example parseFileAndLine_details :
  Parser.parseFileAndLine
    (" C:\p\tests\AssertionsTest.php:22" +:+ Str.of_char Str.LF
     +:+ " C:\p\vendor\phpunit\TestCase.php:1011" +:+ Str.of_char Str.LF +:+ " ")
  = [("C:\p\tests\AssertionsTest.php", 22); ("C:\p\vendor\phpunit\TestCase.php", 1011)].
Proof. reflexivity. Qed.

Example parseDetails_message_first :
  Parser.parseDetails
    (<["message" := VString ("Failed asserting that false is true." +:+ Str.of_char Str.LF
                             +:+ "/p/tests/ATest.php:5")]>
       (<["details" := VString " /p/tests/BTest.php:22 "]> ∅))
  = Return (<["message" := VString "Failed asserting that false is true."]>
              (<["details" := VArray [IDetail "/p/tests/ATest.php" 5;
                                      IDetail "/p/tests/BTest.php" 22]]> ∅)).
Proof. reflexivity. Qed.

Example unknown_event_dropped :
  ProblemMatcher.dispatch ∅ (Some (Run.lifecycle "testCount" "t" 1))
  = (∅, Return ProblemMatcher.RUndefined).
Proof. reflexivity. Qed.

Example service_message_text :
  Parser.is_ "##teamcity[testFinished name='t' duration='12' flowId='1']" = true
  /\ Parser.strip_brackets "[testFinished name='t' duration='12' flowId='1']"
     = "testFinished name='t' duration='12' flowId='1'"
  /\ Parser.is_ "OK (5 tests, 10 assertions)" = false.
Proof. repeat split; reflexivity. Qed.

Example doParse_assembles :
  Parser.doParse
    (fun _ =>
       <["event" := VString "testFailed"]>
         (<["name" := VString "test_failed"]>
            (<["locationHint" := VString "php_qn:///p/tests/ATest.php::\ATest::test_failed"]>
               (<["message" := VString "Failed asserting that false is true."]>
                  (<["details" := VString " /p/tests/ATest.php:22 "]>
                     (<["flowId" := VNumber 8024]> ∅))))))
    "##teamcity[testFailed name='test_failed' flowId='8024']"
  = Return
      (<["kind" := VString "testFailed"]>
         (<["event" := VString "testFailed"]>
            (<["name" := VString "test_failed"]>
               (<["locationHint" := VString "php_qn:///p/tests/ATest.php::\ATest::test_failed"]>
                  (<["id" := VString "ATest::test_failed"]>
                     (<["file" := VString "/p/tests/ATest.php"]>
                        (<["testId" := VString "ATest::test_failed"]>
                           (<["message" := VString "Failed asserting that false is true."]>
                              (<["details" := VArray [IDetail "/p/tests/ATest.php" 22]]>
                                 (<["flowId" := VNumber 8024]> ∅)))))))))).
Proof. reflexivity. Qed.

Example parseDetails_without_message :
  Parser.parseDetails {[ "details" := VString " /p/tests/ATest.php:22 " ]}
  = Throw_TypeError.
Proof. reflexivity. Qed.

Example version_lines :
  TestVersionParser.groups "PHPUnit 9.5.26 by Sebastian Bergmann and contributors."
  = Some (VUndefined, "9.5.26")
  /\ TestVersionParser.groups
       "ParaTest v6.6.5 upon PHPUnit 9.5.26 by Sebastian Bergmann and contributors."
     = Some (VString "6.6.5", "9.5.26")
  /\ TestVersionParser.groups "ParaTest 1.2PHPUnit 9" = Some (VString "1.", "9")
  /\ TestVersionParser.groups "ParaTest 1PHPUnit 9" = None
  /\ TestVersionParser.groups "paratest 1 phpunit 9 PHPUNIT 10.1" = Some (VString "1", "10.1").
Proof. repeat split; reflexivity. Qed.

Example value_lines :
  ValueParser.group "Runtime" "Runtime:       PHP 8.1.12" = Some "PHP 8.1.12"
  /\ ValueParser.group "Configuration" "configuration: C:\p\phpunit.xml"
     = Some "C:\p\phpunit.xml"
  /\ ValueParser.group "Processes" "Processes:     8" = Some "8"
  /\ ValueParser.group "Processes" "Processes:  " = Some " "
  /\ ValueParser.group "Processes" "Processes: " = None
  /\ ValueParser.group "Processes" "Processes:8" = None.
Proof. repeat split; reflexivity. Qed.

Example time_and_memory_lines :
  TimeAndMemoryParser.groups "Time: 00:00.049, Memory: 6.00 MB"
  = Some ("00:00.049", "6.00 MB")
  /\ TimeAndMemoryParser.groups "Time: 49 ms, Memory: 6.00 MB" = Some ("49 ms", "6.00 MB")
  /\ TimeAndMemoryParser.groups "Time: 49 ms, Memory: 6.00MB" = None
  /\ TimeAndMemoryParser.groups "x Time: 1, Memory: 2 MBytes." = Some ("1", "2 MBytes").
Proof. repeat split; reflexivity. Qed.

Example plain_lines :
  Parser.parse (fun _ => ∅) "Processes:     8"
  = Return (Some (<["kind" := VString "testProcesses"]>
                    (<["processes" := VString "8"]>
                       (<["text" := VString "Processes:     8"]> ∅))))
  /\ Parser.parse (fun _ => ∅) "PHP Warning: something" = Return None.
Proof. repeat split; reflexivity. Qed.

(** ** The correlator reads and writes one entry of its store *)

Module Locality.

Import ProblemMatcher Run.

Ltac case_handlers :=
  repeat match goal with
    | |- context [match ?x with _ => _ end] =>
        lazymatch x with
        | _ !! _ => destruct x eqn:?
        | lookup _ => destruct x as [[]|] eqn:?
        | push_details _ _ => destruct x eqn:?
        | record_key _ => destruct x eqn:?
        | (if _ then _ else _) => fail
        end
    | |- context [if ?b then _ else _] => destruct b eqn:?
    end.

Lemma call_frame m collect r k :
  generateId r ≠ k → (call m collect r).1 !! k = collect !! k.
Proof.
  intros Hk.
  destruct m; cbn [call]; unfold handleStarted, handleFinished, handleFault;
    cbn zeta; case_handlers; cbn [fst];
    rewrite ?lookup_insert_ne, ?lookup_delete_ne by done; done.
Qed.




End Locality.

(** ** Runs over two keys *)

Module TwoKeys.

Import ProblemMatcher Run Locality.

Lemma dispatch_all_cons collect result results :
  dispatch_all collect (result :: results)
  = ((dispatch_all (dispatch collect result).1 results).1,
     (dispatch collect result).2 :: (dispatch_all (dispatch collect result).1 results).2).
Proof.
  cbn [dispatch_all]. destruct (dispatch collect result) as [c o]. cbn [fst snd].
  by destruct (dispatch_all c results).
Qed.


Section Pair.

Variables k1 k2 : string.
Hypothesis distinct : k1 ≠ k2.



End Pair.

End TwoKeys.

(** ** The generated id determines the name and the flow id *)

Module Keys.

Import ProblemMatcher.

Lemma decimal_inj n m : decimal n = decimal m → n = m.
Proof.
  unfold decimal. intros H. apply to_int_inj.
  assert (Hisi : ∀ z, NilZero.int_of_string (NilZero.string_of_int (Z.to_int z))
                      = Some (Z.to_int z)).
  { intros z. apply NilZero.isi; destruct z; cbn; try discriminate;
      intros [= E]; by apply Unsigned.to_uint_nonnil in E. }
  pose proof (Hisi n) as Hn. rewrite H, Hisi in Hn. congruence.
Qed.

Lemma uint_digits d : Re.all Re.isDigit (NilEmpty.string_of_uint d) = true.
Proof. induction d; cbn [NilEmpty.string_of_uint Re.all]; by try rewrite IHd. Qed.

Lemma decimal_digits n : 0 ≤ n → Re.all Re.isDigit (decimal n) = true.
Proof.
  intros Hn. unfold decimal. destruct n as [|p|p]; [done| |lia].
  cbn [Z.to_int NilZero.string_of_int]. unfold NilZero.string_of_uint.
  pose proof (uint_digits (Pos.to_uint p)). by destruct (Pos.to_uint p).
Qed.

Lemma dash_is_no_digit a d : Re.all Re.isDigit (a +:+ String "-" d) = false.
Proof.
  induction a as [|c a IH]; [done|].
  change (Re.all Re.isDigit (String c a +:+ String "-" d))
    with (Re.isDigit c && Re.all Re.isDigit (a +:+ String "-" d)).
  rewrite IH. apply andb_false_r.
Qed.

Lemma key_split a b d1 d2 :
  Re.all Re.isDigit d1 = true → Re.all Re.isDigit d2 = true →
  a +:+ String "-" d1 = b +:+ String "-" d2 → a = b ∧ d1 = d2.
Proof.
  revert b. induction a as [|c a IH]; intros [|c' b] H1 H2 Heq;
    cbv [String.append] in Heq; fold String.append in Heq.
  - by injection Heq as ->.
  - injection Heq as _ Hd. subst d1. by rewrite dash_is_no_digit in H1.
  - injection Heq as _ Hd. subst d2. by rewrite dash_is_no_digit in H2.
  - injection Heq as -> Heq. destruct (IH b H1 H2 Heq) as [-> ->]. done.
Qed.

(** Two lifecycle records with text names and flow ids that are natural
    numbers are filed under the same id only when name and flow id agree. *)
Lemma generateId_inj (r1 r2 : record) (n1 n2 : string) (f1 f2 : Z) :
  get r1 "name" = VString n1 → get r1 "flowId" = VNumber f1 → 0 ≤ f1 →
  get r2 "name" = VString n2 → get r2 "flowId" = VNumber f2 → 0 ≤ f2 →
  generateId r1 = generateId r2 → n1 = n2 ∧ f1 = f2.
Proof.
  intros Hn1 Hf1 H1 Hn2 Hf2 H2. unfold generateId.
  rewrite Hn1, Hf1, Hn2, Hf2. cbn [toString]. intros Heq.
  change (n1 +:+ String "-" (decimal f1) = n2 +:+ String "-" (decimal f2)) in Heq.
  apply key_split in Heq as [-> Heq]; auto using decimal_digits.
  split; [done|]. by apply decimal_inj.
Qed.

(** With a negative flow id the id is ambiguous. *)
Example generateId_collision :
  generateId (Run.lifecycle testStarted "a-" 1)
  = generateId (Run.lifecycle testStarted "a" (-1)).
Proof. reflexivity. Qed.

End Keys.

(** ** The correlator *)

Module Correlator.

Import ProblemMatcher Run Locality TwoKeys.

(** [parse] is [dispatch] on what the parser answered. *)
Lemma parse_dispatch (parser_parse : string → completion (option record))
    collect input result :
  parser_parse input = Return result →
  parse parser_parse collect input = dispatch collect result.
Proof. unfold parse. by intros ->. Qed.

Lemma parse_all_dispatch_all (parser_parse : string → completion (option record))
    inputs results :
  Forall2 (λ input result, parser_parse input = Return result) inputs results →
  ∀ collect, parse_all parser_parse collect inputs = dispatch_all collect results.
Proof.
  induction 1 as [|input result inputs results H _ IH]; intros collect; [done|].
  cbn [parse_all dispatch_all]. rewrite (parse_dispatch _ _ _ _ H).
  destruct (dispatch collect result) as [c o]. by rewrite IH.
Qed.

Lemma get_lookup (r : record) k v : r !! k = Some v → get r k = v.
Proof. unfold get. by intros ->. Qed.

Lemma lifecycle_of_isTestResult event name flowId r :
  lifecycle_of event name flowId r → isTestResult r = true.
Proof.
  intros (He & _ & Hn & Hf). unfold isTestResult, has.
  rewrite He, Hn, Hf. by rewrite !bool_decide_eq_true_2 by eauto.
Qed.

Lemma lifecycle_of_event event name flowId r :
  lifecycle_of event name flowId r → get r "event" = VString event.
Proof. intros (He & _). unfold get. by rewrite He. Qed.

Lemma lifecycle_of_kind event name flowId r :
  lifecycle_of event name flowId r → get r "kind" = VString event.
Proof. intros (_ & Hk & _). unfold get. by rewrite Hk. Qed.

Lemma lifecycle_of_generateId event name flowId r :
  lifecycle_of event name flowId r →
  generateId r = name +:+ "-" +:+ decimal flowId.
Proof.
  intros (_ & _ & Hn & Hf). unfold generateId, get. by rewrite Hn, Hf.
Qed.

Lemma dispatch_started collect r :
  isTestResult r = true →
  get r "event" = VString testStarted ∨ get r "event" = VString testSuiteStarted →
  dispatch collect (Some r) = handleStarted collect r.
Proof. intros Hr [He|He]; cbn [dispatch]; by rewrite Hr, He. Qed.

Lemma dispatch_fault collect r :
  isTestResult r = true →
  get r "event" = VString testFailed ∨ get r "event" = VString testIgnored →
  dispatch collect (Some r) = handleFault collect r.
Proof. intros Hr [He|He]; cbn [dispatch]; by rewrite Hr, He. Qed.

Lemma dispatch_finished collect r :
  isTestResult r = true →
  get r "event" = VString testFinished ∨ get r "event" = VString testSuiteFinished →
  dispatch collect (Some r) = handleFinished collect r.
Proof. intros Hr [He|He]; cbn [dispatch]; by rewrite Hr, He. Qed.

(** A stored fault makes the terminal event. *)
Lemma handleFinished_fault collect prevData testResult :
  collect !! generateId testResult = Some prevData →
  isFault prevData = true →
  ∃ result,
    handleFinished collect testResult
    = (delete (generateId testResult) collect, Return (RRecord result))
    ∧ result !! "event" = Some (get prevData "event")
    ∧ result !! "kind" = Some (get prevData "event")
    ∧ (∀ k, k ≠ "event" → k ≠ "kind" →
            result !! k = (spread prevData testResult) !! k).
Proof.
  intros Hprev Hfault. unfold handleFinished. rewrite Hprev, Hfault.
  eexists. split; [done|]. split_and!.
  - by rewrite lookup_insert_ne, lookup_insert_eq.
  - by rewrite lookup_insert_eq.
  - intros k H1 H2. by rewrite !lookup_insert_ne.
Qed.

Lemma isFault_event prevData :
  isFault prevData = true →
  get prevData "event" = VString testFailed ∨ get prevData "event" = VString testIgnored.
Proof.
  unfold isFault, is_string. destruct (get prevData "event"); try done.
  intros [H|H]%orb_true_iff; apply String.eqb_eq in H; subst; auto.
Qed.

(** The second and later faults of a key: the message grows, the details
    are appended. *)
Lemma handleFault_merge collect prevData testResult ds es :
  collect !! generateId testResult = Some prevData →
  is_string (get prevData "kind") testStarted = false →
  prevData !! "details" = Some (VArray ds) →
  testResult !! "details" = Some (VArray es) →
  handleFault collect testResult
  = (<[generateId testResult :=
         <["details" := VArray (ds ++ es)]> (append_message prevData testResult)]> collect,
     Return RUndefined).
Proof.
  intros Hprev Hkind Hds Hes. unfold handleFault. rewrite Hprev, Hkind.
  assert (push_details (append_message prevData testResult) testResult = Some (ds ++ es))
    as ->; [|done].
  unfold push_details, append_message, get.
  rewrite Hes. cbn [default iterate].
  destruct (truthy _); [rewrite lookup_insert_ne by done|]; by rewrite Hds.
Qed.

Lemma append_message_truthy prevData testResult :
  truthy (get testResult "message") = true →
  append_message prevData testResult
  = <["message" :=
        VString (toString (get prevData "message")
                 +:+ Str.of_char Str.LF +:+ Str.of_char Str.LF
                 +:+ toString (get testResult "message"))]> prevData.
Proof. unfold append_message. by intros ->. Qed.

Lemma append_message_falsy prevData testResult :
  truthy (get testResult "message") = false →
  append_message prevData testResult = prevData.
Proof. unfold append_message. by intros ->. Qed.

Lemma truthy_string s : s ≠ "" → truthy (VString s) = true.
Proof.
  intros Hs. cbn [truthy]. apply negb_true_iff, String.eqb_neq. done.
Qed.

Lemma fault_event_not_started event :
  event = testFailed ∨ event = testIgnored →
  is_string (VString event) testStarted = false.
Proof. by intros [-> | ->]. Qed.

Lemma fault_event_isFault event r :
  event = testFailed ∨ event = testIgnored →
  r !! "event" = Some (VString event) → isFault r = true.
Proof. unfold isFault, get. by intros [-> | ->] ->. Qed.

(** A Finished record without a stored record makes the call throw, whatever
    else the store holds. *)
Lemma finished_without_record_throws collect r :
  isTestResult r = true →
  get r "event" = VString testFinished ∨ get r "event" = VString testSuiteFinished →
  collect !! generateId r = None →
  dispatch collect (Some r) = (collect, Throw_TypeError).
Proof.
  intros Hr He Hnone. rewrite dispatch_finished by done.
  unfold handleFinished. by rewrite Hnone.
Qed.

(** No event outside the six lifecycle names touches the store; one that is
    not a member of [Object.prototype] either returns [undefined]. *)
Lemma other_event_keeps_store collect r :
  assoc (toString (get r "event")) own_members = None →
  (dispatch collect (Some r)).1 = collect.
Proof.
  intros Hown. cbn [dispatch]. destruct (isTestResult r); [|done].
  unfold lookup. rewrite Hown.
  destruct (assoc _ inherited_members) as [m|] eqn:Hm; [|done].
  destruct m; try done; cbn in Hm;
    repeat match type of Hm with
      | (if ?b then _ else _) = _ => destruct b; try discriminate
      end.
Qed.

Lemma unknown_event_is_dropped collect r :
  isTestResult r = true →
  lookup (toString (get r "event")) = None →
  dispatch collect (Some r) = (collect, Return RUndefined).
Proof. intros Hr Hl. cbn [dispatch]. by rewrite Hr, Hl. Qed.

Lemma lookup_handleFinished s :
  lookup s = Some m_handleFinished → s = testFinished ∨ s = testSuiteFinished.
Proof.
  unfold lookup. cbn.
  repeat match goal with
    | |- context [String.eqb s ?t] =>
        destruct (String.eqb_spec s t) as [->|_];
        [intros; first [discriminate | by auto]|]
    end.
  done.
Qed.

(** Only [handleFinished] removes an entry, and only its own. *)
Lemma call_removes m collect r k :
  is_Some (collect !! k) →
  (call m collect r).1 !! k = None →
  m = m_handleFinished ∧ generateId r = k.
Proof.
  intros [prev Hprev].
  destruct m; cbn [call]; unfold handleStarted, handleFinished, handleFault;
    cbn zeta; case_handlers; cbn [fst]; try congruence;
    destruct (decide (generateId r = k)) as [Heq|Hne];
    rewrite ?(lookup_insert_ne _ _ _ _ Hne), ?(lookup_delete_ne _ _ _ Hne);
    try congruence; try done;
    rewrite Heq, ?lookup_insert_eq; congruence.
Qed.

Lemma dispatch_removes collect result k :
  is_Some (collect !! k) →
  ((dispatch collect result).1 !! k = None ↔ finishing result k).
Proof.
  intros Hsome. split.
  - destruct result as [r|]; cbn [dispatch fst].
    2:{ intros Hnone. rewrite Hnone in Hsome. by destruct Hsome. }
    destruct (isTestResult r) eqn:Hr.
    2:{ cbn [fst]. intros Hnone. rewrite Hnone in Hsome. by destruct Hsome. }
    destruct (lookup _) as [m|] eqn:Hm.
    2:{ cbn [fst]. intros Hnone. rewrite Hnone in Hsome. by destruct Hsome. }
    intros Hnone. destruct (call_removes m collect r k Hsome Hnone) as [-> Hk].
    exists r. split_and!; try done.
    by apply lookup_handleFinished.
  - intros (r & -> & Hr & He & Hk). cbn [dispatch]. rewrite Hr.
    assert (lookup (toString (get r "event")) = Some m_handleFinished) as ->.
    { by destruct He as [-> | ->]. }
    cbn [call]. unfold handleFinished. rewrite Hk.
    destruct Hsome as [prev ->]. cbn [fst]. apply lookup_delete_eq.
Qed.

Lemma dispatch_all_removes results :
  ∀ collect k,
    is_Some (collect !! k) →
    (dispatch_all collect results).1 !! k = None →
    Exists (λ result, finishing result k) results.
Proof.
  induction results as [|result results IH]; intros collect k Hsome Hnone.
  - cbn in Hnone. rewrite Hnone in Hsome. by destruct Hsome.
  - rewrite TwoKeys.dispatch_all_cons in Hnone. cbn [fst] in Hnone.
    destruct ((dispatch collect result).1 !! k) as [r|] eqn:Hstep.
    + apply Exists_cons_tl. apply (IH (dispatch collect result).1); [|done].
      rewrite Hstep. eauto.
    + apply Exists_cons_hd. by apply (dispatch_removes collect result k Hsome).
Qed.




Lemma dispatch_all_app collect l1 l2 :
  dispatch_all collect (l1 ++ l2)
  = ((dispatch_all (dispatch_all collect l1).1 l2).1,
     (dispatch_all collect l1).2 ++ (dispatch_all (dispatch_all collect l1).1 l2).2).
Proof.
  revert collect. induction l1 as [|x l1 IH]; intros collect.
  - cbn. by destruct (dispatch_all collect l2).
  - rewrite <- app_comm_cons, !TwoKeys.dispatch_all_cons, IH. done.
Qed.



End Correlator.

(** ** String lemmas *)

Module StrFacts.

Import Re.

Lemma append_cons c (a b : string) : String c a +:+ b = String c (a +:+ b).
Proof. reflexivity. Qed.

Lemma append_nil_l (b : string) : "" +:+ b = b.
Proof. reflexivity. Qed.

Lemma append_assoc (a b c : string) : (a +:+ b) +:+ c = a +:+ b +:+ c.
Proof. induction a as [|x a IH]; [done|]. by rewrite !append_cons, IH. Qed.

Lemma span_append p s a b : span p s = (a, b) → s = a +:+ b.
Proof.
  revert a b. induction s as [|c s IH]; intros a b; cbn [span].
  - by intros [= <- <-].
  - destruct (p c).
    + destruct (span p s) as [a' b'] eqn:Hs. intros [= <- <-].
      by rewrite append_cons, <- (IH a' b').
    + by intros [= <- <-].
Qed.

Lemma many1_append p s a b : many1 p s = Some (a, b) → s = a +:+ b.
Proof.
  unfold many1. destruct (span p s) as [a' b'] eqn:Hs.
  destruct a'; [done|]. intros [= <- <-]. by apply span_append in Hs.
Qed.

Lemma one_cons p s s' : one p s = Some s' → ∃ c, p c = true ∧ s = String c s'.
Proof.
  destruct s as [|c s]; [done|]. cbn [one]. destruct (p c) eqn:Hc; [|done].
  intros [= <-]. eauto.
Qed.

Lemma startsWith_append l s : Str.startsWith l s = true → s = l +:+ Str.drop (String.length l) s.
Proof.
  revert s. induction l as [|a l IH]; intros s; [done|].
  destruct s as [|b s]; [done|]. cbn [Str.startsWith String.length Str.drop].
  intros [Hab Hl]%andb_true_iff. apply Ascii.eqb_eq in Hab as ->.
  by rewrite append_cons, <- IH.
Qed.

Lemma lit_append l s s' : lit l s = Some s' → s = l +:+ s'.
Proof.
  unfold lit. destruct (Str.startsWith l s) eqn:Hl; [|done].
  intros [= <-]. by apply startsWith_append.
Qed.

End StrFacts.

(** ** The summary line *)

Module SummaryFacts.

Import Re TestResultSummaryParser Text StrFacts.

Lemma name_count_text s name count rest :
  name_count s = Some (name, count, rest) →
  ∃ space, isSpace space = true
           ∧ s = name +:+ String ":" (String space count) +:+ rest.
Proof.
  unfold name_count. intros H.
  destruct (many1 isWord s) as [[n s1]|] eqn:H1; [|done]. cbn in H.
  destruct (lit ":" s1) as [s2|] eqn:H2; [|done]. cbn in H.
  destruct (one isSpace s2) as [s3|] eqn:H3; [|done]. cbn in H.
  destruct (many1 isDigit s3) as [[c s4]|] eqn:H4; [|done]. cbn in H.
  injection H as <- <- <-.
  apply many1_append in H1, H4. apply lit_append in H2.
  apply one_cons in H3 as (space & Hsp & H3). subst.
  exists space. split; [done|].
  by rewrite !append_cons, ?append_nil_l, ?append_cons.
Qed.

Lemma count_name_text s name count rest :
  count_name s = Some (name, count, rest) →
  ∃ space, isSpace space = true ∧ s = count +:+ String space name +:+ rest.
Proof.
  unfold count_name. intros H.
  destruct (many1 isDigit s) as [[c s1]|] eqn:H1; [|done]. cbn in H.
  destruct (one isSpace s1) as [s2|] eqn:H2; [|done]. cbn in H.
  destruct (many1 isWord s2) as [[n s3]|] eqn:H3; [|done]. cbn in H.
  injection H as <- <- <-.
  apply many1_append in H1, H3.
  apply one_cons in H2 as (space & Hsp & H2). subst.
  exists space. split; [done|]. by rewrite ?append_cons.
Qed.

Lemma match_at_text s name count rest :
  match_at s = Some (name, count, rest) →
  field_in_text name count s.
Proof.
  unfold match_at. intros H.
  destruct (name_count s) as [[[n c] r]|] eqn:H1.
  - cbn in H. injection H as <- <- <-.
    apply name_count_text in H1 as (space & Hsp & ->).
    exists "", r, space. split; [done|]. by left.
  - destruct (count_name s) as [[[n c] r]|] eqn:H2; [|done].
    cbn in H. injection H as <- <- <-.
    apply count_name_text in H2 as (space & Hsp & ->).
    exists "", r, space. split; [done|]. by right.
Qed.

Lemma field_in_text_cons c name count s :
  field_in_text name count s → field_in_text name count (String c s).
Proof.
  intros (before & after & space & Hsp & H).
  exists (String c before), after, space. split; [done|].
  destruct H as [-> | ->]; [left|right]; done.
Qed.

Lemma matchAll_from_text s :
  ∀ skip name count,
    (name, count) ∈ matchAll_from skip s → field_in_text name count s.
Proof.
  induction s as [|c s IH]; intros skip name count; cbn [matchAll_from].
  - by intros ?%elem_of_nil.
  - destruct skip as [|skip].
    + destruct (match_at (String c s)) as [[[n k] rest]|] eqn:Hm.
      * intros [Heq|Hin]%elem_of_cons.
        -- injection Heq as -> ->. by apply match_at_text in Hm.
        -- apply field_in_text_cons. by apply IH in Hin.
      * intros Hin. apply field_in_text_cons. by apply IH in Hin.
    + intros Hin. apply field_in_text_cons. by apply IH in Hin.
Qed.

Lemma parse_fold (l : list (string * string)) :
  ∀ (init : record) k v,
    foldl (fun (result : record) '(name, count) =>
             <[normalize name := VNumber (parseInt count)]> result) init l !! k = Some v →
    init !! k = Some v
    ∨ ∃ name count, (name, count) ∈ l ∧ k = normalize name ∧ v = VNumber (parseInt count).
Proof.
  induction l as [|[n c] l IH]; intros init k v; cbn [foldl]; [by auto|].
  intros [H|(name & count & Hin & -> & ->)]%IH.
  - destruct (decide (normalize n = k)) as [<-|Hne].
    + rewrite lookup_insert_eq in H. injection H as <-.
      right. exists n, c. split; [left|done].
    + rewrite lookup_insert_ne in H by done. by left.
  - right. exists name, count. split; [by right|done].
Qed.

(** Every property of the record [parse] builds, except [kind] and [text],
    is the normalized name of a field written in the line, with its count. *)
Lemma parse_fields text k v :
  parse text !! k = Some v →
  k = "kind" ∨ k = "text"
  ∨ ∃ name count,
      field_in_text name count text
      ∧ k = normalize name ∧ v = VNumber (parseInt count).
Proof.
  unfold parse. intros [H|(name & count & Hin & -> & ->)]%parse_fold.
  - destruct (decide (k = "kind")) as [->|Hk]; [by left|].
    destruct (decide (k = "text")) as [->|Ht]; [by right; left|].
    by rewrite !lookup_insert_ne in H by done.
  - right; right. exists name, count. split; [|done].
    by apply (matchAll_from_text text 0).
Qed.

End SummaryFacts.

(** ** The data-set suffix *)

Module HintFacts.

Import Re Parser Text StrFacts.

Lemma strip_dataset_eq id :
  strip_dataset id
  = if dataset_at id then ""
    else match id with
         | EmptyString => ""
         | String c id' => String c (strip_dataset id')
         end.
Proof. by destruct id. Qed.

Lemma dataset_at_suffix mark label :
  mark = "#"%char ∨ mark = double_quote →
  dataset_at (dataset_suffix mark label)
  = negb (String.eqb label "") && all (fun c => negb (isLineTerminator c)) label.
Proof. by intros [-> | ->]. Qed.

(** The pattern removes the suffix, and nothing else, when it matches
    nowhere before the suffix and the label has no line terminator. *)
Lemma strip_dataset_suffix base mark label :
  mark = "#"%char ∨ mark = double_quote →
  label ≠ "" →
  all (fun c => negb (isLineTerminator c)) label = true →
  (∀ n, (n < String.length base)%nat →
        dataset_at (Str.drop n (base +:+ dataset_suffix mark label)) = false) →
  strip_dataset (base +:+ dataset_suffix mark label) = base.
Proof.
  intros Hmark Hlabel Hline. induction base as [|c base IH]; intros Hbefore.
  - rewrite append_nil_l, strip_dataset_eq, dataset_at_suffix, Hline by done.
    by apply String.eqb_neq in Hlabel as ->.
  - pose proof (Hbefore 0%nat ltac:(cbn; lia)) as H0.
    cbn [Str.drop] in H0. rewrite append_cons in H0 |- *.
    rewrite strip_dataset_eq, H0.
    rewrite IH; [done|]. intros n Hn. apply (Hbefore (S n)). cbn. lia.
Qed.

Lemma parseLocationHint_testId (argv : record) hint :
  argv !! "locationHint" = Some (VString hint) → hint ≠ "" →
  ∃ file id,
    parseLocationHint argv
    = Return (<["id" := VString id]>
                (<["file" := VString file]>
                   (<["testId" := VString (strip_dataset id)]> ∅))).
Proof.
  intros Hh Hne. unfold parseLocationHint.
  rewrite !(Correlator.get_lookup _ _ _ Hh). cbn [truthy].
  apply String.eqb_neq in Hne as ->. cbn [negb].
  destruct (split _ _) as [file pieces]. eauto.
Qed.

End HintFacts.

(** ** What the decoder hands to the correlator *)

Module ParserFacts.

Import Parser.

Lemma parseLocationHint_keys argv hint k :
  parseLocationHint argv = Return hint →
  k ≠ "id" → k ≠ "file" → k ≠ "testId" → hint !! k = None.
Proof.
  unfold parseLocationHint. intros H Hid Hfile Htest.
  destruct (negb (truthy (get argv "locationHint"))).
  { injection H as <-. apply lookup_empty. }
  destruct (get argv "locationHint") as [| | |s|]; try done.
  destruct (split _ _) as [file pieces]. injection H as <-.
  by rewrite !lookup_insert_ne, lookup_empty.
Qed.

Lemma parseDetails_keys argv details k :
  parseDetails argv = Return details →
  k ≠ "message" → k ≠ "details" → details !! k = None.
Proof.
  unfold parseDetails. intros H Hm Hd.
  destruct (negb (has "details" argv)).
  { injection H as <-. apply lookup_empty. }
  destruct (get argv "message") as [| | |message|]; try done.
  destruct (get argv "details") as [| | |details_text|]; try done.
  injection H as <-. by rewrite !lookup_insert_ne, lookup_empty.
Qed.

Lemma parseLocationHint_no_details argv hint :
  parseLocationHint argv = Return hint → hint !! "details" = None.
Proof. intros H. by apply (parseLocationHint_keys argv hint "details" H). Qed.

Section WithTokenizer.

Variable toTeamcityArgv : string → record.

(** In a decoded service message [kind] repeats [event]. *)
Lemma doParse_kind text r :
  doParse toTeamcityArgv text = Return r →
  r !! "kind" = Some (get r "event").
Proof.
  unfold doParse. cbn zeta.
  set (argv := toTeamcityArgv _).
  destruct (parseLocationHint _) as [hint|] eqn:Hh; [|done].
  destruct (parseDetails _) as [details|] eqn:Hd; [|done].
  intros [= <-]. unfold spread, get.
  pose proof (parseDetails_keys _ _ "kind" Hd) as Hdk.
  pose proof (parseDetails_keys _ _ "event" Hd) as Hde.
  pose proof (parseLocationHint_keys _ _ "kind" Hh) as Hhk.
  pose proof (parseLocationHint_keys _ _ "event" Hh) as Hhe.
  rewrite !lookup_union_r by auto.
  by rewrite lookup_insert_eq, lookup_insert_ne.
Qed.

(** The [details] of a decoded service message, when there are any, are an
    array of detail entries. *)
Lemma doParse_details text r :
  doParse toTeamcityArgv text = Return r →
  r !! "details" = None
  ∨ ∃ l, r !! "details" = Some (VArray (detail_item <$> l)).
Proof.
  unfold doParse. cbn zeta.
  set (argv := <["kind" := _]> (toTeamcityArgv _)).
  destruct (parseLocationHint argv) as [hint|] eqn:Hh; [|done].
  destruct (parseDetails argv) as [details|] eqn:Hd; [|done].
  intros [= <-]. unfold spread.
  unfold parseDetails in Hd. destruct (has "details" argv) eqn:Hhas; cbn [negb] in Hd.
  - destruct (get argv "message") as [| | |message|]; try done.
    destruct (get argv "details") as [| | |details_text|]; try done.
    injection Hd as <-. right. eexists.
    erewrite lookup_union_Some_l; [done|].
    by rewrite lookup_insert_ne, lookup_insert_eq.
  - injection Hd as <-. left.
    rewrite lookup_union_r by apply lookup_empty.
    rewrite lookup_union_r by (by eapply parseLocationHint_no_details).
    unfold has in Hhas. apply bool_decide_eq_false in Hhas.
    by apply eq_None_not_Some.
Qed.

End WithTokenizer.

End ParserFacts.

(** ** Where the round trip of [EscapeValue] holds *)

Module RoundTrip.

Import Tokens StrFacts EscapeValue.

Lemma eqb_char_eq a b : Str.eqb_char a b = true ↔ a = b.
Proof. apply Ascii.eqb_eq. Qed.

Lemma eqb_char_neq a b : Str.eqb_char a b = false ↔ a ≠ b.
Proof. apply Ascii.eqb_neq. Qed.

Lemma flat_map_append f a b : flat_map f (a +:+ b) = flat_map f a +:+ flat_map f b.
Proof.
  induction a as [|c a IH]; [done|].
  rewrite append_cons. cbn [flat_map]. by rewrite IH, append_assoc.
Qed.

Lemma flat_map_flat_map f g s :
  flat_map f (flat_map g s) = flat_map (λ c, flat_map f (g c)) s.
Proof.
  induction s as [|c s IH]; [done|].
  cbn [flat_map]. by rewrite flat_map_append, IH.
Qed.

Lemma flat_map_ext f g s : (∀ c, f c = g c) → flat_map f s = flat_map g s.
Proof. intros H. induction s as [|c s IH]; [done|]. cbn [flat_map]. by rewrite H, IH. Qed.

Lemma flat_map_of_char s : flat_map Str.of_char s = s.
Proof. induction s as [|c s IH]; [done|]. cbn [flat_map]. by rewrite IH. Qed.

(** A pass that replaces one character *)
Lemma replaceAll_char x rep s :
  Str.replaceAll (String x EmptyString) rep s
  = flat_map (λ c, if Str.eqb_char x c then rep else String c EmptyString) s.
Proof.
  unfold Str.replaceAll.
  induction s as [|c s IH]; [done|].
  cbn [Str.replaceAll_from Str.startsWith flat_map String.length Nat.sub].
  rewrite andb_true_r. destruct (Str.eqb_char x c); by rewrite IH.
Qed.

(** [escape] writes each character as its token. *)
Lemma escape_tokens s : escape s = flat_map (token 0) s.
Proof.
  unfold escape, patterns_unescape, values_unescape, values_escape.
  cbn [change_string]. unfold Str.of_char.
  rewrite !replaceAll_char, !flat_map_flat_map.
  apply flat_map_ext. intros c.
  destruct c as [[] [] [] [] [] [] [] []]; reflexivity.
Qed.

Section Pass.

(** One pass of [unescape]: the sequence of a pipe and [y] becomes [x]. *)
Variables x y : ascii.
Variables T T' : ascii → string.

Hypothesis T_x : T x = String "|" (Str.of_char y).
Hypothesis T'_x : T' x = Str.of_char x.
Hypothesis T_other :
  ∀ c, c ≠ x →
       T' c = T c
       ∧ (T c = Str.of_char c
          ∨ ∃ z, T c = String "|" (Str.of_char z) ∧ z ≠ y ∧ z ≠ "|"%char).

Lemma pass_step c rest :
  (c = "|"%char → c ≠ x → head_is y rest = false) →
  Str.replaceAll_from (String "|" (Str.of_char y)) (Str.of_char x) 0 (T c +:+ rest)
  = T' c +:+ Str.replaceAll_from (String "|" (Str.of_char y)) (Str.of_char x) 0 rest.
Proof.
  intros Hsep. destruct (decide (c = x)) as [->|Hc].
  - rewrite T_x, T'_x. unfold Str.of_char. rewrite !append_cons, !append_nil_l.
    cbn [Str.replaceAll_from Str.startsWith String.length Nat.sub].
    unfold Str.eqb_char. rewrite !Ascii.eqb_refl. cbn [andb].
    by rewrite append_cons, append_nil_l.
  - destruct (T_other c Hc) as [-> [Hone|(z & Htwo & Hzy & Hzp)]].
    + rewrite Hone. unfold Str.of_char. rewrite append_cons, append_nil_l.
      cbn [Str.replaceAll_from Str.startsWith].
      destruct (Str.eqb_char "|" c) eqn:Hpipe; [|done].
      apply eqb_char_eq in Hpipe as <-. specialize (Hsep eq_refl Hc).
      destruct rest as [|h rest]; [done|]. cbn [head_is] in Hsep.
      cbn [Str.startsWith andb]. unfold Str.eqb_char in *.
      rewrite Ascii.eqb_sym, Hsep. done.
    + rewrite Htwo. unfold Str.of_char. rewrite !append_cons, !append_nil_l.
      cbn [Str.replaceAll_from Str.startsWith].
      apply eqb_char_neq in Hzy, Hzp. unfold Str.eqb_char in *.
      rewrite Ascii.eqb_refl, (Ascii.eqb_sym y z), Hzy. cbn [andb].
      rewrite (Ascii.eqb_sym "|" z), Hzp. done.
Qed.

Lemma T_head c : ∃ h t, T c = String h t.
Proof.
  destruct (decide (c = x)) as [->|Hc]; [rewrite T_x; eauto|].
  destruct (T_other c Hc) as [_ [->|(z & -> & _)]]; unfold Str.of_char; eauto.
Qed.

Lemma pass s :
  separate x y T s = true →
  Str.replaceAll (String "|" (Str.of_char y)) (Str.of_char x) (flat_map T s)
  = flat_map T' s.
Proof.
  unfold Str.replaceAll. induction s as [|c s IH]; [done|].
  cbn [separate flat_map]. intros [Hc Hs]%andb_true_iff.
  rewrite pass_step, IH; [done|done|].
  intros -> Hx. destruct s as [|b s]; [done|].
  cbn [flat_map]. destruct (T_head b) as (h & t & Hb). rewrite Hb in Hc |- *.
  rewrite append_cons. cbn [head_is] in *.
  apply eqb_char_neq in Hx. unfold Str.eqb_char in *.
  rewrite Ascii.eqb_refl, Hx in Hc. cbn in Hc. by apply negb_true_iff in Hc.
Qed.

End Pass.

Section PairPass.

(** A pass whose sequence, a pipe and the letter [y], may also be made of a
    pipe and a letter of the original text: the pass decodes the text in
    which each such pair has been replaced by [x]. *)
Variables x y : ascii.
Variables T T' : ascii → string.

Hypothesis T_x : T x = String "|" (Str.of_char y).
Hypothesis T'_x : T' x = Str.of_char x.
Hypothesis T_other :
  ∀ c, c ≠ x →
       T' c = T c
       ∧ (T c = Str.of_char c
          ∨ ∃ z, T c = String "|" (Str.of_char z) ∧ z ≠ y ∧ z ≠ "|"%char).
Hypothesis T_pipe : T "|"%char = "|".
Hypothesis T_y : T y = Str.of_char y.
Hypothesis head_y : ∀ b, head_is y (T b) = true → b = y.

Lemma pair_pass_bounded (n : nat) :
  ∀ s, (String.length s ≤ n)%nat →
       Str.replaceAll_from (String "|" (Str.of_char y)) (Str.of_char x) 0 (flat_map T s)
       = flat_map T'
           (Str.replaceAll_from (String "|" (Str.of_char y)) (Str.of_char x) 0 s).
Proof.
  induction n as [|n IH]; intros s Hn.
  { destruct s; [done|]. cbn in Hn. lia. }
  destruct s as [|c s]; [done|].
  cbn [String.length] in Hn.
  cbn [Str.replaceAll_from].
  destruct (Str.startsWith (String "|" (Str.of_char y)) (String c s)) eqn:Hstart.
  - (* a pipe and the letter, both of the text *)
    cbn [Str.startsWith Str.of_char] in Hstart.
    apply andb_true_iff in Hstart as [Hc Hb].
    destruct s as [|b s]; [done|].
    cbn [Str.startsWith] in Hb. rewrite andb_true_r in Hb.
    apply eqb_char_eq in Hc as <-. apply eqb_char_eq in Hb as <-.
    cbn [flat_map]. rewrite T_pipe, T_y. unfold Str.of_char.
    rewrite !append_cons, !append_nil_l.
    cbn [Str.replaceAll_from Str.startsWith String.length Nat.sub].
    unfold Str.eqb_char. rewrite !Ascii.eqb_refl. cbn [andb].
    rewrite !append_cons, !append_nil_l. cbn [flat_map].
    rewrite T'_x. unfold Str.of_char. rewrite append_cons, append_nil_l.
    rewrite IH; [done|]. cbn [String.length] in Hn. lia.
  - cbn [flat_map]. rewrite (pass_step x y T T' T_x T'_x T_other).
    + rewrite IH by lia. done.
    + intros -> Hx. destruct s as [|b s]; [done|].
      cbn [flat_map]. destruct (T_head x y T T' T_x T_other b) as (h & t & Hb).
      rewrite Hb, append_cons. cbn [head_is].
      destruct (Str.eqb_char h y) eqn:Hh; [|done].
      assert (b = y) as -> by (apply head_y; by rewrite Hb).
      cbn [Str.startsWith Str.of_char] in Hstart.
      unfold Str.eqb_char in Hstart. rewrite !Ascii.eqb_refl in Hstart. done.
Qed.

Lemma pair_pass s :
  Str.replaceAll (String "|" (Str.of_char y)) (Str.of_char x) (flat_map T s)
  = flat_map T' (Str.replaceAll (String "|" (Str.of_char y)) (Str.of_char x) s).
Proof. unfold Str.replaceAll. by apply (pair_pass_bounded (String.length s)). Qed.

End PairPass.

Ltac by_cases c :=
  destruct c as [[] [] [] [] [] [] [] []].

(** The passes for the pipe, the quote and the brackets: their sequences
    occur in the escaped text only as tokens. *)
Lemma pass_k (k : nat) (x y : ascii) s :
  k ≠ 2%nat → k ≠ 3%nat →
  reserved !! k = Some (x, y) →
  Str.replaceAll (String "|" (Str.of_char y)) (Str.of_char x) (flat_map (token k) s)
  = flat_map (token (S k)) s.
Proof.
  intros H2 H3 Hk. apply pass.
  - do 6 (destruct k as [|k]; [injection Hk as <- <-; reflexivity|]). done.
  - do 6 (destruct k as [|k]; [injection Hk as <- <-; reflexivity|]). done.
  - intros c Hc.
    do 6 (destruct k as [|k];
          [injection Hk as <- <-; by_cases c;
           first [ by destruct Hc
                 | split; [reflexivity|];
                   first [ left; reflexivity
                         | right; eexists; split_and!;
                           [reflexivity|discriminate|discriminate] ] ]|]).
    done.
  - induction s as [|a s IH]; [done|].
    cbn [separate]. rewrite IH, andb_true_r.
    destruct (Str.eqb_char a "|") eqn:Hpipe; [|done].
    destruct s as [|b s]; [by rewrite andb_false_r|].
    apply eqb_char_eq in Hpipe as ->.
    do 6 (destruct k as [|k];
          [first [ done | injection Hk as <- <-; by_cases b; reflexivity ]|]).
    done.
Qed.

(** The passes for the line feed and the carriage return. *)
Lemma pair_pass_k (k : nat) (x y : ascii) s :
  k = 2%nat ∨ k = 3%nat →
  reserved !! k = Some (x, y) →
  Str.replaceAll (String "|" (Str.of_char y)) (Str.of_char x) (flat_map (token k) s)
  = flat_map (token (S k))
      (Str.replaceAll (String "|" (Str.of_char y)) (Str.of_char x) s).
Proof.
  intros Hk23 Hk. apply pair_pass.
  - destruct Hk23 as [-> | ->]; injection Hk as <- <-; reflexivity.
  - destruct Hk23 as [-> | ->]; injection Hk as <- <-; reflexivity.
  - intros c Hc.
    destruct Hk23 as [-> | ->]; injection Hk as <- <-; by_cases c;
      first [ by destruct Hc
            | split; [reflexivity|];
              first [ left; reflexivity
                    | right; eexists; split_and!;
                      [reflexivity|discriminate|discriminate] ] ].
  - by destruct Hk23 as [-> | ->].
  - destruct Hk23 as [-> | ->]; injection Hk as <- <-; reflexivity.
  - intros b.
    destruct Hk23 as [-> | ->]; injection Hk as <- <-; by_cases b;
      first [ reflexivity | discriminate ].
Qed.

(** What [unescape] makes of [escape s]: the text [s] in which a pipe
    followed by the letter [n] has become a line feed and a pipe followed by
    the letter [r] a carriage return. *)
Lemma unescape_escape_is s :
  unescape (escape s)
  = Str.replaceAll "|r" (Str.of_char Str.CR) (Str.replaceAll "|n" (Str.of_char Str.LF) s).
Proof.
  rewrite escape_tokens.
  unfold unescape, patterns_escape, values_escape, values_unescape.
  cbn [change_string].
  rewrite (pass_k 0 "|" "|") by done.
  rewrite (pass_k 1 "'" "'") by done.
  rewrite (pair_pass_k 2 Str.LF "n") by auto.
  rewrite (pair_pass_k 3 Str.CR "r") by auto.
  rewrite (pass_k 4 "]" "]") by done.
  rewrite (pass_k 5 "[" "[") by done.
  apply flat_map_of_char.
Qed.

Section Shorter.

(** Replacing a sequence of two characters by one character. *)
Variables a b c : ascii.

Let p : string := String a (String b EmptyString).
Let r : string := String c EmptyString.

Lemma replace_length s :
  (String.length (Str.replaceAll_from p r 0 s) ≤ String.length s)%nat
  ∧ (String.length (Str.replaceAll_from p r 1 s) ≤ String.length s)%nat.
Proof.
  induction s as [|h s [IH0 IH1]]; [done|].
  cbn [Str.replaceAll_from]. split; [|cbn [String.length]; lia].
  destruct (Str.startsWith p (String h s)); unfold p, r in *;
    cbn [String.length Nat.sub];
    rewrite ?append_cons, ?append_nil_l; cbn [String.length]; lia.
Qed.

Lemma replace_shorter s :
  Run.includes p s = true →
  (String.length (Str.replaceAll_from p r 0 s) < String.length s)%nat.
Proof.
  induction s as [|h s IH]; [done|].
  cbn [Run.includes Str.replaceAll_from].
  destruct (Str.startsWith p (String h s)) eqn:Hstart.
  - intros _. unfold p in Hstart. cbn [Str.startsWith] in Hstart.
    apply andb_true_iff in Hstart as [_ Hstart].
    destruct s as [|h' s]; [done|].
    pose proof (proj1 (replace_length s)) as Hle.
    unfold p, r in *. cbn [String.length Nat.sub Str.replaceAll_from].
    rewrite append_cons, append_nil_l. cbn [String.length]. lia.
  - cbn [orb]. intros Hin. cbn [String.length]. specialize (IH Hin). lia.
Qed.

Lemma replace_same s :
  Run.includes p s = false → Str.replaceAll_from p r 0 s = s.
Proof.
  induction s as [|h s IH]; [done|].
  cbn [Run.includes Str.replaceAll_from].
  intros [-> Hin]%orb_false_iff. by rewrite IH.
Qed.

End Shorter.

(** The round trip holds for the texts in which no pipe is followed by the
    letter [n] or [r], and for no other text. *)
Lemma unescape_escape_iff s :
  unescape (escape s) = s ↔ no_pipe_letter s = true.
Proof.
  rewrite unescape_escape_is. unfold no_pipe_letter, Str.replaceAll, Str.of_char.
  split.
  - intros Heq.
    destruct (Run.includes "|n" s) eqn:Hn.
    + apply (replace_shorter "|" "n" Str.LF) in Hn.
      pose proof (proj1 (replace_length "|" "r" Str.CR
                           (Str.replaceAll_from "|n" (String Str.LF "") 0 s))) as Hle.
      rewrite Heq in Hle. lia.
    + rewrite (replace_same "|" "n" Str.LF s Hn) in Heq.
      destruct (Run.includes "|r" s) eqn:Hr; [|done].
      apply (replace_shorter "|" "r" Str.CR) in Hr. rewrite Heq in Hr. lia.
  - intros [Hn Hr]%andb_true_iff.
    apply negb_true_iff in Hn, Hr.
    rewrite (replace_same "|" "n" Str.LF s Hn). by apply (replace_same "|" "r" Str.CR).
Qed.

End RoundTrip.

(** ** The escaped text *)

Module EscapeFacts.

Import Re Tokens StrFacts EscapeValue RoundTrip.

(** The token of a character: the character itself, unless it is one of the
    six reserved ones. *)
Lemma token_cases c :
  (c ≠ "|"%char ∧ token 0 c = Str.of_char c)
  ∨ (c = "|"%char ∧ token 0 c = "||")
  ∨ (c = "'"%char ∧ token 0 c = "|'")
  ∨ (c = Str.LF ∧ token 0 c = "|n")
  ∨ (c = Str.CR ∧ token 0 c = "|r")
  ∨ (c = "]"%char ∧ token 0 c = "|]")
  ∨ (c = "["%char ∧ token 0 c = "|[").
Proof.
  by_cases c;
    first [ left; split; [discriminate|reflexivity]
          | right; left; split; reflexivity
          | right; right; left; split; reflexivity
          | right; right; right; left; split; reflexivity
          | right; right; right; right; left; split; reflexivity
          | right; right; right; right; right; left; split; reflexivity
          | right; right; right; right; right; right; split; reflexivity ].
Qed.

Lemma token_inj c d r1 r2 :
  token 0 c +:+ r1 = token 0 d +:+ r2 → c = d ∧ r1 = r2.
Proof.
  destruct (token_cases c)
    as [[Hc ->]|[[-> ->]|[[-> ->]|[[-> ->]|[[-> ->]|[[-> ->]|[-> ->]]]]]]];
  destruct (token_cases d)
    as [[Hd ->]|[[-> ->]|[[-> ->]|[[-> ->]|[[-> ->]|[[-> ->]|[-> ->]]]]]]];
  unfold Str.of_char; rewrite ?append_cons, ?append_nil_l; intros H;
  first [ by injection H as -> ->
        | by injection H as ->
        | by injection H
        | done ].
Qed.

Lemma flat_map_token_inj s1 : ∀ s2,
  flat_map (token 0) s1 = flat_map (token 0) s2 → s1 = s2.
Proof.
  induction s1 as [|c s1 IH]; intros [|d s2]; cbn [flat_map]; [done| | |].
  - intros H. exfalso. by_cases d; discriminate H.
  - intros H. exfalso. by_cases c; discriminate H.
  - intros [-> H]%token_inj. by rewrite (IH _ H).
Qed.

Lemma all_append p (a b : string) : all p (a +:+ b) = all p a && all p b.
Proof.
  induction a as [|c a IH]; [done|].
  rewrite append_cons. cbn [all]. by rewrite IH, andb_assoc.
Qed.

Lemma length_append (a b : string) :
  String.length (a +:+ b) = (String.length a + String.length b)%nat.
Proof. induction a as [|c a IH]; [done|]. rewrite append_cons. cbn. by rewrite IH. Qed.

Lemma token_one_line c : all (λ c, negb (isLineTerminator c)) (token 0 c) = true.
Proof. by_cases c; reflexivity. Qed.

Lemma token_length c :
  (1 ≤ String.length (token 0 c) ≤ 2)%nat.
Proof. by_cases c; split; apply Nat.leb_le; reflexivity. Qed.

(** A pattern that occurs nowhere: the text is left as it is. *)
Lemma replaceAll_from_none pat rep s :
  Run.includes pat s = false → Str.replaceAll_from pat rep 0 s = s.
Proof.
  induction s as [|h s IH]; [done|].
  cbn [Run.includes Str.replaceAll_from].
  intros [-> Hin]%orb_false_iff. by rewrite IH.
Qed.

Lemma replaceAll_none pat rep s :
  Run.includes pat s = false → Str.replaceAll pat rep s = s.
Proof.
  intros H. unfold Str.replaceAll. destruct pat; [done|].
  by apply replaceAll_from_none.
Qed.

(** The head of the text in which the escaped quotes are put aside. *)
Lemma quote_head s :
  head_is "'" (Str.replaceAll_from "|'" SINGLE_QUOTE 0 s) = true → head_is "'" s = true.
Proof.
  destruct s as [|c s]; [done|]. cbn [Str.replaceAll_from].
  destruct (Str.startsWith "|'" (String c s)); [done|]. done.
Qed.

Lemma quote_aside s :
  Run.includes "|'" (Str.replaceAll_from "|'" SINGLE_QUOTE 0 s) = false
  ∧ Run.includes "|'" (Str.replaceAll_from "|'" SINGLE_QUOTE 1 s) = false.
Proof.
  induction s as [|c s [IH0 IH1]]; [done|].
  cbn [Str.replaceAll_from]. split; [|done].
  destruct (Str.startsWith "|'" (String c s)) eqn:Hstart.
  - cbn [String.length Nat.sub]. exact IH1.
  - cbn [Run.includes]. rewrite IH0, orb_false_r.
    cbn [Str.startsWith] in Hstart |- *.
    destruct (Str.eqb_char "|" c); [|done]. cbn [andb] in Hstart |- *.
    destruct (Str.replaceAll_from "|'" SINGLE_QUOTE 0 s) as [|h t] eqn:Hr; [done|].
    rewrite andb_true_r.
    destruct (Str.eqb_char "'" h) eqn:Hh; [|done].
    assert (head_is "'" s = true) as Hs.
    { apply quote_head. rewrite Hr. cbn [head_is].
      apply eqb_char_eq in Hh as <-. by apply eqb_char_eq. }
    destruct s as [|b s]; [done|]. cbn [head_is] in Hs.
    apply eqb_char_eq in Hs as ->. done.
Qed.

(** Putting the escaped quotes aside and the quotes back decodes the escaped
    quotes, in a text without the character of the placeholder. *)
Lemma quote_restored s :
  all (λ c, negb (isChar "%" c)) s = true →
  Str.replaceAll_from SINGLE_QUOTE "'" 0 (Str.replaceAll_from "|'" SINGLE_QUOTE 0 s)
  = Str.replaceAll_from "|'" "'" 0 s
  ∧ Str.replaceAll_from SINGLE_QUOTE "'" 0 (Str.replaceAll_from "|'" SINGLE_QUOTE 1 s)
    = Str.replaceAll_from "|'" "'" 1 s.
Proof.
  induction s as [|c s IH]; [done|].
  cbn [all]. intros [Hc Hs]%andb_true_iff. destruct (IH Hs) as [IH0 IH1].
  cbn [Str.replaceAll_from]. split; [|done].
  destruct (Str.startsWith "|'" (String c s)).
  - cbn [String.length Nat.sub]. rewrite <- IH1. reflexivity.
  - rewrite <- IH0. cbn [Str.replaceAll_from Str.startsWith SINGLE_QUOTE].
    apply negb_true_iff in Hc. unfold isChar in Hc. by rewrite Hc.
Qed.

End EscapeFacts.
(** ** The names of the summary record *)

Module SummaryNames.

Import Re TestResultSummaryParser StrFacts.

Lemma append_nil_r (s : string) : s +:+ "" = s.
Proof. induction s as [|c s IH]; [done|]. by rewrite append_cons, IH. Qed.

Lemma rev_onto_append (a b acc : string) :
  Str.rev_onto acc (a +:+ b) = Str.rev_onto (Str.rev_onto acc a) b.
Proof.
  revert acc. induction a as [|c a IH]; intros acc; [done|].
  rewrite append_cons. cbn [Str.rev_onto]. apply IH.
Qed.

Lemma endsWith_s_append (name : string) : endsWith_s (name +:+ "s") = true.
Proof. unfold endsWith_s, Str.rev. by rewrite rev_onto_append. Qed.

(** A normalized name is one of the three names kept as they are, or it
    ends with the letter [s]. *)
Lemma normalize_cases name :
  normalize name ∈ ["skipped"; "incomplete"; "risky"]
  ∨ endsWith_s (normalize name) = true.
Proof.
  unfold normalize.
  destruct (bool_decide _) eqn:Hin.
  - left. by apply bool_decide_eq_true in Hin.
  - right. destruct (endsWith_s (toLowerCase name)) eqn:Hs.
    + by rewrite append_nil_r.
    + apply endsWith_s_append.
Qed.

Lemma normalize_is_not name k :
  k ∉ ["skipped"; "incomplete"; "risky"] → endsWith_s k = false → normalize name ≠ k.
Proof.
  intros Hk Hs <-. destruct (normalize_cases name) as [H|H]; [done|congruence].
Qed.

Lemma parseInt_from_nonneg s : ∀ acc, (0 ≤ acc)%Z → (0 ≤ parseInt_from acc s)%Z.
Proof.
  induction s as [|c s IH]; intros acc Hacc; [done|].
  cbn [parseInt_from]. apply IH. unfold digit_value. lia.
Qed.

Lemma parseInt_nonneg s : (0 ≤ parseInt s)%Z.
Proof. by apply parseInt_from_nonneg. Qed.

(** The properties that no match can set keep their first value. *)
Lemma parse_fold_keep (l : list (string * string)) k :
  (∀ name, normalize name ≠ k) →
  ∀ init : record,
    foldl (fun (result : record) '(name, count) =>
             <[normalize name := VNumber (parseInt count)]> result) init l !! k
    = init !! k.
Proof.
  intros Hk. induction l as [|[n c] l IH]; intros init; cbn [foldl]; [done|].
  rewrite IH. by apply lookup_insert_ne.
Qed.

Lemma parse_fold_keep_if (l : list (string * string)) k :
  (∀ name count, (name, count) ∈ l → normalize name ≠ k) →
  ∀ init : record,
    foldl (fun (result : record) '(name, count) =>
             <[normalize name := VNumber (parseInt count)]> result) init l !! k
    = init !! k.
Proof.
  induction l as [|[n c] l IH]; intros Hk init; cbn [foldl]; [done|].
  rewrite IH.
  - apply lookup_insert_ne. apply (Hk n c). by left.
  - intros name count Hin. apply (Hk name count). by right.
Qed.

Lemma parse_keeps text k :
  k ∉ ["skipped"; "incomplete"; "risky"] → endsWith_s k = false →
  parse text !! k
  = (<["kind" := VString testResultSummary]> (<["text" := VString text]> ∅) : record) !! k.
Proof.
  intros Hk Hs. unfold parse. apply parse_fold_keep.
  intros name. by apply normalize_is_not.
Qed.

Ltac not_in_list :=
  let H := fresh in
  intros H; repeat (apply elem_of_cons in H as [H|H]; [discriminate H|]);
  by apply elem_of_nil in H.

Lemma parse_kind text : parse text !! "kind" = Some (VString testResultSummary).
Proof. rewrite parse_keeps; [done|not_in_list|done]. Qed.

Lemma parse_text text : parse text !! "text" = Some (VString text).
Proof. rewrite parse_keeps; [done|not_in_list|done]. Qed.


End SummaryNames.
(** ** One line of the details of a fault *)

Module DetailFacts.

Import Re Parser StrFacts.

Lemma rev_onto_rev (s acc : string) : Str.rev_onto acc s = Str.rev s +:+ acc.
Proof.
  revert acc. induction s as [|c s IH]; intros acc; [done|].
  unfold Str.rev. cbn [Str.rev_onto].
  by rewrite (IH (String c acc)), (IH (String c "")), append_assoc.
Qed.

Lemma rev_cons c (s : string) : Str.rev (String c s) = Str.rev s +:+ String c "".
Proof. unfold Str.rev at 1. cbn [Str.rev_onto]. apply rev_onto_rev. Qed.

Lemma rev_append (a b : string) : Str.rev (a +:+ b) = Str.rev b +:+ Str.rev a.
Proof.
  unfold Str.rev at 1. rewrite SummaryNames.rev_onto_append.
  by rewrite rev_onto_rev.
Qed.

Lemma rev_involutive (s : string) : Str.rev (Str.rev s) = s.
Proof.
  induction s as [|c s IH]; [done|].
  by rewrite rev_cons, rev_append, IH.
Qed.

Lemma all_rev p (s : string) : all p (Str.rev s) = all p s.
Proof.
  induction s as [|c s IH]; [done|].
  rewrite rev_cons, EscapeFacts.all_append, IH. cbn [all].
  by rewrite andb_true_r, andb_comm.
Qed.

(** [trim] leaves a text that neither starts nor ends with white space. *)
Lemma trimStart_id c (s : string) : isSpace c = false → trimStart (String c s) = String c s.
Proof. intros H. unfold trimStart. cbn [span]. by rewrite H. Qed.

Lemma trim_id c (s a : string) d :
  isSpace c = false → isSpace d = false →
  String c s = a +:+ String d "" →
  trim (String c s) = String c s.
Proof.
  intros Hc Hd Hs. unfold trim, trimEnd. rewrite (trimStart_id c s Hc).
  rewrite Hs, rev_append. cbn [Str.rev Str.rev_onto]. rewrite append_cons, append_nil_l.
  rewrite (trimStart_id d _ Hd).
  by rewrite rev_cons, rev_involutive.
Qed.

(** A text without line feed is one line. *)
Lemma split_lines_one_line (s : string) :
  all (λ c, negb (isChar Str.LF c)) s = true → split_lines s = (s, []).
Proof.
  induction s as [|c s IH]; [done|].
  cbn [all split_lines]. intros [Hc Hs]%andb_true_iff.
  apply negb_true_iff in Hc. rewrite Hc.
  destruct s as [|c' s]; [done|].
  assert (isChar Str.LF c' = false) as ->.
  { cbn [all] in Hs. apply andb_true_iff in Hs as [Hc' _]. by apply negb_true_iff. }
  rewrite andb_false_r. by rewrite (IH Hs).
Qed.

Lemma split_last_colon_none (s : string) :
  all (λ c, negb (isChar ":" c)) s = true → split_last_colon s = None.
Proof.
  induction s as [|c s IH]; [done|].
  cbn [all split_last_colon]. intros [Hc Hs]%andb_true_iff.
  rewrite (IH Hs). apply negb_true_iff in Hc. by rewrite Hc.
Qed.

Lemma split_last_colon_append (path line : string) :
  split_last_colon line = None →
  split_last_colon (path +:+ String ":" line) = Some (path, line).
Proof.
  intros Hline. induction path as [|c path IH].
  - rewrite append_nil_l. cbn [split_last_colon]. by rewrite Hline.
  - rewrite append_cons. cbn [split_last_colon]. by rewrite IH.
Qed.

Lemma all_impl (p q : ascii → bool) (s : string) :
  (∀ c, p c = true → q c = true) → all p s = true → all q s = true.
Proof.
  intros Hpq. induction s as [|c s IH]; [done|].
  cbn [all]. intros [Hc Hs]%andb_true_iff. by rewrite (Hpq c Hc), IH.
Qed.

Lemma digit_is_no_colon c : isDigit c = true → negb (isChar ":" c) = true.
Proof.
  intros Hc. apply negb_true_iff. destruct (isChar ":" c) eqn:H; [|done].
  apply Ascii.eqb_eq in H as <-. done.
Qed.

Lemma digit_is_no_space c : isDigit c = true → isSpace c = false.
Proof. by destruct c as [[] [] [] [] [] [] [] []]. Qed.

Lemma snoc_cases (s : string) : s ≠ "" → ∃ a d, s = a +:+ String d "".
Proof.
  induction s as [|c s IH]; [done|]. intros _.
  destruct s as [|c' s].
  - by exists "", c.
  - destruct IH as (a & d & ->); [done|]. by exists (String c a), d.
Qed.

Lemma after_last_terminator_one_line (s : string) :
  all (λ c, negb (isLineTerminator c)) s = true → after_last_terminator s = s.
Proof. intros H. destruct s as [|c s]; [done|]. cbn [after_last_terminator]. by rewrite H. Qed.

(** The pattern of a detail on a path, a colon and a line number. *)
Lemma filePattern_path_line (path line : string) :
  path ≠ "" →
  all (λ c, negb (isLineTerminator c)) path = true →
  line ≠ "" →
  all isDigit line = true →
  filePattern (path +:+ ":" +:+ line)
  = Some (match (span (isChar "s") path).2 with
          | EmptyString => "s"
          | file => file
          end, line).
Proof.
  intros Hpath Hone Hline Hdigits. unfold filePattern.
  change (path +:+ ":" +:+ line) with (path +:+ String ":" line).
  rewrite split_last_colon_append
    by (apply split_last_colon_none; eapply all_impl; [apply digit_is_no_colon|done]).
  cbn [mbind option_bind]. rewrite Hdigits.
  apply String.eqb_neq in Hline as ->. cbn [negb andb].
  rewrite (after_last_terminator_one_line path Hone).
  destruct path as [|c path]; [done|].
  by destruct (span (isChar "s") (String c path)) as [a [|h t]].
Qed.

End DetailFacts.
(** ** The pieces of the location hint *)

Module HintPieces.

Import Re Parser Tokens StrFacts.

Lemma join_cons_head sep c p ps :
  join sep (String c p :: ps) = String c (join sep (p :: ps)).
Proof. by destruct ps. Qed.

Lemma join_nil_head sep p ps : join sep ("" :: p :: ps) = sep +:+ join sep (p :: ps).
Proof. reflexivity. Qed.

Lemma drop_nil n : Str.drop n "" = "".
Proof. by destruct n. Qed.

(** Joining the pieces gives the text back. *)
Lemma split_from_join a sep s : ∀ skip,
  join (String a sep) ((split_from (String a sep) skip s).1
                       :: (split_from (String a sep) skip s).2)
  = Str.drop skip s.
Proof.
  induction s as [|c s IH]; intros skip; [by rewrite drop_nil|].
  cbn [split_from]. destruct skip as [|skip]; [|apply IH].
  destruct (Str.startsWith (String a sep) (String c s)) eqn:Hstart.
  - specialize (IH (String.length (String a sep) - 1)%nat).
    destruct (split_from _ _ s) as [p ps]. cbn [fst snd] in IH |- *.
    rewrite join_nil_head, IH.
    apply startsWith_append in Hstart. cbn [Str.drop].
    etrans; [|symmetry; exact Hstart].
    cbn [String.length Str.drop Nat.sub]. by rewrite Nat.sub_0_r.
  - specialize (IH 0%nat).
    destruct (split_from _ _ s) as [p ps]. cbn [fst snd] in IH |- *.
    by rewrite join_cons_head, IH.
Qed.

Lemma split_join a sep s :
  join (String a sep) ((split (String a sep) s).1 :: (split (String a sep) s).2) = s.
Proof. apply (split_from_join a sep s 0). Qed.

(** Without the separator there is one piece, the text. *)
Lemma split_none sep s :
  Run.includes sep s = false → split sep s = (s, []).
Proof.
  unfold split. induction s as [|c s IH]; [done|].
  cbn [Run.includes split_from]. intros [-> Hs]%orb_false_iff.
  by rewrite (IH Hs).
Qed.

Lemma split_some a sep s :
  Run.includes (String a sep) s = true → (split (String a sep) s).2 ≠ [].
Proof.
  unfold split. induction s as [|c s IH]; [done|].
  cbn [Run.includes split_from].
  destruct (Str.startsWith (String a sep) (String c s)).
  - intros _. clear IH. by destruct (split_from _ _ s).
  - cbn [orb]. intros Hs%IH. by destruct (split_from _ 0 s).
Qed.

(** The first piece stops before the first separator. *)
Lemma first_piece_head s :
  head_is ":" (split "::" s).1 = true → head_is ":" s = true.
Proof.
  unfold split. destruct s as [|c s]; [done|]. cbn [split_from].
  destruct (Str.startsWith "::" (String c s)).
  - by destruct (split_from "::" _ s).
  - by destruct (split_from "::" 0 s).
Qed.

Lemma first_piece_whole s :
  Run.includes "::" (split "::" s).1 = false.
Proof.
  induction s as [|c s IH]; [done|].
  pose proof (first_piece_head s) as Hhead. revert IH Hhead.
  unfold split. cbn [split_from].
  destruct (Str.startsWith "::" (String c s)) eqn:Hstart.
  - intros _ _. by destruct (split_from "::" _ s).
  - destruct (split_from "::" 0 s) as [p ps]. cbn [fst].
    intros IH Hhead. cbn [Run.includes]. rewrite IH, orb_false_r.
    cbn [Str.startsWith] in Hstart |- *.
    destruct (Str.eqb_char ":" c); [|done]. cbn [andb] in Hstart |- *.
    destruct p as [|h p]; [done|]. rewrite andb_true_r.
    destruct (Str.eqb_char ":" h) eqn:Hh; [|done].
    assert (head_is ":" s = true) as Hs.
    { apply Hhead. cbn [head_is].
      apply Ascii.eqb_eq in Hh as <-. by apply Ascii.eqb_eq. }
    destruct s as [|b s]; [done|]. cbn [head_is] in Hs.
    apply Ascii.eqb_eq in Hs as ->. done.
Qed.

(** [strip_dataset] cuts the id where the pattern of the data set first
    matches. *)
Lemma strip_dataset_cut id :
  ∃ rest, id = strip_dataset id +:+ rest ∧ (rest = "" ∨ dataset_at rest = true).
Proof.
  induction id as [|c id (rest & IH & Hrest)].
  - exists "". split; [|by left]. by destruct (dataset_at "").
  - rewrite HintFacts.strip_dataset_eq.
    destruct (dataset_at (String c id)) eqn:Hat.
    + exists (String c id). split; [done|by right].
    + exists rest. split; [|done]. by rewrite append_cons, <- IH.
Qed.

(** A text is cut at its first separator: what stands before it is the
    first piece, what stands after it is the other pieces joined. *)
Lemma split_at_first file rest :
  Run.includes "::" (file +:+ ":") = false →
  ∃ pieces, split "::" (file +:+ "::" +:+ rest) = (file, pieces)
            ∧ join "::" pieces = rest.
Proof.
  unfold split. induction file as [|c file IH]; intros Hfile.
  - change ("" +:+ "::" +:+ rest) with (String ":" (String ":" rest)).
    cbn [split_from Str.startsWith String.length Nat.sub].
    rewrite (eq_refl : Str.eqb_char ":" ":" = true). cbn [andb].
    pose proof (split_from_join ":" ":" rest 0) as Hjoin.
    destruct (split_from "::" 0 rest) as [p ps]. cbn [fst snd Str.drop] in Hjoin.
    by exists (p :: ps).
  - rewrite !append_cons in Hfile |- *. cbn [Run.includes] in Hfile.
    apply orb_false_iff in Hfile as [Hstart Hfile].
    destruct (IH Hfile) as (pieces & Hsplit & Hjoin).
    cbn [split_from]. rewrite Hsplit.
    assert (Str.startsWith "::" (String c (file +:+ "::" +:+ rest)) = false) as ->.
    { cbn [Str.startsWith] in Hstart |- *.
      destruct (Str.eqb_char ":" c); [|done]. cbn [andb] in Hstart |- *.
      destruct file as [|d file]; [done|].
      rewrite !append_cons in Hstart |- *. by rewrite andb_true_r in Hstart |- *. }
    by exists pieces.
Qed.

(** The record of a location hint that holds a separator, and of one that
    holds none. *)
Lemma parseLocationHint_cut (argv : record) hint file id :
  argv !! "locationHint" = Some (VString hint) → hint ≠ "" →
  Str.replaceAll colons_backslash "::" (strip_scheme hint) = file +:+ "::" +:+ id →
  Run.includes "::" (file +:+ ":") = false →
  parseLocationHint argv
  = Return (<["id" := VString id]>
              (<["file" := VString file]>
                 (<["testId" := VString (strip_dataset id)]> ∅))).
Proof.
  intros Hh Hne Htext Hfile. unfold parseLocationHint.
  rewrite !(Correlator.get_lookup _ _ _ Hh). cbn [truthy].
  apply String.eqb_neq in Hne as ->. cbn [negb]. rewrite Htext.
  destruct (split_at_first file id Hfile) as (pieces & -> & ->). done.
Qed.

Lemma parseLocationHint_whole (argv : record) hint :
  argv !! "locationHint" = Some (VString hint) → hint ≠ "" →
  Run.includes "::" (Str.replaceAll colons_backslash "::" (strip_scheme hint)) = false →
  parseLocationHint argv
  = Return (<["id" := VString ""]>
              (<["file" := VString (Str.replaceAll colons_backslash "::"
                                      (strip_scheme hint))]>
                 (<["testId" := VString ""]> ∅))).
Proof.
  intros Hh Hne Htext. unfold parseLocationHint.
  rewrite !(Correlator.get_lookup _ _ _ Hh). cbn [truthy].
  apply String.eqb_neq in Hne as ->. cbn [negb].
  by rewrite (split_none _ _ Htext).
Qed.

(** A text that holds the separator, cut at the first one. *)
Lemma includes_first s :
  Run.includes "::" s = true →
  ∃ file rest, s = file +:+ "::" +:+ rest ∧ Run.includes "::" (file +:+ ":") = false.
Proof.
  induction s as [|c s IH]; [done|]. cbn [Run.includes].
  destruct (Str.startsWith "::" (String c s)) eqn:Hstart.
  - intros _. apply startsWith_append in Hstart.
    exists "", (Str.drop (String.length "::") (String c s)). by split.
  - cbn [orb]. intros (file & rest & -> & Hfile)%IH.
    exists (String c file), rest. split; [by rewrite append_cons|].
    rewrite append_cons. cbn [Run.includes]. rewrite Hfile, orb_false_r.
    cbn [Str.startsWith] in Hstart |- *.
    destruct (Str.eqb_char ":" c); [|done]. cbn [andb] in Hstart |- *.
    destruct file as [|d file]; [done|].
    rewrite !append_cons in Hstart |- *. by rewrite andb_true_r in Hstart |- *.
Qed.

Lemma parseLocationHint_first (argv : record) hint :
  argv !! "locationHint" = Some (VString hint) → hint ≠ "" →
  ∃ file id,
    parseLocationHint argv
    = Return (<["id" := VString id]>
                (<["file" := VString file]>
                   (<["testId" := VString (strip_dataset id)]> ∅)))
    ∧ (let text := Str.replaceAll colons_backslash "::" (strip_scheme hint) in
       if Run.includes "::" text
       then text = file +:+ "::" +:+ id ∧ Run.includes "::" (file +:+ ":") = false
       else file = text ∧ id = "").
Proof.
  intros Hh Hne. cbn zeta.
  destruct (Run.includes "::" _) eqn:Htext.
  - destruct (includes_first _ Htext) as (file & id & Hcut & Hfile).
    exists file, id. split; [|done]. by apply (parseLocationHint_cut argv hint).
  - eexists _, "". split; [|done]. by apply parseLocationHint_whole.
Qed.

Lemma hint_not_empty hint file rest :
  Str.replaceAll colons_backslash "::" (strip_scheme hint) = file +:+ "::" +:+ rest →
  hint ≠ "".
Proof. intros Htext ->. by destruct file. Qed.

End HintPieces.
(** ** The lines that are no service message *)

Module PlainLines.

Import Re ProblemMatcher Lines.







End PlainLines.
(** ** The recognizers on a line they are made for *)

Module RecognizerFacts.

Import Re StrFacts.

Lemma lit_i_append name : ∀ label rest,
  toLowerCase label = toLowerCase name → lit_i name (label +:+ rest) = Some rest.
Proof.
  induction name as [|a name IH]; intros [|b label] rest H; try done.
  cbn [toLowerCase] in H. injection H as Hab Hl.
  rewrite append_cons. cbn [lit_i]. rewrite Hab.
  unfold Str.eqb_char. rewrite Ascii.eqb_refl. by apply IH.
Qed.

Lemma span_all p (a b : string) :
  all p a = true → one p b = None → span p (a +:+ b) = (a, b).
Proof.
  intros Ha Hb. induction a as [|c a IH].
  - rewrite append_nil_l. destruct b as [|c b]; [done|].
    cbn [one] in Hb. cbn [span]. by destruct (p c).
  - cbn [all] in Ha. apply andb_true_iff in Ha as [Hc Ha].
    rewrite append_cons. cbn [span]. by rewrite Hc, (IH Ha).
Qed.

Lemma many1_all p (a b : string) :
  a ≠ "" → all p a = true → one p b = None → many1 p (a +:+ b) = Some (a, b).
Proof.
  intros Hne Ha Hb. unfold many1. rewrite (span_all p a b Ha Hb). by destruct a.
Qed.

Lemma startsWith_self l rest : Str.startsWith l (l +:+ rest) = true.
Proof.
  induction l as [|c l IH]; [done|].
  rewrite append_cons. cbn [Str.startsWith]. unfold Str.eqb_char.
  by rewrite Ascii.eqb_refl, IH.
Qed.

Lemma drop_self (l rest : string) : Str.drop (String.length l) (l +:+ rest) = rest.
Proof. induction l as [|c l IH]; [done|]. by rewrite append_cons. Qed.

Lemma lit_self l rest : lit l (l +:+ rest) = Some rest.
Proof. unfold lit. by rewrite startsWith_self, drop_self. Qed.

Lemma one_true p c (s : string) : p c = true → one p (String c s) = Some s.
Proof. intros H. cbn [one]. by rewrite H. Qed.

Lemma one_false p c (s : string) : p c = false → one p (String c s) = None.
Proof. intros H. cbn [one]. by rewrite H. Qed.

(** The group of a labelled line: the text after the white space. *)
Lemma group_value name label space c value :
  toLowerCase label = toLowerCase name →
  space ≠ "" →
  all isSpace space = true →
  isSpace c = false →
  all (λ c, negb (isLineTerminator c)) (String c value) = true →
  ValueParser.group name (label +:+ ":" +:+ space +:+ String c value)
  = Some (String c value).
Proof.
  intros Hlabel Hne Hspace Hc Hvalue. unfold ValueParser.group.
  rewrite (lit_i_append name label _ Hlabel). cbn [mbind option_bind].
  rewrite lit_self. cbn [mbind option_bind].
  rewrite (many1_all isSpace space (String c value) Hne Hspace (one_false _ _ _ Hc)).
  cbn [mbind option_bind].
  rewrite <- (SummaryNames.append_nil_r (String c value)) at 1.
  by rewrite (span_all _ (String c value) "" Hvalue eq_refl).
Qed.

(** A word that is not [ParaTest] in any case. *)
Lemma phpunit_is_not_paratest label rest :
  toLowerCase label = "phpunit" → lit_i "ParaTest" (label +:+ rest) = None.
Proof.
  intros H.
  destruct label as [|c1 [|c2 label]]; try done.
  cbn [toLowerCase] in H. injection H as H1 H2 _.
  rewrite !append_cons. cbn [lit_i]. rewrite H1, H2. done.
Qed.

(** The groups of a line that starts with [PHPUnit] and a version. *)
Lemma groups_phpunit label space version rest :
  toLowerCase label = "phpunit" →
  isSpace space = true →
  version ≠ "" →
  all TestVersionParser.isVersionChar version = true →
  one TestVersionParser.isVersionChar rest = None →
  TestVersionParser.groups (label +:+ String space (version +:+ rest))
  = Some (VUndefined, version).
Proof.
  intros Hlabel Hspace Hne Hversion Hrest.
  unfold TestVersionParser.groups, TestVersionParser.with_paratest.
  rewrite (phpunit_is_not_paratest label _ Hlabel). cbn [mbind option_bind].
  unfold TestVersionParser.phpunit_at.
  rewrite (lit_i_append "PHPUnit" label _ Hlabel). cbn [mbind option_bind].
  rewrite (one_true _ _ _ Hspace). cbn [mbind option_bind].
  by rewrite (many1_all _ version rest Hne Hversion Hrest).
Qed.

(** The groups of a line that starts with the time and the memory; the time
    is a number, with or without a unit after one white space. *)
Lemma match_at_time s1 time tail s2 s3 size s4 unit rest :
  isSpace s1 = true → isSpace s2 = true → isSpace s3 = true → isSpace s4 = true →
  time ≠ "" → all TimeAndMemoryParser.isTimeChar time = true →
  tail = ""
  ∨ (∃ s0 word, tail = String s0 word ∧ isSpace s0 = true
                ∧ word ≠ "" ∧ all isWord word = true) →
  size ≠ "" → all TestVersionParser.isVersionChar size = true →
  unit ≠ "" → all isWord unit = true →
  one isWord rest = None →
  TimeAndMemoryParser.match_at
    ("Time:" +:+ String s1 (time +:+ tail +:+ "," +:+ String s2 ("Memory:" +:+
       String s3 (size +:+ String s4 (unit +:+ rest)))))
  = Some (time +:+ tail, size +:+ String s4 unit).
Proof.
  intros H1 H2 H3 H4 Htime Htimes Htail Hsize Hsizes Hunit Hunits Hrest.
  unfold TimeAndMemoryParser.match_at.
  rewrite lit_self. cbn [mbind option_bind].
  rewrite (one_true _ _ _ H1). cbn [mbind option_bind].
  destruct Htail as [->|(s0 & word & -> & H0 & Hword & Hwords)].
  - rewrite append_nil_l, SummaryNames.append_nil_r.
    rewrite (many1_all _ time _ Htime Htimes) by done. cbn [mbind option_bind].
    change ("," +:+ String s2 ?x) with (String "," (String s2 x)).
    cbn beta iota. rewrite (eq_refl : isSpace "," = false). cbn [mbind option_bind].
    change (lit "," (String "," ?x)) with (Some x). cbn [mbind option_bind].
    rewrite (one_true _ _ _ H2). cbn [mbind option_bind].
    rewrite lit_self. cbn [mbind option_bind].
    rewrite (one_true _ _ _ H3). cbn [mbind option_bind].
    rewrite (many1_all _ size _ Hsize Hsizes)
      by (apply one_false; by destruct s4 as [[] [] [] [] [] [] [] []]).
    cbn [mbind option_bind]. rewrite H4.
    by rewrite (many1_all _ unit rest Hunit Hunits Hrest).
  - rewrite (append_cons s0 word).
    rewrite (many1_all _ time _ Htime Htimes)
      by (apply one_false; by destruct s0 as [[] [] [] [] [] [] [] []]).
    cbn [mbind option_bind]. rewrite H0.
    rewrite (many1_all _ word _ Hword Hwords) by done. cbn [mbind option_bind].
    change ("," +:+ String s2 ?x) with (String "," (String s2 x)).
    change (lit "," (String "," ?x)) with (Some x). cbn [mbind option_bind].
    rewrite (one_true _ _ _ H2). cbn [mbind option_bind].
    rewrite lit_self. cbn [mbind option_bind].
    rewrite (one_true _ _ _ H3). cbn [mbind option_bind].
    rewrite (many1_all _ size _ Hsize Hsizes)
      by (apply one_false; by destruct s4 as [[] [] [] [] [] [] [] []]).
    cbn [mbind option_bind]. rewrite H4.
    by rewrite (many1_all _ unit rest Hunit Hunits Hrest).
Qed.

(** No place without the letter [p] starts the version of PHPUnit. *)
Lemma phpunit_at_no_p (s : string) :
  one (λ c, isChar "p" (lower c)) s = None → TestVersionParser.phpunit_at s = None.
Proof.
  destruct s as [|c s]; [done|]. cbn [one].
  destruct (isChar "p" (lower c)) eqn:Hc; [done|]. intros _.
  unfold TestVersionParser.phpunit_at. cbn [lit_i].
  change (lower "P") with "p"%char. unfold isChar in Hc. by rewrite Hc.
Qed.

Lemma all_one_none p (s : string) :
  all (λ c, negb (p c)) s = true → one p s = None.
Proof.
  destruct s as [|c s]; [done|]. cbn [all one].
  intros [Hc _]%andb_true_iff. apply negb_true_iff in Hc. by rewrite Hc.
Qed.

Lemma after_some_no_p (s : string) :
  all (λ c, negb (isChar "p" (lower c))) s = true →
  TestVersionParser.after_some s = None.
Proof.
  induction s as [|c s IH]; [done|]. cbn [all].
  intros [_ Hs]%andb_true_iff. cbn [TestVersionParser.after_some].
  destruct (isLineTerminator c); [done|].
  rewrite (IH Hs). apply phpunit_at_no_p. by apply all_one_none.
Qed.

Lemma lower_no_terminator c x :
  lower c = x → isLineTerminator x = false → isLineTerminator c = false.
Proof. intros <-. by destruct c as [[] [] [] [] [] [] [] []]. Qed.

Lemma space_no_p c : isSpace c = true → negb (isChar "p" (lower c)) = true.
Proof. by destruct c as [[] [] [] [] [] [] [] []]. Qed.

Lemma version_no_p c :
  TestVersionParser.isVersionChar c = true → negb (isChar "p" (lower c)) = true.
Proof. by destruct c as [[] [] [] [] [] [] [] []]. Qed.

(** Within the words [PHPUnit], a white space, a version and a text without
    the letter [p], the pattern of the version of PHPUnit matches at the
    start only. *)
Lemma after_some_phpunit label space version rest :
  toLowerCase label = "phpunit" →
  isSpace space = true →
  all TestVersionParser.isVersionChar version = true →
  all (λ c, negb (isChar "p" (lower c))) rest = true →
  TestVersionParser.after_some (label +:+ String space (version +:+ rest)) = None.
Proof.
  intros Hlabel Hspace Hversion Hrest.
  destruct label as [|c1 [|c2 [|c3 [|c4 [|c5 [|c6 [|c7 [|]]]]]]]]; try done.
  cbn [toLowerCase] in Hlabel. injection Hlabel as H1 H2 H3 H4 H5 H6 H7.
  rewrite !append_cons, append_nil_l.
  assert (all (λ c, negb (isChar "p" (lower c)))
            (String c4 (String c5 (String c6 (String c7
               (String space (version +:+ rest)))))) = true) as Htail.
  { cbn [all]. rewrite H4, H5, H6, H7, (space_no_p space Hspace).
    rewrite EscapeFacts.all_append, Hrest, andb_true_r.
    cbn [andb]. eapply DetailFacts.all_impl; [apply version_no_p|done]. }
  pose proof (after_some_no_p _ Htail) as Hnone.
  pose proof (phpunit_at_no_p _ (all_one_none _ _ Htail)) as Hat.
  cbn [TestVersionParser.after_some] in Hnone |- *.
  rewrite (lower_no_terminator c1 _ H1), (lower_no_terminator c2 _ H2),
    (lower_no_terminator c3 _ H3) by done.
  rewrite Hnone, Hat.
  unfold TestVersionParser.phpunit_at. cbn [lit_i]. rewrite H2, H3, H4. done.
Qed.

Lemma after_some_between (mid x : string) version :
  mid ≠ "" →
  all (λ c, negb (isLineTerminator c)) mid = true →
  TestVersionParser.after_some x = None →
  TestVersionParser.phpunit_at x = Some version →
  TestVersionParser.after_some (mid +:+ x) = Some version.
Proof.
  intros Hne Hmid Hnone Hat. induction mid as [|c mid IH]; [done|].
  cbn [all] in Hmid. apply andb_true_iff in Hmid as [Hc Hmid].
  apply negb_true_iff in Hc.
  rewrite append_cons. cbn [TestVersionParser.after_some]. rewrite Hc.
  destruct mid as [|c' mid].
  - by rewrite append_nil_l, Hnone.
  - by rewrite IH.
Qed.

(** The groups of a line of ParaTest. *)
Lemma groups_paratest label1 space1 v paratest m mid label2 space2 version rest :
  toLowerCase label1 = "paratest" →
  isSpace space1 = true →
  v = "" ∨ toLowerCase v = "v" →
  paratest ≠ "" →
  all TestVersionParser.isVersionChar paratest = true →
  TestVersionParser.isVersionChar m = false →
  all (λ c, negb (isLineTerminator c)) (String m mid) = true →
  toLowerCase label2 = "phpunit" →
  isSpace space2 = true →
  version ≠ "" →
  all TestVersionParser.isVersionChar version = true →
  one TestVersionParser.isVersionChar rest = None →
  all (λ c, negb (isChar "p" (lower c))) rest = true →
  TestVersionParser.groups
    (label1 +:+ String space1 (v +:+ paratest +:+ String m mid
       +:+ label2 +:+ String space2 (version +:+ rest)))
  = Some (VString paratest, version).
Proof.
  intros Hl1 Hs1 Hv Hp Hps Hm Hmid Hl2 Hs2 Hver Hvers Hrest Hnop.
  unfold TestVersionParser.groups, TestVersionParser.with_paratest.
  rewrite (lit_i_append "ParaTest" label1 _ Hl1). cbn [mbind option_bind].
  rewrite (one_true _ _ _ Hs1). cbn [mbind option_bind].
  assert (opt (λ c, isChar "v" (lower c))
            (v +:+ paratest +:+ String m mid
             +:+ label2 +:+ String space2 (version +:+ rest))
          = paratest +:+ String m mid
            +:+ label2 +:+ String space2 (version +:+ rest)) as ->.
  { destruct Hv as [->|Hv].
    - rewrite append_nil_l. destruct paratest as [|c paratest]; [done|].
      cbn [all] in Hps. apply andb_true_iff in Hps as [Hc _].
      rewrite append_cons. unfold opt. cbn [one].
      by destruct c as [[] [] [] [] [] [] [] []].
    - destruct v as [|c [|]]; try done. cbn [toLowerCase] in Hv.
      injection Hv as Hv. rewrite append_cons, append_nil_l.
      unfold opt. cbn [one]. by rewrite Hv. }
  rewrite (many1_all _ paratest _ Hp Hps) by (by apply one_false).
  cbn [mbind option_bind].
  change (String m mid +:+ ?x) with ((String m mid) +:+ x).
  rewrite (after_some_between (String m mid) _ version); [done|done|done| |].
  - by apply after_some_phpunit.
  - pose proof (groups_phpunit label2 space2 version rest Hl2 Hs2 Hver Hvers Hrest) as Hg.
    unfold TestVersionParser.groups, TestVersionParser.with_paratest in Hg.
    rewrite (phpunit_is_not_paratest label2 _ Hl2) in Hg. cbn [mbind option_bind] in Hg.
    by destruct (TestVersionParser.phpunit_at _) as [x|]; [injection Hg as ->|].
Qed.

(** Where the pattern of a service message matches. *)
Lemma pattern_prefix space hashes rest :
  all isSpace space = true →
  hashes ≠ "" →
  all (isChar "#") hashes = true →
  Parser.pattern (space +:+ hashes +:+ "teamcity" +:+ rest) = Some rest.
Proof.
  intros Hspace Hne Hhashes. unfold Parser.pattern.
  destruct hashes as [|h hashes]; [done|].
  assert (isSpace h = false) as Hh.
  { cbn [all] in Hhashes. apply andb_true_iff in Hhashes as [Hh _].
    apply Ascii.eqb_eq in Hh as <-. done. }
  rewrite (span_all isSpace space (String h hashes +:+ "teamcity" +:+ rest) Hspace)
    by (rewrite append_cons; by apply one_false).
  cbn [snd].
  rewrite (many1_all _ (String h hashes) _ Hne Hhashes) by done.
  apply lit_self.
Qed.

Lemma span_all_fst p (s : string) : all p (span p s).1 = true.
Proof.
  induction s as [|c s IH]; [done|]. cbn [span].
  destruct (p c) eqn:Hc; [|done].
  destruct (span p s) as [a b]. cbn [fst all] in *. by rewrite Hc, IH.
Qed.

Lemma pattern_text text rest :
  Parser.pattern text = Some rest →
  ∃ space hashes,
    text = space +:+ hashes +:+ "teamcity" +:+ rest
    ∧ all isSpace space = true
    ∧ hashes ≠ ""
    ∧ all (isChar "#") hashes = true.
Proof.
  unfold Parser.pattern. intros H.
  pose proof (span_all_fst isSpace text) as Hspace.
  destruct (span isSpace text) as [space s1] eqn:Hs. cbn [fst snd] in *.
  apply span_append in Hs as ->.
  unfold many1 in H.
  pose proof (span_all_fst (isChar "#") s1) as Hhashes.
  destruct (span (isChar "#") s1) as [hashes s2] eqn:Hs. cbn [fst] in *.
  apply span_append in Hs as ->.
  destruct hashes as [|h hashes]; [done|].
  apply lit_append in H as ->.
  by exists space, (String h hashes).
Qed.

End RecognizerFacts.
(** ** The faults of one test, gathered *)

Module Gather.

Import ProblemMatcher Run Correlator StrFacts.

Lemma lifecycle_lifecycle_of event name flowId :
  lifecycle_of event name flowId (lifecycle event name flowId).
Proof. by split_and!. Qed.

Lemma fault_lifecycle_of event name flowId message details :
  lifecycle_of event name flowId (fault event name flowId message details).
Proof. by split_and!. Qed.

Lemma finished_lifecycle_of name flowId duration :
  lifecycle_of testFinished name flowId (finished name flowId duration).
Proof. by split_and!. Qed.

Lemma join_append_head sep (a b : string) l :
  join sep ((a +:+ b) :: l) = a +:+ join sep (b :: l).
Proof. destruct l; [done|]. cbn [join]. by rewrite append_assoc. Qed.

Lemma join_snoc sep (a : string) l m :
  join sep ((a :: l) ++ [m]) = join sep (a :: l) +:+ sep +:+ m.
Proof.
  revert a. induction l as [|b l IH]; intros a; [done|].
  change (join sep ((a :: b :: l) ++ [m])) with (a +:+ sep +:+ join sep ((b :: l) ++ [m])).
  rewrite IH. change (join sep (a :: b :: l)) with (a +:+ sep +:+ join sep (b :: l)).
  by rewrite !append_assoc.
Qed.

Lemma gathered_message_snoc first later m :
  gathered_message first (later ++ [m])
  = if String.eqb m "" then gathered_message first later
    else gathered_message first later
         +:+ Str.of_char Str.LF +:+ Str.of_char Str.LF +:+ m.
Proof.
  unfold gathered_message. rewrite filter_app.
  destruct (String.eqb_spec m "") as [->|Hm].
  - rewrite filter_cons_False by (by intros ?). by rewrite filter_nil, app_nil_r.
  - rewrite filter_cons_True by done. rewrite filter_nil.
    exact (join_snoc (String Str.LF (String Str.LF "")) first _ m).
Qed.

(** One more fault for a key whose stored record is a fault already. *)
Lemma gather_step collect k p name flowId event message details M D :
  k = name +:+ "-" +:+ decimal flowId →
  is_fault_event event →
  collect !! k = Some p →
  is_string (get p "kind") testStarted = false →
  p !! "message" = Some (VString M) →
  p !! "details" = Some (VArray D) →
  ∃ p',
    dispatch collect (Some (fault event name flowId message details))
    = (<[k := p']> collect, Return RUndefined)
    ∧ is_string (get p' "kind") testStarted = false
    ∧ p' !! "message"
      = Some (VString (if String.eqb message "" then M
                       else M +:+ Str.of_char Str.LF +:+ Str.of_char Str.LF +:+ message))
    ∧ p' !! "details" = Some (VArray (D ++ details))
    ∧ p' !! "event" = p !! "event"
    ∧ p' !! "kind" = p !! "kind".
Proof.
  intros -> Hevent Hp Hkind HM HD.
  pose proof (fault_lifecycle_of event name flowId message details) as Hf.
  pose proof (lifecycle_of_generateId _ _ _ _ Hf) as Hid.
  rewrite dispatch_fault;
    [|by eapply lifecycle_of_isTestResult
     |rewrite (lifecycle_of_event _ _ _ _ Hf); by destruct Hevent as [-> | ->]; [left|right]].
  rewrite (handleFault_merge _ p _ D details) by (by rewrite ?Hid).
  rewrite Hid. eexists. split; [done|].
  unfold append_message.
  change (get (fault event name flowId message details) "message") with (VString message).
  cbn [truthy toString]. rewrite (get_lookup _ _ _ HM). cbn [toString].
  destruct (String.eqb message ""); cbn [negb]; unfold get;
    rewrite !lookup_insert_ne by done; split_and!;
    by rewrite ?lookup_insert_eq, ?lookup_insert_ne, ?lookup_insert_eq by done.
Qed.

Lemma gather_run name flowId :
  ∀ (later : list (string * string * list item)) collect k p M D,
    k = name +:+ "-" +:+ decimal flowId →
    Forall (λ f, is_fault_event f.1.1) later →
    collect !! k = Some p →
    is_string (get p "kind") testStarted = false →
    p !! "message" = Some (VString M) →
    p !! "details" = Some (VArray D) →
    ∃ p',
      dispatch_all collect (Some <$> fault_records name flowId later)
      = (<[k := p']> collect, replicate (length later) (Return RUndefined))
      ∧ p' !! "message"
        = Some (VString
                  (foldl (λ M m, if String.eqb m "" then M
                                 else M +:+ Str.of_char Str.LF +:+ Str.of_char Str.LF +:+ m)
                         M (later.*1.*2)))
      ∧ p' !! "details" = Some (VArray (D ++ concat (later.*2)))
      ∧ p' !! "event" = p !! "event"
      ∧ p' !! "kind" = p !! "kind".
Proof.
  induction later as [|[[event message] details] later IH];
    intros collect k p M D Hk Hevents Hp Hkind HM HD.
  - exists p. cbn. rewrite insert_id by done. by rewrite app_nil_r.
  - apply Forall_cons in Hevents as [Hevent Hevents]. cbn [fst] in Hevent.
    destruct (gather_step collect k p name flowId event message details M D)
      as (p1 & Hstep & Hkind1 & HM1 & HD1 & He1 & Hk1); try done.
    edestruct (IH (<[k := p1]> collect) k p1) as (p2 & Hrun & HM2 & HD2 & He2 & Hk2);
      [exact Hk|exact Hevents|apply lookup_insert_eq|done|exact HM1|exact HD1|].
    exists p2. unfold fault_records in *. rewrite !fmap_cons.
    rewrite TwoKeys.dispatch_all_cons, Hstep. cbn [fst snd].
    rewrite Hrun. cbn [fst snd length replicate]. rewrite insert_insert_eq.
    split; [done|]. cbn [foldl concat fmap list_fmap fst snd].
    rewrite HM2, HD2, He2, Hk2, He1, Hk1. by rewrite <- app_assoc.
Qed.

Lemma foldl_gathered first later :
  foldl (λ M m, if String.eqb m "" then M
                else M +:+ Str.of_char Str.LF +:+ Str.of_char Str.LF +:+ m)
        first later
  = gathered_message first later.
Proof.
  induction later as [|m later IH] using rev_ind; [done|].
  by rewrite foldl_app, gathered_message_snoc, IH.
Qed.

End Gather.
(** ** The records of the store and their keys *)

Module StoreKeys.

Import ProblemMatcher Run Locality Correlator.

(** What a call can leave in an entry of the store: what was there, the
    incoming record, the incoming record laid over the stored one, or the
    stored one with the message and the details of the incoming one. *)
Lemma call_stored m collect r k p' :
  (call m collect r).1 !! k = Some p' →
  collect !! k = Some p'
  ∨ (k = generateId r
     ∧ (p' = r
        ∨ ∃ prev, collect !! k = Some prev
                  ∧ (p' = spread prev r
                     ∨ p' = append_message prev r
                     ∨ ∃ l, p' = <["details" := VArray l]> (append_message prev r)))).
Proof.
  destruct (decide (generateId r = k)) as [<-|Hne].
  - destruct m; cbn [call]; unfold handleStarted, handleFinished, handleFault;
      cbn zeta; case_handlers; cbn [fst];
      rewrite ?lookup_insert_eq, ?lookup_delete_eq; intros H;
      first [ done | congruence | by left
            | injection H as <-; right; (split; [done|]); eauto 8 ].
  - rewrite call_frame by done. by left.
Qed.

Lemma dispatch_stored collect result k p' :
  (dispatch collect result).1 !! k = Some p' →
  collect !! k = Some p'
  ∨ ∃ r, result = Some r ∧ isTestResult r = true ∧ k = generateId r
         ∧ (p' = r
            ∨ ∃ prev, collect !! k = Some prev
                      ∧ (p' = spread prev r
                         ∨ p' = append_message prev r
                         ∨ ∃ l, p' = <["details" := VArray l]> (append_message prev r))).
Proof.
  destruct result as [r|]; cbn [dispatch]; [|by left].
  destruct (isTestResult r) eqn:Hr; [|by left].
  destruct (lookup _) as [m|]; [|by left].
  intros [H|[-> H]]%call_stored; [by left|]. right. by exists r.
Qed.

(** The name and the flow id of the records a call leaves. *)
Lemma get_spread prev (r : record) k :
  has k r = true → get (spread prev r) k = get r k.
Proof.
  unfold has, get, spread. intros [v Hv]%bool_decide_eq_true.
  by rewrite (lookup_union_Some_l _ _ _ _ Hv), Hv.
Qed.

Lemma get_append_message prev r k :
  k ≠ "message" → get (append_message prev r) k = get prev k.
Proof.
  intros Hk. unfold append_message, get.
  destruct (truthy _); [|done]. by rewrite lookup_insert_ne.
Qed.

Lemma isTestResult_has r :
  isTestResult r = true → has "name" r = true ∧ has "flowId" r = true.
Proof.
  unfold isTestResult. intros [[_ ?]%andb_true_iff ?]%andb_true_iff. by split.
Qed.

Lemma stored_key collect result k p' :
  (dispatch collect result).1 !! k = Some p' →
  collect !! k = Some p'
  ∨ (∃ r, result = Some r ∧ isTestResult r = true ∧ k = generateId r
          ∧ get p' "name" = get r "name" ∧ get p' "flowId" = get r "flowId")
  ∨ (∃ prev, collect !! k = Some prev
             ∧ get p' "name" = get prev "name" ∧ get p' "flowId" = get prev "flowId").
Proof.
  intros [H|(r & -> & Hr & -> & H)]%dispatch_stored; [by left|].
  destruct (isTestResult_has r Hr) as [Hn Hf].
  destruct H as [->|(prev & Hprev & [->|[->|[l ->]]])].
  - right; left. by exists r.
  - right; left. exists r. by rewrite !get_spread.
  - right; right. exists prev. by rewrite !get_append_message.
  - right; right. exists prev. split; [done|].
    unfold get at 1 3. rewrite !lookup_insert_ne by done.
    fold (get (append_message prev r) "name").
    fold (get (append_message prev r) "flowId").
    by rewrite !get_append_message.
Qed.

Lemma generateId_get (p q : record) :
  get p "name" = get q "name" → get p "flowId" = get q "flowId" →
  generateId p = generateId q.
Proof. unfold generateId. by intros -> ->. Qed.

Lemma dispatch_well_keyed collect result :
  well_keyed collect → well_keyed (dispatch collect result).1.
Proof.
  intros Hc k p' [H|[(r & _ & _ & -> & Hn & Hf)|(prev & Hprev & Hn & Hf)]]%stored_key.
  - by apply Hc.
  - by apply generateId_get.
  - rewrite <- (Hc k prev Hprev). by apply generateId_get.
Qed.

Lemma dispatch_all_well_keyed results :
  ∀ collect, well_keyed collect → well_keyed (dispatch_all collect results).1.
Proof.
  induction results as [|result results IH]; intros collect Hc; [done|].
  rewrite TwoKeys.dispatch_all_cons. cbn [fst]. by apply IH, dispatch_well_keyed.
Qed.

Lemma lookup_get (p : record) k v : v ≠ VUndefined → get p k = v → p !! k = Some v.
Proof. unfold get. destruct (p !! k); cbn; congruence. Qed.

Lemma text_key_of_get (p : record) name flowId :
  get p "name" = VString name → get p "flowId" = VNumber flowId →
  0 ≤ flowId → exact flowId → text_key p.
Proof.
  intros Hn%lookup_get Hf%lookup_get ? ?; [|done..]. by exists name, flowId.
Qed.

Lemma get_text_key (p : record) :
  text_key p →
  ∃ name flowId, get p "name" = VString name ∧ get p "flowId" = VNumber flowId
                 ∧ 0 ≤ flowId ∧ exact flowId.
Proof.
  intros (name & flowId & Hn & Hf & ? & ?). exists name, flowId.
  by rewrite (get_lookup _ _ _ Hn), (get_lookup _ _ _ Hf).
Qed.

Lemma dispatch_text_keyed collect result :
  (∀ r, result = Some r → isTestResult r = true → text_key r) →
  text_keyed collect → text_keyed (dispatch collect result).1.
Proof.
  intros Hr Hc k p' H.
  apply stored_key in H as [H|[(r & -> & Htr & -> & Hn & Hf)|(prev & Hprev & Hn & Hf)]].
  - by eapply Hc.
  - destruct (get_text_key r (Hr r eq_refl Htr)) as (name & flowId & Hrn & Hrf & ? & ?).
    rewrite Hrn in Hn. rewrite Hrf in Hf. by eapply text_key_of_get.
  - destruct (get_text_key prev (Hc k prev Hprev)) as (name & flowId & Hrn & Hrf & ? & ?).
    rewrite Hrn in Hn. rewrite Hrf in Hf. by eapply text_key_of_get.
Qed.

Lemma dispatch_all_text_keyed results :
  text_keys results →
  ∀ collect, text_keyed collect → text_keyed (dispatch_all collect results).1.
Proof.
  induction 1 as [|result results Hr _ IH]; intros collect Hc; [done|].
  rewrite TwoKeys.dispatch_all_cons. cbn [fst]. by apply IH, dispatch_text_keyed.
Qed.

(** The id of a text key tells the key. *)
Lemma text_key_id (p : record) name flowId :
  text_key p → 0 ≤ flowId →
  generateId p = name +:+ "-" +:+ decimal flowId →
  get p "name" = VString name ∧ get p "flowId" = VNumber flowId.
Proof.
  intros (n & f & Hn & Hf & Hge & _)%get_text_key Hflow Hid.
  pose (q := Run.lifecycle testStarted name flowId).
  by destruct (Keys.generateId_inj p q n name f flowId) as [-> ->].
Qed.

(** In a store whose records are filed under their ids, with text keys:
    the store holds a record for a key when it has an entry under the id of
    the key, and only then. *)
Lemma holds_id collect name flowId :
  well_keyed collect → text_keyed collect → 0 ≤ flowId →
  (∃ p, holds collect (VString name) (VNumber flowId) p)
  ↔ is_Some (collect !! (name +:+ "-" +:+ decimal flowId)).
Proof.
  intros Hw Ht Hflow. split.
  - intros (p & k & Hk & Hn & Hf).
    exists p. rewrite <- Hk. f_equal.
    rewrite <- (Hw k p Hk). unfold generateId. by rewrite Hn, Hf.
  - intros [p Hp]. exists p, (name +:+ "-" +:+ decimal flowId).
    split; [done|]. apply text_key_id; [by eapply Ht|done|by apply Hw].
Qed.

Lemma finishes_id result name flowId :
  (∀ r, result = Some r → isTestResult r = true → text_key r) →
  0 ≤ flowId →
  finishes result (VString name) (VNumber flowId)
  ↔ finishing result (name +:+ "-" +:+ decimal flowId).
Proof.
  intros Hr Hflow. split.
  - intros (r & -> & Htr & He & Hn & Hf). exists r. split_and!; try done.
    unfold generateId. by rewrite Hn, Hf.
  - intros (r & -> & Htr & He & Hid). exists r. split_and!; try done;
      by apply (text_key_id r name flowId (Hr r eq_refl Htr) Hflow Hid).
Qed.

End StoreKeys.
(** ** The summary of a line of fields *)

Module SummaryLine.

Import Re TestResultSummaryParser Text StrFacts RecognizerFacts.

(** The characters of a match are passed over. *)
Lemma matchAll_from_skip (a b : string) :
  matchAll_from (String.length a) (a +:+ b) = matchAll_from 0 b.
Proof.
  induction a as [|c a IH]; [done|].
  rewrite append_cons. cbn [String.length matchAll_from]. apply IH.
Qed.

Lemma match_at_field name count tail :
  name ≠ "" → all isWord name = true →
  count ≠ "" → all isDigit count = true →
  one isDigit tail = None →
  match_at (name +:+ ": " +:+ count +:+ tail)
  = Some (name, count,
          opt (λ c, isChar "." c || isChar "s" (lower c) || isChar "," c) tail).
Proof.
  intros Hn Hname Hc Hcount Htail. unfold match_at, name_count.
  rewrite (many1_all isWord name _ Hn Hname) by done. cbn [mbind option_bind].
  change (": " +:+ ?x) with (String ":" (String " " x)).
  change (lit ":" (String ":" ?x)) with (Some x). cbn [mbind option_bind].
  cbn [one]. change (isSpace " ") with true. cbn [mbind option_bind].
  by rewrite (many1_all isDigit count tail Hc Hcount Htail).
Qed.

(** One field, and the comma or the full stop after it. *)
Lemma matchAll_field name count x rest :
  name ≠ "" → all isWord name = true →
  count ≠ "" → all isDigit count = true →
  x = "."%char ∨ x = ","%char →
  matchAll_from 0 (name +:+ ": " +:+ count +:+ String x rest)
  = (name, count) :: matchAll_from 0 rest.
Proof.
  intros Hn Hname Hc Hcount Hx.
  pose proof (match_at_field name count (String x rest) Hn Hname Hc Hcount) as Hm.
  assert (opt (λ c, isChar "." c || isChar "s" (lower c) || isChar "," c) (String x rest)
          = rest) as Hopt by (by destruct Hx as [-> | ->]).
  rewrite Hopt in Hm. specialize (Hm ltac:(by destruct Hx as [-> | ->])).
  destruct name as [|h name]; [done|].
  rewrite append_cons in Hm |- *. cbn [matchAll_from]. rewrite Hm.
  f_equal.
  replace (name +:+ ": " +:+ count +:+ String x rest)
    with ((name +:+ ": " +:+ count +:+ String x "") +:+ rest)
    by (by rewrite !append_assoc).
  rewrite <- (matchAll_from_skip (name +:+ ": " +:+ count +:+ String x "") rest).
  f_equal. cbn [String.length]. rewrite !EscapeFacts.length_append. lia.
Qed.

Lemma matchAll_space (s : string) : matchAll_from 0 (String " " s) = matchAll_from 0 s.
Proof. reflexivity. Qed.

(** The matches of a line of fields are its fields. *)
Lemma matchAll_summary_line (l : list (string * string)) :
  Forall well_formed_field l → matchAll (summary_line l) = l.
Proof.
  unfold matchAll. induction 1 as [|[name count] l (Hn & Hname & Hc & Hcount) Hl IH];
    [done|].
  cbn [summary_line]. unfold field. cbn [fst snd] in *.
  destruct l as [|f l].
  - rewrite !append_assoc.
    by rewrite (matchAll_field name count "." "") by auto.
  - rewrite !append_assoc.
    change (", " +:+ ?x) with (String "," (String " " x)).
    rewrite (matchAll_field name count "," _) by auto.
    by rewrite matchAll_space, IH.
Qed.

(** A line that starts with the tests and the assertions is a summary. *)
Lemma is_verbose_line tests assertions x rest :
  tests ≠ "" → all isDigit tests = true →
  assertions ≠ "" → all isDigit assertions = true →
  x = "."%char ∨ x = ","%char →
  is_verbose ("Test" +:+ String "s" (String ":" (String " " (tests +:+
                String "," (String " " ("Assertions:" +:+ String " " (assertions +:+
                  String x rest)))))))
  = true.
Proof.
  intros Ht Htests Ha Hassertions Hx.
  unfold is_verbose. apply bool_decide_eq_true.
  rewrite (lit_i_append "Test" "Test" _ eq_refl). cbn [mbind option_bind].
  change (opt _ (String "s" ?y)) with y.
  change (lit ":" (String ":" ?y)) with (Some y). cbn [mbind option_bind].
  unfold count_end.
  rewrite (one_true isSpace " " _ eq_refl). cbn [mbind option_bind].
  rewrite (many1_all isDigit tests _ Ht Htests) by done. cbn [mbind option_bind].
  rewrite (one_true _ "," _ eq_refl). cbn [mbind option_bind].
  change (opt isSpace (String " " ?y)) with y.
  rewrite (lit_i_append "Assertions:" "Assertions:" _ eq_refl). cbn [mbind option_bind].
  rewrite (one_true isSpace " " _ eq_refl). cbn [mbind option_bind].
  rewrite (many1_all isDigit assertions _ Ha Hassertions)
    by (by destruct Hx as [-> | ->]).
  cbn [mbind option_bind].
  rewrite (one_true _ x rest) by (by destruct Hx as [-> | ->]).
  done.
Qed.

Lemma is_summary_line tests assertions (l : list (string * string)) :
  tests ≠ "" → all isDigit tests = true →
  assertions ≠ "" → all isDigit assertions = true →
  is_ (summary_line (("Tests", tests) :: ("Assertions", assertions) :: l)) = true.
Proof.
  intros Ht Htests Ha Hassertions.
  unfold is_. apply orb_true_iff. right.
  cbn [summary_line]. unfold field. cbn [fst snd].
  set (tail := match l with [] => "." | _ :: _ => ", " +:+ summary_line l end).
  assert (∃ x rest, tail = String x rest ∧ (x = "."%char ∨ x = ","%char))
    as (x & rest & -> & Hx).
  { subst tail. destruct l; [by exists "."%char, ""; auto|].
    exists ","%char. eexists. split; [reflexivity|auto]. }
  rewrite !append_assoc.
  by apply is_verbose_line.
Qed.

Ltac flatten_append :=
  repeat first [rewrite append_assoc | rewrite append_cons | rewrite append_nil_l].

(** A match at the start of the text, and the search after it. *)
Lemma matchAll_at h (a rest : string) name count :
  match_at (String h a +:+ rest) = Some (name, count, rest) →
  matchAll_from 0 (String h a +:+ rest) = (name, count) :: matchAll_from 0 rest.
Proof.
  intros Hm. rewrite append_cons in Hm |- *. cbn [matchAll_from]. rewrite Hm.
  f_equal. rewrite <- (matchAll_from_skip a rest). f_equal.
  cbn [String.length]. rewrite !EscapeFacts.length_append. lia.
Qed.

(** A count, a space and a name. *)
Lemma match_at_count_name count name tail :
  count ≠ "" → all isDigit count = true →
  name ≠ "" → all isWord name = true →
  one isWord tail = None →
  match_at (count +:+ " " +:+ name +:+ tail)
  = Some (name, count,
          opt (λ c, isChar "." c || isChar "s" (lower c) || isChar "," c) tail).
Proof.
  intros Hc Hcount Hn Hname Htail. unfold match_at, name_count, count_name.
  assert (all isWord count = true) as Hword.
  { eapply DetailFacts.all_impl; [|exact Hcount]. intros c Hd.
    unfold isWord. by rewrite Hd. }
  rewrite (many1_all isWord count _ Hc Hword) by done. cbn [mbind option_bind].
  change (" " +:+ ?x) with (String " " x).
  change (lit ":" (String " " ?x)) with (@None string). cbn [mbind option_bind].
  rewrite (many1_all isDigit count _ Hc Hcount) by done. cbn [mbind option_bind].
  rewrite (one_true isSpace " " _ eq_refl). cbn [mbind option_bind].
  by rewrite (many1_all isWord name tail Hn Hname Htail).
Qed.

Lemma matchAll_count_name count name tail :
  count ≠ "" → all isDigit count = true →
  name ≠ "" → all isWord name = true →
  one isWord tail = None →
  matchAll_from 0 (count +:+ " " +:+ name +:+ tail)
  = (name, count)
      :: matchAll_from 0
           (opt (λ c, isChar "." c || isChar "s" (lower c) || isChar "," c) tail).
Proof.
  intros Hc Hcount Hn Hname Htail.
  pose proof (match_at_count_name count name tail Hc Hcount Hn Hname Htail) as Hm.
  destruct count as [|h count]; [done|].
  unfold opt in *.
  destruct (one (λ c, isChar "." c || isChar "s" (lower c) || isChar "," c) tail)
    as [rest|] eqn:Hone.
  - apply one_cons in Hone as (x & _ & ->).
    replace (String h count +:+ " " +:+ name +:+ String x rest)
      with (String h (count +:+ " " +:+ name +:+ String x "") +:+ rest) in *
      by (by flatten_append).
    by apply matchAll_at.
  - replace (String h count +:+ " " +:+ name +:+ tail)
      with (String h (count +:+ " " +:+ name) +:+ tail) in *
      by (by flatten_append).
    by apply matchAll_at.
Qed.

(** The matches of the line of a run without faults. *)
Lemma matchAll_terse_line tests ts assertions as_ :
  tests ≠ "" → all isDigit tests = true →
  assertions ≠ "" → all isDigit assertions = true →
  ts = "" ∨ ts = "s" → as_ = "" ∨ as_ = "s" →
  matchAll (terse_line tests ts assertions as_)
  = [("test" +:+ ts, tests); ("assertion" +:+ as_, assertions)].
Proof.
  intros Ht Htests Ha Hassertions Hts Has. unfold matchAll, terse_line.
  change (matchAll_from 0 ("OK (" +:+ ?x)) with (matchAll_from 0 x).
  replace (tests +:+ " test" +:+ ts +:+ ", " +:+ assertions +:+ " assertion"
           +:+ as_ +:+ ")")
    with (tests +:+ " " +:+ ("test" +:+ ts)
          +:+ String "," (String " " (assertions +:+ " " +:+ ("assertion" +:+ as_)
                                      +:+ ")")))
    by (by flatten_append).
  rewrite (matchAll_count_name tests ("test" +:+ ts))
    by (done || by destruct Hts as [-> | ->]).
  change (opt _ (String "," ?x)) with x. rewrite matchAll_space.
  rewrite (matchAll_count_name assertions ("assertion" +:+ as_))
    by (done || by destruct Has as [-> | ->]).
  done.
Qed.

Lemma is_terse_line tests ts assertions as_ :
  tests ≠ "" → all isDigit tests = true →
  is_terse (terse_line tests ts assertions as_) = true.
Proof.
  intros Ht Htests. unfold is_terse, terse_line. apply bool_decide_eq_true.
  change ("OK (" +:+ ?x) with ("OK" +:+ String " " ("(" +:+ x)).
  rewrite (lit_i_append "OK" "OK" _ eq_refl). cbn [mbind option_bind].
  change (many1 isSpace (String " " ("(" +:+ ?x))) with (Some (" ", "(" +:+ x)).
  cbn [mbind option_bind].
  rewrite lit_self. cbn [mbind option_bind].
  rewrite (many1_all isDigit tests _ Ht Htests) by done. cbn [mbind option_bind].
  change (" test" +:+ ?x) with (String " " ("test" +:+ x)).
  rewrite (one_true isSpace " " _ eq_refl). cbn [mbind option_bind].
  by rewrite (lit_i_append "test" "test" _ eq_refl).
Qed.

Lemma parse_fold_lookup (l : list (string * string)) :
  NoDup (normalize <$> l.*1) →
  ∀ (init : record) name count,
    (name, count) ∈ l →
    foldl (fun (result : record) '(name, count) =>
             <[normalize name := VNumber (parseInt count)]> result) init l
    !! normalize name
    = Some (VNumber (parseInt count)).
Proof.
  induction l as [|[n c] l IH]; intros Hnd init name count Hin.
  - by apply elem_of_nil in Hin.
  - cbn [fmap list_fmap fst] in Hnd. apply NoDup_cons in Hnd as [Hnotin Hnd].
    cbn [foldl]. apply elem_of_cons in Hin as [[= -> ->]|Hin].
    + rewrite SummaryNames.parse_fold_keep_if; [apply lookup_insert_eq|].
      intros n' c' Hin' Heq. apply Hnotin. rewrite <- Heq.
      apply list_elem_of_fmap. exists n'. split; [done|].
      apply list_elem_of_fmap. by exists (n', c').
    + by apply IH.
Qed.

End SummaryLine.
(** ** When a call throws *)

Module Throws.

Import ProblemMatcher Run Correlator.

(** The names the table answers to, each with its member. *)
Lemma lookup_inv s m :
  lookup s = Some m → (s, m) ∈ own_members ++ inherited_members.
Proof.
  unfold lookup. cbn.
  repeat match goal with
    | |- context [String.eqb s ?t] =>
        destruct (String.eqb_spec s t) as [->|_];
        [intros [= <-]; repeat constructor|]
    end.
  done.
Qed.

Lemma push_details_append_message p r :
  push_details (append_message p r) r = push_details p r.
Proof.
  unfold push_details, append_message.
  destruct (truthy (get r "message")); [|done].
  unfold get. by rewrite lookup_insert_ne.
Qed.

Lemma dispatch_throws collect r :
  (dispatch collect (Some r)).2 = Throw_TypeError →
  isTestResult r = true
  ∧ ((toString (get r "event") ∈ [testFinished; testSuiteFinished]
      ∧ collect !! generateId r = None)
     ∨ (toString (get r "event") ∈ [testFailed; testIgnored]
        ∧ ∃ p, collect !! generateId r = Some p
               ∧ is_string (get p "kind") testStarted = false
               ∧ push_details p r = None)
     ∨ toString (get r "event") ∈ ["__defineGetter__"; "__defineSetter__"; "__proto__"]
     ∨ (toString (get r "event")
          ∈ ["hasOwnProperty"; "propertyIsEnumerable";
             "__lookupGetter__"; "__lookupSetter__"]
        ∧ has "toString" r = true)).
Proof.
  unfold dispatch. destruct (isTestResult r); [|done]. intros H. split; [done|].
  destruct (lookup (toString (get r "event"))) as [m|] eqn:Hl; [|done].
  apply lookup_inv in Hl. cbn [own_members inherited_members app] in Hl.
  repeat (apply elem_of_cons in Hl as [Hl|Hl]);
    try (by apply elem_of_nil in Hl);
    injection Hl as He ->; rewrite He; cbn [call] in H.
  all: try discriminate H.
  all: try (unfold handleFinished in H;
            destruct (collect !! generateId r) eqn:Hc; [discriminate H|];
            left; split; [solve [repeat constructor]|done]).
  all: try (unfold handleFault in H;
            destruct (collect !! generateId r) as [p|] eqn:Hc; [|discriminate H];
            destruct (is_string (get p "kind") testStarted) eqn:Hk; [discriminate H|];
            destruct (push_details (append_message p r) r) eqn:Hp; [discriminate H|];
            rewrite push_details_append_message in Hp;
            right; left; split; [solve [repeat constructor]|by exists p]).
  all: try (right; right; left; solve [repeat constructor]).
  all: unfold record_key in H; destruct (has "toString" r); [|discriminate H];
    right; right; right; split; [solve [repeat constructor]|done].
Qed.

Lemma dispatch_throws_if collect r :
  isTestResult r = true →
  (toString (get r "event") ∈ [testFinished; testSuiteFinished]
   ∧ collect !! generateId r = None)
  ∨ (toString (get r "event") ∈ [testFailed; testIgnored]
     ∧ ∃ p, collect !! generateId r = Some p
            ∧ is_string (get p "kind") testStarted = false
            ∧ push_details p r = None)
  ∨ toString (get r "event") ∈ ["__defineGetter__"; "__defineSetter__"; "__proto__"]
  ∨ (toString (get r "event")
       ∈ ["hasOwnProperty"; "propertyIsEnumerable";
          "__lookupGetter__"; "__lookupSetter__"]
     ∧ has "toString" r = true) →
  (dispatch collect (Some r)).2 = Throw_TypeError.
Proof.
  intros Hr H. unfold dispatch. rewrite Hr.
  destruct H as [[He Hc]|[[He (p & Hc & Hk & Hp)]|[He|[He Hts]]]];
    repeat (apply elem_of_cons in He as [He|He]);
    try (by apply elem_of_nil in He);
    rewrite He; cbn [lookup assoc own_members inherited_members String.eqb Ascii.eqb
                       Bool.eqb testFinished testSuiteFinished testFailed testIgnored
                       testStarted testSuiteStarted call].
  - unfold handleFinished. by rewrite Hc.
  - unfold handleFinished. by rewrite Hc.
  - unfold handleFault. by rewrite Hc, Hk, push_details_append_message, Hp.
  - unfold handleFault. by rewrite Hc, Hk, push_details_append_message, Hp.
  - done.
  - done.
  - done.
  - unfold record_key. by rewrite Hts.
  - unfold record_key. by rewrite Hts.
  - unfold record_key. by rewrite Hts.
  - unfold record_key. by rewrite Hts.
Qed.

Lemma parseLocationHint_throws (argv : record) :
  Parser.parseLocationHint argv = Throw_TypeError
  ↔ truthy (get argv "locationHint") = true
    ∧ ∀ hint, get argv "locationHint" ≠ VString hint.
Proof.
  unfold Parser.parseLocationHint.
  destruct (get argv "locationHint") as [|b|n|hint|l] eqn:Hh.
  - cbn. split; [done|]. by intros [? _].
  - destruct b; cbn; (split; [try done|]); [|by intros [? _]]. intros _. by split.
  - cbn [truthy]. destruct (negb (n =? 0)%Z); cbn [negb].
    + split; [|done]. intros _. by split.
    + split; [done|]. by intros [? _].
  - cbn [truthy]. destruct (negb (String.eqb hint "")); cbn [negb].
    + destruct (Parser.split _ _) as [file pieces]. split; [done|].
      intros [_ H]. by destruct (H hint).
    + split; [done|]. by intros [? _].
  - cbn. split; [|done]. intros _. by split.
Qed.

Lemma parseDetails_throws (argv : record) :
  Parser.parseDetails argv = Throw_TypeError
  ↔ has "details" argv = true
    ∧ ¬ ∃ message details,
          get argv "message" = VString message ∧ get argv "details" = VString details.
Proof.
  unfold Parser.parseDetails.
  destruct (has "details" argv); cbn [negb]; [|split; [done|by intros [? _]]].
  destruct (get argv "message") as [| | |message|];
    try (split; [intros _; split; [done|]; by intros (? & ? & ? & ?)|done]).
  destruct (get argv "details") as [| | |details|];
    try (split; [intros _; split; [done|]; by intros (? & ? & ? & ?)|done]).
  split; [done|]. intros [_ H]. destruct H. by eauto.
Qed.

End Throws.
(** ** The count fields of a line, as they are written *)

Module Written.

Import Re TestResultSummaryParser Text StrFacts.

Lemma span_spec p s a b :
  span p s = (a, b) → all p a = true ∧ one p b = None ∧ s = a +:+ b.
Proof.
  revert a b. induction s as [|c s IH]; intros a b; cbn [span].
  - by intros [= <- <-].
  - destruct (p c) eqn:Hc.
    + destruct (span p s) as [a' b'] eqn:Hs. intros [= <- <-].
      destruct (IH a' b' eq_refl) as (Ha & Hb & ->).
      cbn [all]. by rewrite Hc, Ha.
    + intros [= <- <-]. cbn [one]. by rewrite Hc.
Qed.

Lemma many1_spec p s a b :
  many1 p s = Some (a, b) →
  a ≠ "" ∧ all p a = true ∧ one p b = None ∧ s = a +:+ b.
Proof.
  unfold many1. destruct (span p s) as [a' b'] eqn:Hs.
  destruct a' as [|c a']; [done|]. intros [= <- <-].
  by destruct (span_spec p s _ _ Hs) as (? & ? & ?).
Qed.

Lemma many1_cons p c s a b :
  p c = true → many1 p s = Some (a, b) → many1 p (String c s) = Some (String c a, b).
Proof.
  unfold many1. cbn [span]. intros ->. destruct (span p s) as [a' b'].
  destruct a'; [done|]. by intros [= <- <-].
Qed.

Lemma many1_one p s a b : many1 p s = Some (a, b) → one p s ≠ None.
Proof.
  unfold many1. destruct s as [|c s]; [done|]. cbn [span one].
  by destruct (p c).
Qed.

Lemma digit_is_word c : isDigit c = true → isWord c = true.
Proof. unfold isWord. by intros ->. Qed.

Lemma one_digit_word s : one isDigit s ≠ None → one isWord s ≠ None.
Proof.
  destruct s as [|c s]; [done|]. cbn [one].
  destruct (isDigit c) eqn:Hc; [|done]. by rewrite (digit_is_word c Hc).
Qed.

(** The optional character at the end of the pattern is no digit, and of
    the characters of words it is the letter [s] only. *)
Lemma field_end_digit p :
  isChar "." p || isChar "s" (lower p) || isChar "," p = true → isDigit p = false.
Proof. by destruct p as [[] [] [] [] [] [] [] []]. Qed.

Lemma field_end_word p :
  isChar "." p || isChar "s" (lower p) || isChar "," p = true →
  isWord p = true → isChar "s" (lower p) = true.
Proof. by destruct p as [[] [] [] [] [] [] [] []]. Qed.

(** The last character of a text. *)
Lemma last_char_append a b q : last_char b = Some q → last_char (a +:+ b) = Some q.
Proof.
  intros Hb. induction a as [|c a IH]; [done|].
  rewrite append_cons. cbn [last_char]. by rewrite IH.
Qed.

Lemma last_char_all p a :
  a ≠ "" → all p a = true → ∃ q, last_char a = Some q ∧ p q = true.
Proof.
  induction a as [|c a IH]; [done|]. intros _. cbn [all last_char].
  intros [Hc Ha]%andb_true_iff.
  destruct a as [|d a]; [by exists c|].
  destruct IH as (q & -> & Hq); [done|done|]. by exists q.
Qed.

Lemma last_char_snoc a c : last_char (a +:+ String c "") = Some c.
Proof. by apply last_char_append. Qed.

Lemma append_snoc a c b : (a +:+ String c "") +:+ b = a +:+ String c b.
Proof. by rewrite append_assoc. Qed.

(** A match, the character before it being a character of a name or a
    digit: the match could have started one character earlier. *)
Lemma name_count_cons p s name count rest :
  isWord p = true →
  name_count s = Some (name, count, rest) →
  name_count (String p s) = Some (String p name, count, rest).
Proof.
  unfold name_count. intros Hp H.
  destruct (many1 isWord s) as [[n s1]|] eqn:H1; [|done].
  rewrite (many1_cons _ _ _ _ _ Hp H1). cbn in H |- *.
  destruct (lit ":" s1) as [s2|]; [|done]. cbn in H |- *.
  destruct (one isSpace s2) as [s3|]; [|done]. cbn in H |- *.
  destruct (many1 isDigit s3) as [[c s4]|]; [|done]. cbn in H |- *.
  by injection H as <- <- <-.
Qed.

Lemma count_name_cons p s name count rest :
  isDigit p = true →
  count_name s = Some (name, count, rest) →
  count_name (String p s) = Some (name, String p count, rest).
Proof.
  unfold count_name. intros Hp H.
  destruct (many1 isDigit s) as [[c s1]|] eqn:H1; [|done].
  rewrite (many1_cons _ _ _ _ _ Hp H1). cbn in H |- *.
  destruct (one isSpace s1) as [s2|]; [|done]. cbn in H |- *.
  destruct (many1 isWord s2) as [[n s3]|]; [|done]. cbn in H |- *.
  by injection H as <- <- <-.
Qed.

Lemma name_count_starts s name count rest :
  name_count s = Some (name, count, rest) → one isWord s ≠ None.
Proof.
  unfold name_count.
  destruct (many1 isWord s) as [[n s1]|] eqn:H1; [|done].
  intros _. by eapply many1_one.
Qed.

Lemma count_name_starts s name count rest :
  count_name s = Some (name, count, rest) → one isDigit s ≠ None.
Proof.
  unfold count_name.
  destruct (many1 isDigit s) as [[n s1]|] eqn:H1; [|done].
  intros _. by eapply many1_one.
Qed.

(** What stands before a match, when the search has come to it. *)
Lemma name_count_left p s name count rest :
  name_count s = Some (name, count, rest) →
  match_at (String p s) = None ∨ ended p s →
  isWord p = true → isDigit p = true ∨ isChar "s" (lower p) = true.
Proof.
  intros Hm [Hnone|[Hend|[[Hd _]|[_ Hw]]]] Hp.
  - apply (name_count_cons p) in Hm; [|done].
    unfold match_at in Hnone. by rewrite Hm in Hnone.
  - right. by apply field_end_word.
  - by left.
  - by destruct (name_count_starts _ _ _ _ Hm).
Qed.

Lemma count_name_left p s name count rest :
  count_name s = Some (name, count, rest) →
  match_at (String p s) = None ∨ ended p s →
  isDigit p = false.
Proof.
  intros Hm Hstart. destruct (isDigit p) eqn:Hp; [|done]. exfalso.
  destruct Hstart as [Hnone|[Hend|[[_ Hd]|[_ Hw]]]].
  - apply (count_name_cons p) in Hm; [|done].
    unfold match_at in Hnone. rewrite Hm in Hnone.
    by destruct (name_count (String p s)) as [[[? ?] ?]|].
  - apply field_end_digit in Hend. congruence.
  - by apply (count_name_starts _ _ _ _ Hm).
  - exact (one_digit_word s (count_name_starts _ _ _ _ Hm) Hw).
Qed.

Lemma name_count_written before s name count rest :
  name_count s = Some (name, count, rest) →
  (∀ p, last_char before = Some p → match_at (String p s) = None ∨ ended p s) →
  written_field name count (before +:+ s).
Proof.
  intros Hm Hstart.
  assert (Hleft : ∀ p, last_char before = Some p → isWord p = true →
                       isDigit p = true ∨ isChar "s" (lower p) = true).
  { intros p Hp. eapply name_count_left; [exact Hm|by apply Hstart]. }
  clear Hstart. revert Hm. unfold name_count. intros H.
  destruct (many1 isWord s) as [[n s1]|] eqn:H1; [|done]. cbn in H.
  destruct (lit ":" s1) as [s2|] eqn:H2; [|done]. cbn in H.
  destruct (one isSpace s2) as [s3|] eqn:H3; [|done]. cbn in H.
  destruct (many1 isDigit s3) as [[c s4]|] eqn:H4; [|done]. cbn in H.
  injection H as <- <- <-.
  apply many1_spec in H1 as (Hn & Hname & _ & ->).
  apply many1_spec in H4 as (Hc & Hcount & Hafter & ->).
  apply lit_append in H2 as ->.
  apply one_cons in H3 as (space & Hsp & ->).
  split_and!; try done.
  exists before, s4, space. split; [done|]. left. by split_and!.
Qed.

Lemma count_name_written before s name count rest :
  count_name s = Some (name, count, rest) →
  (∀ p, last_char before = Some p → match_at (String p s) = None ∨ ended p s) →
  written_field name count (before +:+ s).
Proof.
  intros Hm Hstart.
  assert (Hleft : ∀ p, last_char before = Some p → isDigit p = false).
  { intros p Hp. eapply count_name_left; [exact Hm|by apply Hstart]. }
  clear Hstart. revert Hm. unfold count_name. intros H.
  destruct (many1 isDigit s) as [[c s1]|] eqn:H1; [|done]. cbn in H.
  destruct (one isSpace s1) as [s2|] eqn:H2; [|done]. cbn in H.
  destruct (many1 isWord s2) as [[n s3]|] eqn:H3; [|done]. cbn in H.
  injection H as <- <- <-.
  apply many1_spec in H1 as (Hc & Hcount & _ & ->).
  apply many1_spec in H3 as (Hn & Hname & Hafter & ->).
  apply one_cons in H2 as (space & Hsp & ->).
  split_and!; try done.
  exists before, s3, space. split; [done|]. right. by split_and!.
Qed.

Lemma match_at_written before s name count rest :
  match_at s = Some (name, count, rest) →
  (∀ p, last_char before = Some p → match_at (String p s) = None ∨ ended p s) →
  written_field name count (before +:+ s).
Proof.
  unfold match_at at 1. intros H Hstart.
  destruct (name_count s) as [[[n c] r]|] eqn:H1.
  - cbn in H. injection H as <- <- <-. by eapply name_count_written.
  - destruct (count_name s) as [[[n c] r]|] eqn:H2; [|done].
    cbn in H. injection H as <- <- <-. by eapply count_name_written.
Qed.

(** Where a match ends. *)
Lemma name_count_shape s name count rest :
  name_count s = Some (name, count, rest) →
  ∃ matched q, s = matched +:+ rest ∧ last_char matched = Some q
               ∧ isDigit q = true ∧ one isDigit rest = None.
Proof.
  unfold name_count. intros H.
  destruct (many1 isWord s) as [[n s1]|] eqn:H1; [|done]. cbn in H.
  destruct (lit ":" s1) as [s2|] eqn:H2; [|done]. cbn in H.
  destruct (one isSpace s2) as [s3|] eqn:H3; [|done]. cbn in H.
  destruct (many1 isDigit s3) as [[c s4]|] eqn:H4; [|done]. cbn in H.
  injection H as <- <- <-.
  apply many1_append in H1 as ->.
  apply many1_spec in H4 as (Hc & Hcount & Hafter & ->).
  apply lit_append in H2 as ->.
  apply one_cons in H3 as (space & Hsp & ->).
  destruct (last_char_all isDigit c Hc Hcount) as (q & Hq & Hdigit).
  exists (n +:+ String ":" (String space c)), q. split_and!; try done.
  - by rewrite !append_assoc, !append_cons.
  - apply last_char_append. by apply (last_char_append (String ":" (String space ""))).
Qed.

Lemma count_name_shape s name count rest :
  count_name s = Some (name, count, rest) →
  ∃ matched q, s = matched +:+ rest ∧ last_char matched = Some q
               ∧ isWord q = true ∧ one isWord rest = None.
Proof.
  unfold count_name. intros H.
  destruct (many1 isDigit s) as [[c s1]|] eqn:H1; [|done]. cbn in H.
  destruct (one isSpace s1) as [s2|] eqn:H2; [|done]. cbn in H.
  destruct (many1 isWord s2) as [[n s3]|] eqn:H3; [|done]. cbn in H.
  injection H as <- <- <-.
  apply many1_append in H1 as ->.
  apply many1_spec in H3 as (Hn & Hname & Hafter & ->).
  apply one_cons in H2 as (space & Hsp & ->).
  destruct (last_char_all isWord n Hn Hname) as (q & Hq & Hword).
  exists (c +:+ String space n), q. split_and!; try done.
  - by rewrite !append_assoc, !append_cons.
  - apply last_char_append. by apply (last_char_append (String space "")).
Qed.

Lemma opt_ended (s matched rest : string) (q : ascii) :
  s = matched +:+ rest → last_char matched = Some q →
  (isDigit q = true ∧ one isDigit rest = None)
  ∨ (isWord q = true ∧ one isWord rest = None) →
  ∃ matched' q',
    s = matched'
        +:+ opt (fun c => isChar "." c || isChar "s" (lower c) || isChar "," c) rest
    ∧ last_char matched' = Some q'
    ∧ ended q' (opt (fun c => isChar "." c || isChar "s" (lower c) || isChar "," c) rest).
Proof.
  intros -> Hq Hend. unfold opt.
  destruct (one (fun c => isChar "." c || isChar "s" (lower c) || isChar "," c) rest)
    as [rest'|] eqn:Ho.
  - apply one_cons in Ho as (o & Ho & ->).
    exists (matched +:+ String o ""), o. split_and!.
    + by rewrite append_snoc.
    + apply last_char_snoc.
    + by left.
  - exists matched, q. split_and!; try done. by right.
Qed.

Lemma match_at_ended s name count rest :
  match_at s = Some (name, count, rest) →
  ∃ matched q, s = matched +:+ rest ∧ last_char matched = Some q ∧ ended q rest.
Proof.
  unfold match_at. intros H.
  destruct (name_count s) as [[[n c] r]|] eqn:H1.
  - cbn in H. injection H as <- <- <-.
    destruct (name_count_shape _ _ _ _ H1) as (m & q & Hs & Hq & Hd & Hr).
    by apply (opt_ended s m r q); [| |left].
  - destruct (count_name s) as [[[n c] r]|] eqn:H2; [|done].
    cbn in H. injection H as <- <- <-.
    destruct (count_name_shape _ _ _ _ H2) as (m & q & Hs & Hq & Hd & Hr).
    by apply (opt_ended s m r q); [| |right].
Qed.

(** Every match the search finds is a field written in the line. *)
Lemma matchAll_from_written s :
  ∀ before skip name count,
    searching before skip s →
    (name, count) ∈ matchAll_from skip s → written_field name count (before +:+ s).
Proof.
  induction s as [|c s IH]; intros before skip name count Hsearch;
    cbn [matchAll_from]; [by intros ?%elem_of_nil|].
  destruct skip as [|skip].
  - assert (Hstart : ∀ p, last_char before = Some p →
                          match_at (String p (String c s)) = None ∨ ended p (String c s)).
    { intros p Hp. destruct Hsearch as [[_ Hnone]|(mid & rest & q & Hs & Hl & Hq & Hend)].
      - left. by apply Hnone.
      - right. destruct mid; [|done]. rewrite append_nil_l in Hs.
        rewrite SummaryNames.append_nil_r, Hp in Hq. injection Hq as <-. by rewrite Hs. }
    destruct (match_at (String c s)) as [[[n k] rest]|] eqn:Hm.
    + intros [Heq|Hin]%elem_of_cons.
      * injection Heq as -> ->. by eapply match_at_written.
      * rewrite <- append_snoc. eapply IH; [|exact Hin].
        right. destruct (match_at_ended _ _ _ _ Hm) as (matched & q & Hs & Hq & Hend).
        destruct matched as [|c' mid]; [done|].
        rewrite append_cons in Hs. injection Hs as <- Hs.
        exists mid, rest, q. split_and!; try done.
        -- rewrite Hs. cbn [String.length].
           rewrite EscapeFacts.length_append. lia.
        -- rewrite append_snoc. by apply last_char_append.
    + intros Hin. rewrite <- append_snoc. eapply IH; [|exact Hin].
      left. split; [done|]. intros p Hp. rewrite last_char_snoc in Hp.
      by injection Hp as <-.
  - intros Hin. rewrite <- append_snoc. eapply IH; [|exact Hin].
    destruct Hsearch as [[? _]|(mid & rest & q & Hs & Hl & Hq & Hend)]; [done|].
    destruct mid as [|c' mid]; [done|].
    rewrite append_cons in Hs. injection Hs as <- Hs. injection Hl as Hl.
    right. exists mid, rest, q. split_and!; try done.
    by rewrite append_snoc.
Qed.

(** Every property of the record of a summary, except [kind] and [text],
    is set by a count field written in the line. *)
Lemma parse_written text k v :
  parse text !! k = Some v →
  k = "kind" ∨ k = "text"
  ∨ ∃ name count,
      written_field name count text
      ∧ k = normalize name ∧ v = VNumber (parseInt count).
Proof.
  unfold parse. intros [H|(name & count & Hin & -> & ->)]%SummaryFacts.parse_fold.
  - destruct (decide (k = "kind")) as [->|Hk]; [by left|].
    destruct (decide (k = "text")) as [->|Ht]; [by right; left|].
    by rewrite !lookup_insert_ne in H by done.
  - right; right. exists name, count. split; [|done].
    apply (matchAll_from_written text "" 0); [|done].
    left. split; [done|]. by intros p.
Qed.

End Written.
(** * The claims *)

Import ProblemMatcher Run Locality TwoKeys Correlator.

(** C1 (the code departs from it).  The text [|n], a pipe and the letter
    [n], holds no placeholder; [escape] turns it into [||n]; [unescape] first
    makes [|n] of that and then, in its third pass, a line feed.
    [RoundTrip.unescape_escape_iff] tells where the round trip holds: for the
    texts in which no pipe is followed by the letter [n] or [r]. *)
Theorem C1_round_trip_fails_after_a_pipe :
  Run.includes EscapeValue.SINGLE_QUOTE "|n" = false
  ∧ EscapeValue.escape "|n" = "||n"
  ∧ EscapeValue.unescape (EscapeValue.escape "|n") = Str.of_char Str.LF
  ∧ EscapeValue.unescape (EscapeValue.escape "|n") ≠ "|n".
Proof. split_and!; try reflexivity. discriminate. Qed.

(** C2.  For the key (name [t], flow id 1), the records Started, Failed with
    a message that contains [boom], Finished with duration 12, handed to the
    matcher in this order, give the started notification, nothing, and one
    terminal record, at the Finished record: its event and kind are
    [testFailed], its message is the message of the Failed record, its
    duration is 12; the entry of the key is gone afterwards.  In general,
    when the store holds a fault record for the key of a Finished or
    SuiteFinished record, the terminal record carries the event of the stored
    record as event and kind, not the incoming one. *)
Theorem C2_stored_fault_is_the_terminal_event :
  (∀ (collect : store) (started failed finished : record) (message : string),
     lifecycle_of testStarted "t" 1 started →
     lifecycle_of testFailed "t" 1 failed →
     failed !! "message" = Some (VString message) →
     includes "boom" message = true →
     lifecycle_of testFinished "t" 1 finished →
     finished !! "duration" = Some (VNumber 12) →
     finished !! "message" = None →
     ∃ terminal,
       dispatch_all collect [Some started; Some failed; Some finished]
       = (delete "t-1" collect,
          [Return (RRecord started); Return RUndefined; Return (RRecord terminal)])
       ∧ terminal !! "event" = Some (VString testFailed)
       ∧ terminal !! "kind" = Some (VString testFailed)
       ∧ terminal !! "message" = Some (VString message)
       ∧ includes "boom" message = true
       ∧ terminal !! "duration" = Some (VNumber 12))
  ∧ (∀ (collect : store) (prevData testResult : record),
       isTestResult testResult = true →
       get testResult "event" = VString testFinished
       ∨ get testResult "event" = VString testSuiteFinished →
       collect !! generateId testResult = Some prevData →
       isFault prevData = true →
       ∃ terminal,
         dispatch collect (Some testResult)
         = (delete (generateId testResult) collect, Return (RRecord terminal))
         ∧ terminal !! "event" = Some (get prevData "event")
         ∧ terminal !! "kind" = Some (get prevData "event")
         ∧ get prevData "event" ≠ get testResult "event"
         ∧ (get prevData "event" = VString testFailed
            ∨ get prevData "event" = VString testIgnored)).
Proof.
  split.
  - intros collect started failed finished message Hs Hf Hm Hboom He Hd Hnm.
    pose proof (lifecycle_of_generateId _ _ _ _ Hs) as Is.
    pose proof (lifecycle_of_generateId _ _ _ _ Hf) as If.
    pose proof (lifecycle_of_generateId _ _ _ _ He) as Ie.
    change ("t" +:+ "-" +:+ decimal 1) with "t-1" in *.
    rewrite !dispatch_all_cons.
    rewrite (dispatch_started collect started)
      by eauto using lifecycle_of_isTestResult, lifecycle_of_event.
    unfold handleStarted. rewrite Is. cbn [fst snd].
    rewrite (dispatch_fault _ failed)
      by eauto using lifecycle_of_isTestResult, lifecycle_of_event.
    unfold handleFault. rewrite If, lookup_insert_eq.
    rewrite (lifecycle_of_kind _ _ _ _ Hs). cbn [is_string fst snd].
    change (String.eqb testStarted testStarted) with true. cbn match. cbn [fst snd].
    rewrite (dispatch_finished _ finished)
      by eauto using lifecycle_of_isTestResult, lifecycle_of_event.
    assert (Hfault : isFault (spread started failed) = true).
    { unfold isFault, spread, get. destruct Hf as (Hfe & _).
      by rewrite (lookup_union_Some_l _ _ _ _ Hfe). }
    destruct (handleFinished_fault
                (<["t-1" := spread started failed]> (<["t-1" := started]> collect))
                (spread started failed) finished) as (terminal & Hrun & Hev & Hk & Hrest).
    { by rewrite Ie, lookup_insert_eq. }
    { done. }
    rewrite Hrun, Ie. cbn [fst snd dispatch_all].
    exists terminal. split_and!.
    + by rewrite !delete_insert_eq.
    + rewrite Hev. unfold spread, get. destruct Hf as (Hfe & _).
      by rewrite (lookup_union_Some_l _ _ _ _ Hfe).
    + rewrite Hk. unfold spread, get. destruct Hf as (Hfe & _).
      by rewrite (lookup_union_Some_l _ _ _ _ Hfe).
    + rewrite Hrest by done. unfold spread.
      rewrite lookup_union_r by done. by apply lookup_union_Some_l.
    + done.
    + rewrite Hrest by done. unfold spread. by apply lookup_union_Some_l.
  - intros collect prevData testResult Hr He Hprev Hfault.
    rewrite dispatch_finished by done.
    destruct (handleFinished_fault collect prevData testResult Hprev Hfault)
      as (terminal & Hrun & Hev & Hk & _).
    exists terminal. split_and!; try done.
    + destruct (isFault_event _ Hfault) as [->| ->], He as [->| ->]; done.
    + by apply isFault_event.
Qed.

Lemma C2_witness :
  lifecycle_of testStarted "t" 1 (lifecycle testStarted "t" 1)
  ∧ lifecycle_of testFailed "t" 1 (fault testFailed "t" 1 "boom" [])
  ∧ fault testFailed "t" 1 "boom" [] !! "message" = Some (VString "boom")
  ∧ includes "boom" "boom" = true
  ∧ lifecycle_of testFinished "t" 1 (finished "t" 1 12)
  ∧ finished "t" 1 12 !! "duration" = Some (VNumber 12)
  ∧ finished "t" 1 12 !! "message" = None
  ∧ ∃ terminal,
      dispatch_all ∅ [Some (lifecycle testStarted "t" 1);
                      Some (fault testFailed "t" 1 "boom" []);
                      Some (finished "t" 1 12)]
      = (delete "t-1" ∅,
         [Return (RRecord (lifecycle testStarted "t" 1)); Return RUndefined;
          Return (RRecord terminal)])
      ∧ terminal !! "event" = Some (VString testFailed)
      ∧ terminal !! "kind" = Some (VString testFailed)
      ∧ terminal !! "message" = Some (VString "boom")
      ∧ includes "boom" "boom" = true
      ∧ terminal !! "duration" = Some (VNumber 12).
Proof.
  assert (Hs : lifecycle_of testStarted "t" 1 (lifecycle testStarted "t" 1))
    by (repeat split; reflexivity).
  assert (Hf : lifecycle_of testFailed "t" 1 (fault testFailed "t" 1 "boom" []))
    by (repeat split; reflexivity).
  assert (He : lifecycle_of testFinished "t" 1 (finished "t" 1 12))
    by (repeat split; reflexivity).
  split_and!; try done.
  exact (proj1 C2_stored_fault_is_the_terminal_event ∅ _ _ _ "boom"
           Hs Hf eq_refl eq_refl He eq_refl eq_refl).
Defined.

(** C3 (the code departs from it).  Calls that throw a [TypeError]: a
    Finished record whose key has no stored record, here the first line of a
    run, for a parser that decodes the line to that record; a second fault
    for a key whose stored fault has no [details]; a second fault that has no
    [details] itself; and, in the decoder, a service message that has a
    [details] argument and no [message]. *)
Theorem C3_parse_throws :
  parse (λ _, Return (Some (finished "t" 1 12))) ∅
    "##teamcity[testFinished name='t' duration='12' flowId='1']"
  = (∅, Throw_TypeError)
  ∧ dispatch ∅ (Some (finished "t" 1 12)) = (∅, Throw_TypeError)
  ∧ (dispatch_all ∅ [Some (fault_without_details testIgnored "t" 1 "skipped");
                     Some (fault testIgnored "t" 1 "again" [])]).2
    = [Return RUndefined; Throw_TypeError]
  ∧ (dispatch_all ∅ [Some (fault testFailed "t" 1 "boom" []);
                     Some (fault_without_details testFailed "t" 1 "again")]).2
    = [Return RUndefined; Throw_TypeError]
  ∧ Parser.parseDetails {[ "details" := VString " /p/tests/ATest.php:22 " ]}
    = Throw_TypeError.
Proof. split_and!; reflexivity. Qed.

(** C4.  For one key, whose entry is absent or a Started placeholder, two
    fault records with the messages [A] and [B] ([B] not empty) followed by
    Finished give nothing twice and then the terminal record: its message is
    [A], a blank line, [B]; its details are the entries of the first fault
    followed by those of the second.  And the details the decoder builds for
    one fault record are the entries found in the message followed by the
    entries found in the [details] field. *)
Theorem C4_faults_are_concatenated :
  (∀ (collect : store) (first second finished : record)
     (eventA eventB name : string) (flowId : Z) (A B : string) (dA dB : list item),
     let key := name +:+ "-" +:+ decimal flowId in
     (collect !! key = None
      ∨ ∃ s, collect !! key = Some s ∧ get s "kind" = VString testStarted) →
     eventA = testFailed ∨ eventA = testIgnored →
     eventB = testFailed ∨ eventB = testIgnored →
     lifecycle_of eventA name flowId first →
     first !! "message" = Some (VString A) →
     first !! "details" = Some (VArray dA) →
     lifecycle_of eventB name flowId second →
     second !! "message" = Some (VString B) →
     B ≠ "" →
     second !! "details" = Some (VArray dB) →
     lifecycle_of testFinished name flowId finished →
     finished !! "message" = None →
     finished !! "details" = None →
     ∃ terminal,
       dispatch_all collect [Some first; Some second; Some finished]
       = (delete key collect,
          [Return RUndefined; Return RUndefined; Return (RRecord terminal)])
       ∧ terminal !! "message"
         = Some (VString (A +:+ Str.of_char Str.LF +:+ Str.of_char Str.LF +:+ B))
       ∧ terminal !! "details" = Some (VArray (dA ++ dB))
       ∧ terminal !! "event" = Some (VString eventA)
       ∧ terminal !! "kind" = Some (VString eventA))
  ∧ (∀ (argv : record) (message details_text : string),
       argv !! "message" = Some (VString message) →
       argv !! "details" = Some (VString details_text) →
       ∃ r, Parser.parseDetails argv = Return r
            ∧ r !! "details"
              = Some (VArray (Parser.detail_item
                                <$> (Parser.parseFileAndLine message
                                       ++ Parser.parseFileAndLine details_text)))).
Proof.
  split.
  - intros collect first second finished eventA eventB name flowId A B dA dB key
      Hstore HA HB Hf HmA HdA Hs HmB HBne HdB He Hnm Hnd.
    pose proof (lifecycle_of_generateId _ _ _ _ Hf) as If.
    pose proof (lifecycle_of_generateId _ _ _ _ Hs) as Is.
    pose proof (lifecycle_of_generateId _ _ _ _ He) as Ie.
    fold key in If, Is, Ie.
    (* the record stored by the first fault *)
    assert (∃ p1, dispatch collect (Some first) = (<[key := p1]> collect, Return RUndefined)
                  ∧ p1 !! "kind" = Some (VString eventA)
                  ∧ p1 !! "event" = Some (VString eventA)
                  ∧ p1 !! "message" = Some (VString A)
                  ∧ p1 !! "details" = Some (VArray dA)) as (p1 & H1 & Hk1 & He1 & Hm1 & Hd1).
    { rewrite dispatch_fault
        by (eauto using lifecycle_of_isTestResult;
            rewrite (lifecycle_of_event _ _ _ _ Hf); destruct HA as [-> | ->]; auto).
      unfold handleFault. rewrite If. destruct Hf as (Hfe & Hfk & _).
      destruct Hstore as [-> | (s & -> & Hsk)].
      - exists first. done.
      - rewrite Hsk. change (is_string _ _) with true. cbn match.
        exists (spread s first). unfold spread.
        split_and!; [done|by apply lookup_union_Some_l..]. }
    rewrite !dispatch_all_cons. rewrite H1. cbn [fst snd].
    rewrite (dispatch_fault _ second)
      by (eauto using lifecycle_of_isTestResult;
          rewrite (lifecycle_of_event _ _ _ _ Hs); destruct HB as [-> | ->]; auto).
    rewrite (handleFault_merge _ p1 second dA dB); cycle 1.
    { by rewrite Is, lookup_insert_eq. }
    { unfold get. rewrite Hk1. by apply fault_event_not_started. }
    { done. }
    { done. }
    rewrite append_message_truthy
      by (unfold get; rewrite HmB; by apply truthy_string).
    rewrite !(get_lookup _ _ _ Hm1), !(get_lookup _ _ _ HmB). cbn [toString fst snd].
    rewrite Is.
    rewrite (dispatch_finished _ finished)
      by eauto using lifecycle_of_isTestResult, lifecycle_of_event.
    match goal with
    | |- context [handleFinished (<[key := ?p]> ?c) finished] =>
        destruct (handleFinished_fault (<[key := p]> c) p finished)
          as (terminal & Hrun & Hev & Hk & Hrest)
    end.
    { by rewrite Ie, lookup_insert_eq. }
    { apply (fault_event_isFault eventA); [done|]. by rewrite !lookup_insert_ne. }
    rewrite Hrun, Ie. cbn [fst snd dispatch_all].
    exists terminal. split_and!.
    + by rewrite !delete_insert_eq.
    + rewrite Hrest by done. unfold spread. rewrite lookup_union_r by done.
      by rewrite lookup_insert_ne, lookup_insert_eq.
    + rewrite Hrest by done. unfold spread. rewrite lookup_union_r by done.
      by rewrite lookup_insert_eq.
    + rewrite Hev. unfold get. by rewrite !lookup_insert_ne, He1.
    + rewrite Hk. unfold get. by rewrite !lookup_insert_ne, He1.
  - intros argv message details_text Hm Hd. unfold Parser.parseDetails, has, get.
    rewrite Hm, Hd. rewrite bool_decide_eq_true_2 by eauto. cbn [negb default].
    eexists. split; [done|]. by rewrite lookup_insert_ne, lookup_insert_eq.
Qed.

Lemma C4_witness :
  let collect : store := {[ "t-1" := lifecycle testStarted "t" 1 ]} in
  let first := fault testFailed "t" 1 "A" [IDetail "a.php" 3] in
  let second := fault testFailed "t" 1 "B" [IDetail "b.php" 7; IDetail "c.php" 9] in
  (∃ s, collect !! "t-1" = Some s ∧ get s "kind" = VString testStarted)
  ∧ lifecycle_of testFailed "t" 1 first
  ∧ lifecycle_of testFailed "t" 1 second
  ∧ "B" ≠ ""
  ∧ lifecycle_of testFinished "t" 1 (finished "t" 1 12)
  ∧ finished "t" 1 12 !! "message" = None
  ∧ finished "t" 1 12 !! "details" = None
  ∧ ∃ terminal,
      dispatch_all collect [Some first; Some second; Some (finished "t" 1 12)]
      = (delete "t-1" collect,
         [Return RUndefined; Return RUndefined; Return (RRecord terminal)])
      ∧ terminal !! "message"
        = Some (VString ("A" +:+ Str.of_char Str.LF +:+ Str.of_char Str.LF +:+ "B"))
      ∧ terminal !! "details"
        = Some (VArray ([IDetail "a.php" 3] ++ [IDetail "b.php" 7; IDetail "c.php" 9]))
      ∧ terminal !! "event" = Some (VString testFailed)
      ∧ terminal !! "kind" = Some (VString testFailed).
Proof.
  intros collect first second.
  assert (Hstore : ∃ s, collect !! "t-1" = Some s ∧ get s "kind" = VString testStarted)
    by (eexists; split; reflexivity).
  assert (Hf : lifecycle_of testFailed "t" 1 first) by (repeat split; reflexivity).
  assert (Hs : lifecycle_of testFailed "t" 1 second) by (repeat split; reflexivity).
  assert (He : lifecycle_of testFinished "t" 1 (finished "t" 1 12))
    by (repeat split; reflexivity).
  assert (HB : "B" ≠ "") by discriminate.
  split_and!; try done.
  exact (proj1 C4_faults_are_concatenated collect first second (finished "t" 1 12)
           testFailed testFailed "t" 1 "A" "B" _ _
           (or_intror Hstore) (or_introl eq_refl) (or_introl eq_refl)
           Hf eq_refl eq_refl Hs eq_refl HB eq_refl He eq_refl eq_refl).
Defined.

(** C5, its second part as it was stated, fails when a flow id is negative.
    The ids of the keys (name [a-], flow id 1) and (name [a], flow id -1) are
    the same text.  After the Started record of the first key the store holds
    a record for it; the Finished record of the second key leaves none,
    though it is not a record of the first key. *)
Lemma C5_counterexample :
  let collect := (dispatch_all ∅ [Some (lifecycle testStarted "a-" 1)]).1 in
  let result := Some (finished "a" (-1) 5) in
  (∃ p, holds collect (VString "a-") (VNumber 1) p)
  ∧ (¬ ∃ p, holds (dispatch collect result).1 (VString "a-") (VNumber 1) p)
  ∧ ¬ finishes result (VString "a-") (VNumber 1).
Proof.
  cbn zeta. split_and!.
  - exists (lifecycle testStarted "a-" 1), "a--1". by split_and!.
  - intros (p & k & Hk & _).
    assert (Hempty : (dispatch (dispatch_all ∅ [Some (lifecycle testStarted "a-" 1)]).1
                        (Some (finished "a" (-1) 5))).1 = ∅) by reflexivity.
    rewrite Hempty in Hk. by rewrite lookup_empty in Hk.
  - intros (r & Hr & _ & _ & Hn & _). injection Hr as <-. discriminate Hn.
Qed.

(** C5 (amended).  The matcher starts with an empty store.  Whatever records
    have been processed since, no two entries of the store hold records of
    the same name and flow id: the store holds at most one record per key.
    When the names of the records are texts and their flow ids natural
    numbers below 2^53, a key that has a record in the store has none after
    the next call exactly when that call processed a Finished or
    SuiteFinished record of that name and flow id; after any other call (a
    Started, Failed or Ignored record, a record of another key, a line that
    is no record) the key still has a record. *)
Theorem C5_one_record_per_key_removed_at_finished :
  ∀ (results : list (option record)),
    let collect := (dispatch_all ∅ results).1 in
    (∀ (k1 k2 : string) (p1 p2 : record),
       collect !! k1 = Some p1 → collect !! k2 = Some p2 →
       get p1 "name" = get p2 "name" → get p1 "flowId" = get p2 "flowId" →
       k1 = k2 ∧ p1 = p2)
    ∧ (text_keys results →
       ∀ (result : option record) (name : string) (flowId : Z),
         text_keys [result] → 0 ≤ flowId →
         (∃ p, holds collect (VString name) (VNumber flowId) p) →
         ((¬ ∃ p, holds (dispatch collect result).1 (VString name) (VNumber flowId) p)
          ↔ finishes result (VString name) (VNumber flowId))
         ∧ (¬ finishes result (VString name) (VNumber flowId) →
            ∃ p, holds (dispatch collect result).1 (VString name) (VNumber flowId) p)).
Proof.
  intros results collect.
  assert (Hw : well_keyed collect) by (by apply StoreKeys.dispatch_all_well_keyed).
  split.
  - intros k1 k2 p1 p2 H1 H2 Hn Hf.
    assert (k1 = k2) as <-.
    { rewrite <- (Hw k1 p1 H1), <- (Hw k2 p2 H2). by apply StoreKeys.generateId_get. }
    split; [done|]. congruence.
  - intros Hresults result name flowId Hresult Hflow Hheld.
    assert (Ht : text_keyed collect) by (by apply StoreKeys.dispatch_all_text_keyed).
    assert (Hr : ∀ r, result = Some r → isTestResult r = true → text_key r)
      by (by apply Forall_inv in Hresult).
    pose proof (StoreKeys.dispatch_well_keyed collect result Hw) as Hw'.
    pose proof (StoreKeys.dispatch_text_keyed collect result Hr Ht) as Ht'.
    apply StoreKeys.holds_id in Hheld; [|done..].
    pose proof (dispatch_removes collect result _ Hheld) as Hremoved.
    rewrite (StoreKeys.holds_id _ name flowId Hw' Ht' Hflow).
    rewrite (StoreKeys.finishes_id result name flowId Hr Hflow).
    rewrite <- Hremoved, <- eq_None_not_Some. split; [done|].
    intros Hnone. by apply not_eq_None_Some.
Qed.

(** The key (name [t], flow id 1) after its Started record: a Finished
    record of the key removes its record, a Failed record does not. *)
Lemma C5_witness :
  let collect := (dispatch_all ∅ [Some (lifecycle testStarted "t" 1)]).1 in
  text_keys [Some (lifecycle testStarted "t" 1)]
  ∧ text_keys [Some (finished "t" 1 12)]
  ∧ text_keys [Some (fault testFailed "t" 1 "boom" [])]
  ∧ (∃ p, holds collect (VString "t") (VNumber 1) p)
  ∧ (¬ ∃ p, holds (dispatch collect (Some (finished "t" 1 12))).1
              (VString "t") (VNumber 1) p)
  ∧ (∃ p, holds (dispatch collect (Some (fault testFailed "t" 1 "boom" []))).1
            (VString "t") (VNumber 1) p).
Proof.
  cbn zeta.
  assert (Hkey : ∀ r : record,
             r !! "name" = Some (VString "t") → r !! "flowId" = Some (VNumber 1) →
             text_keys [Some r]).
  { intros r Hn Hf. constructor; [|constructor]. intros ? [= <-] _.
    exists "t", 1. split_and!; [done|done|lia|]. unfold exact. cbn. lia. }
  assert (Hs : text_keys [Some (lifecycle testStarted "t" 1)]) by (by apply Hkey).
  assert (Hf : text_keys [Some (finished "t" 1 12)]) by (by apply Hkey).
  assert (Hb : text_keys [Some (fault testFailed "t" 1 "boom" [])]) by (by apply Hkey).
  assert (Hheld : ∃ p, holds (dispatch_all ∅ [Some (lifecycle testStarted "t" 1)]).1
                         (VString "t") (VNumber 1) p).
  { exists (lifecycle testStarted "t" 1), "t-1". by split_and!. }
  split_and!; try done.
  - apply (proj1 (proj2 (C5_one_record_per_key_removed_at_finished
                           [Some (lifecycle testStarted "t" 1)]) Hs
                   (Some (finished "t" 1 12)) "t" 1 Hf ltac:(lia) Hheld)).
    exists (finished "t" 1 12). by split_and!; [| |left| |].
  - apply (proj2 (proj2 (C5_one_record_per_key_removed_at_finished
                           [Some (lifecycle testStarted "t" 1)]) Hs
                   (Some (fault testFailed "t" 1 "boom" [])) "t" 1 Hb ltac:(lia) Hheld)).
    intros (r & [= <-] & _ & [He|He] & _); discriminate He.
Defined.



(** C7, its second part as it was stated, fails at two ids.  A named data
    set whose name holds a line feed: the test id keeps the suffix.  An id
    with two suffixes: both are removed, not the trailing one only. *)
Lemma C7_counterexample :
  (Parser.parseLocationHint
     {[ "locationHint" :=
          VString ("php_qn://f.php::C::test_x"
                   +:+ Text.dataset_suffix Parser.double_quote
                         (Text.quoted ("a" +:+ Str.of_char Str.LF +:+ "b"))) ]}
   = Return
       (<["id" := VString ("C::test_x"
                           +:+ Text.dataset_suffix Parser.double_quote
                                 (Text.quoted ("a" +:+ Str.of_char Str.LF +:+ "b")))]>
          (<["file" := VString "f.php"]>
             (<["testId" := VString ("C::test_x"
                                     +:+ Text.dataset_suffix Parser.double_quote
                                           (Text.quoted ("a" +:+ Str.of_char Str.LF +:+ "b")))]>
                ∅)))
   ∧ "C::test_x" +:+ Text.dataset_suffix Parser.double_quote
                       (Text.quoted ("a" +:+ Str.of_char Str.LF +:+ "b"))
     ≠ "C::test_x")
  ∧ (Parser.strip_dataset
       (("test_x" +:+ Text.dataset_suffix "#" "1") +:+ Text.dataset_suffix "#" "2")
     = "test_x"
     ∧ "test_x" ≠ "test_x" +:+ Text.dataset_suffix "#" "1").
Proof. split_and!; try reflexivity; discriminate. Qed.

(** C7 (amended).  The location hint
    [php_qn://src/FileTest.php::Ns\FileTest::test_foo] gives the file
    [src/FileTest.php], the id [Ns\FileTest::test_foo] and a test id equal to
    the id.  For every location hint, once the scheme is taken off and every
    [::\] has become [::], the file is what stands before the first [::] and
    the id is everything that stands after it, kept whole; the test id is the
    id cut at the first place where the data-set pattern matches.  So when
    the id ends in [ with data set #N] or [ with data set "name"], the
    pattern matches nowhere before that suffix, and the suffix holds no line
    terminator, the id is reported with the suffix and the test id is the id
    without it. *)
Theorem C7_location_hint_and_data_set_suffix :
  Parser.parseLocationHint
    {[ "locationHint" := VString "php_qn://src/FileTest.php::Ns\FileTest::test_foo" ]}
  = Return (<["id" := VString "Ns\FileTest::test_foo"]>
              (<["file" := VString "src/FileTest.php"]>
                 (<["testId" := VString "Ns\FileTest::test_foo"]> ∅)))
  ∧ (∀ (argv : record) (hint : string),
       argv !! "locationHint" = Some (VString hint) → hint ≠ "" →
       ∃ file id,
         Parser.parseLocationHint argv
         = Return (<["id" := VString id]>
                     (<["file" := VString file]>
                        (<["testId" := VString (Parser.strip_dataset id)]> ∅)))
         ∧ (let text :=
              Str.replaceAll Parser.colons_backslash "::" (Parser.strip_scheme hint) in
            if Run.includes "::" text
            then text = file +:+ "::" +:+ id ∧ Run.includes "::" (file +:+ ":") = false
            else file = text ∧ id = ""))
  ∧ (∀ (base : string) (mark : ascii) (label : string),
       mark = "#"%char ∨ mark = Parser.double_quote →
       label ≠ "" →
       Re.all (fun c => negb (Re.isLineTerminator c)) label = true →
       (∀ n, (n < String.length base)%nat →
             Parser.dataset_at (Str.drop n (base +:+ Text.dataset_suffix mark label))
             = false) →
       Parser.strip_dataset (base +:+ Text.dataset_suffix mark label) = base)
  ∧ (∀ (argv : record) (hint file base : string) (mark : ascii) (label : string),
       argv !! "locationHint" = Some (VString hint) →
       Str.replaceAll Parser.colons_backslash "::" (Parser.strip_scheme hint)
       = file +:+ "::" +:+ (base +:+ Text.dataset_suffix mark label) →
       Run.includes "::" (file +:+ ":") = false →
       mark = "#"%char ∨ mark = Parser.double_quote →
       label ≠ "" →
       Re.all (fun c => negb (Re.isLineTerminator c)) label = true →
       (∀ n, (n < String.length base)%nat →
             Parser.dataset_at (Str.drop n (base +:+ Text.dataset_suffix mark label))
             = false) →
       Parser.parseLocationHint argv
       = Return (<["id" := VString (base +:+ Text.dataset_suffix mark label)]>
                   (<["file" := VString file]>
                      (<["testId" := VString base]> ∅)))).
Proof.
  split_and!.
  - reflexivity.
  - apply HintPieces.parseLocationHint_first.
  - apply HintFacts.strip_dataset_suffix.
  - intros argv hint file base mark label Hh Htext Hfile Hmark Hlabel Hline Hbefore.
    rewrite (HintPieces.parseLocationHint_cut argv hint file _ Hh
               (HintPieces.hint_not_empty _ _ _ Htext) Htext Hfile).
    by rewrite HintFacts.strip_dataset_suffix.
Qed.

(** The hint of the claim with the suffix of the third data set, and with
    the suffix of the data set named [case]: the id keeps the suffix, the
    test id has lost it. *)
Lemma C7_witness :
  Parser.parseLocationHint
    {[ "locationHint" :=
         VString ("php_qn://src/FileTest.php::Ns\FileTest::test_foo"
                  +:+ Text.dataset_suffix "#" "3") ]}
  = Return (<["id" := VString ("Ns\FileTest::test_foo" +:+ Text.dataset_suffix "#" "3")]>
              (<["file" := VString "src/FileTest.php"]>
                 (<["testId" := VString "Ns\FileTest::test_foo"]> ∅)))
  ∧ Parser.parseLocationHint
      {[ "locationHint" :=
           VString ("php_qn://src/FileTest.php::Ns\FileTest::test_foo"
                    +:+ Text.dataset_suffix Parser.double_quote (Text.quoted "case")) ]}
    = Return (<["id" := VString ("Ns\FileTest::test_foo"
                                 +:+ Text.dataset_suffix Parser.double_quote
                                       (Text.quoted "case"))]>
                (<["file" := VString "src/FileTest.php"]>
                   (<["testId" := VString "Ns\FileTest::test_foo"]> ∅)))
  ∧ (∃ file id,
       Parser.parseLocationHint
         {[ "locationHint" := VString "php_qn://src/FileTest.php" ]}
       = Return (<["id" := VString id]>
                   (<["file" := VString file]>
                      (<["testId" := VString (Parser.strip_dataset id)]> ∅)))
       ∧ file = "src/FileTest.php" ∧ id = "")
  ∧ Parser.strip_dataset ("Ns\FileTest::test_foo" +:+ Text.dataset_suffix "#" "3")
    = "Ns\FileTest::test_foo".
Proof.
  destruct C7_location_hint_and_data_set_suffix as (_ & Hhint & Hstrip & Hsuffix).
  assert (Hbefore : ∀ mark label n,
             (n < String.length "Ns\FileTest::test_foo")%nat →
             Parser.dataset_at
               (Str.drop n ("Ns\FileTest::test_foo" +:+ Text.dataset_suffix mark label))
             = false).
  { intros mark label n Hn. do 21 (destruct n as [|n]; [reflexivity|]).
    cbn in Hn. lia. }
  split_and!.
  - apply (Hsuffix _ ("php_qn://src/FileTest.php::Ns\FileTest::test_foo"
                      +:+ Text.dataset_suffix "#" "3") "src/FileTest.php");
      [reflexivity|reflexivity|reflexivity|by left|discriminate|reflexivity|apply Hbefore].
  - apply (Hsuffix _ ("php_qn://src/FileTest.php::Ns\FileTest::test_foo"
                      +:+ Text.dataset_suffix Parser.double_quote (Text.quoted "case"))
             "src/FileTest.php");
      [reflexivity|reflexivity|reflexivity|by right|discriminate|reflexivity|apply Hbefore].
  - destruct (Hhint {[ "locationHint" := VString "php_qn://src/FileTest.php" ]}
                "php_qn://src/FileTest.php") as (file & id & Hparse & Hcut);
      [reflexivity|discriminate|].
    change (file = "src/FileTest.php" ∧ id = "") in Hcut.
    by exists file, id.
  - apply Hstrip; [by left|discriminate|reflexivity|apply Hbefore].
Defined.

(** C8.  The summary recognizer accepts [OK (5 tests, 10 assertions)] and
    parses it to the record with [tests] 5 and [assertions] 10 (next to
    [kind] and [text]): no [errors] and no [failures] property.  It accepts
    [Tests: 5, Assertions: 10, Failures: 2, Skipped: 1.] and parses it to
    [tests] 5, [assertions] 10, [failures] 2, [skipped] 1.  For any line,
    every property of the parsed record other than [kind] and [text] is the
    normalized name of a count field written in the line, a word and a whole
    number as [name: count] or as [count name]; its value is a number, the
    one the digits of that count stand for when it is below 2^53. *)
Theorem C8_summary_holds_the_fields_of_the_line :
  (TestResultSummaryParser.is_ "OK (5 tests, 10 assertions)" = true
   ∧ TestResultSummaryParser.parse "OK (5 tests, 10 assertions)"
     = {[ "kind" := VString "testResultSummary";
          "text" := VString "OK (5 tests, 10 assertions)";
          "tests" := VNumber 5;
          "assertions" := VNumber 10 ]}
   ∧ TestResultSummaryParser.parse "OK (5 tests, 10 assertions)" !! "errors" = None
   ∧ TestResultSummaryParser.parse "OK (5 tests, 10 assertions)" !! "failures" = None)
  ∧ (TestResultSummaryParser.is_ "Tests: 5, Assertions: 10, Failures: 2, Skipped: 1." = true
     ∧ TestResultSummaryParser.parse "Tests: 5, Assertions: 10, Failures: 2, Skipped: 1."
       = {[ "kind" := VString "testResultSummary";
            "text" := VString "Tests: 5, Assertions: 10, Failures: 2, Skipped: 1.";
            "tests" := VNumber 5;
            "assertions" := VNumber 10;
            "failures" := VNumber 2;
            "skipped" := VNumber 1 ]})
  ∧ (∀ (text k : string) (v : value),
       TestResultSummaryParser.parse text !! k = Some v →
       k = "kind" ∨ k = "text"
       ∨ ∃ name count,
           Text.written_field name count text
           ∧ k = TestResultSummaryParser.normalize name
           ∧ (∃ n, v = VNumber n)
           ∧ (Text.exact_count count → v = VNumber (Re.parseInt count))).
Proof.
  split_and!; try reflexivity. intros text k v Hk.
  destruct (Written.parse_written text k v Hk)
    as [->|[->|(name & count & Hfield & -> & ->)]]; [by left|by right; left|].
  right; right. exists name, count. split_and!; eauto.
Qed.

Lemma C8_witness :
  TestResultSummaryParser.parse "OK (5 tests, 10 assertions)" !! "tests"
  = Some (VNumber 5)
  ∧ ("tests" = "kind" ∨ "tests" = "text"
     ∨ ∃ name count,
         Text.written_field name count "OK (5 tests, 10 assertions)"
         ∧ "tests" = TestResultSummaryParser.normalize name
         ∧ (∃ n, VNumber 5 = VNumber n)
         ∧ (Text.exact_count count → VNumber 5 = VNumber (Re.parseInt count))).
Proof.
  split; [reflexivity|].
  apply (proj2 (proj2 C8_summary_holds_the_fields_of_the_line)
           "OK (5 tests, 10 assertions)" "tests" (VNumber 5)).
  reflexivity.
Defined.

(** C9.  When the store holds a fault record for the key of an incoming
    Failed or Ignored record whose message is absent or empty, the call
    returns nothing; the stored record keeps its message, and every other
    property but [details], as it was: no separator is appended; its details
    are the stored entries followed by the incoming ones. *)
Theorem C9_empty_message_is_not_appended :
  ∀ (collect : store) (prevData testResult : record) (ds es : list item),
    isTestResult testResult = true →
    get testResult "event" = VString testFailed
    ∨ get testResult "event" = VString testIgnored →
    collect !! generateId testResult = Some prevData →
    isFault prevData = true →
    get prevData "kind" = get prevData "event" →
    prevData !! "details" = Some (VArray ds) →
    testResult !! "details" = Some (VArray es) →
    testResult !! "message" = None ∨ testResult !! "message" = Some (VString "") →
    ∃ stored,
      dispatch collect (Some testResult)
      = (<[generateId testResult := stored]> collect, Return RUndefined)
      ∧ stored !! "message" = prevData !! "message"
      ∧ stored !! "details" = Some (VArray (ds ++ es))
      ∧ ∀ k, k ≠ "details" → stored !! k = prevData !! k.
Proof.
  intros collect prevData testResult ds es Hr He Hprev Hfault Hkind Hds Hes Hm.
  rewrite dispatch_fault by done.
  rewrite (handleFault_merge _ prevData testResult ds es); try done.
  - rewrite append_message_falsy by (unfold get; by destruct Hm as [-> | ->]).
    eexists. split; [done|]. split_and!.
    + by rewrite lookup_insert_ne.
    + by rewrite lookup_insert_eq.
    + intros k Hk. by rewrite lookup_insert_ne.
  - rewrite Hkind. destruct (isFault_event _ Hfault) as [-> | ->]; done.
Qed.

Lemma C9_witness :
  let prevData := fault testFailed "t" 1 "A" [IDetail "a.php" 3] in
  let testResult := fault testFailed "t" 1 "" [IDetail "b.php" 7] in
  let collect : store := {[ "t-1" := prevData ]} in
  collect !! generateId testResult = Some prevData
  ∧ isFault prevData = true
  ∧ testResult !! "message" = Some (VString "")
  ∧ ∃ stored,
      dispatch collect (Some testResult)
      = (<[generateId testResult := stored]> collect, Return RUndefined)
      ∧ stored !! "message" = prevData !! "message"
      ∧ stored !! "details" = Some (VArray ([IDetail "a.php" 3] ++ [IDetail "b.php" 7]))
      ∧ ∀ k, k ≠ "details" → stored !! k = prevData !! k.
Proof.
  intros prevData testResult collect.
  split_and!; try reflexivity.
  exact (C9_empty_message_is_not_appended collect prevData testResult
           [IDetail "a.php" 3] [IDetail "b.php" 7]
           eq_refl (or_introl eq_refl) eq_refl eq_refl eq_refl eq_refl eq_refl
           (or_intror eq_refl)).
Defined.

(** C10 (the code departs from it).  A record with [event], [name] and
    [flowId] whose event is [constructor], a name the dispatch table inherits
    from [Object.prototype], is handed back to the caller as it came: the
    store is left alone, but the call does not return [undefined]. *)
Theorem C10_inherited_member_forwards_the_record :
  ∀ collect : store,
    isTestResult (lifecycle "constructor" "t" 1) = true
    ∧ ("constructor" ∉ [testSuiteStarted; testSuiteFinished; testStarted;
                        testFinished; testFailed; testIgnored])
    ∧ dispatch collect (Some (lifecycle "constructor" "t" 1))
      = (collect, Return (RRecord (lifecycle "constructor" "t" 1))).
Proof.
  intros collect. split_and!; [done| |done].
  rewrite !not_elem_of_cons. split_and!; try discriminate. apply not_elem_of_nil.
Qed.


(** * Further properties of the code *)

(** ** EscapeValue *)

(** X1.  What [unescape] makes of an escaped text: the original text, in
    which every pipe followed by the letter [n] has become a line feed and
    every pipe followed by the letter [r] a carriage return.  So [unescape]
    undoes [escape] for the texts in which no pipe is followed by one of
    these two letters, and for no other text. *)
Theorem unescape_undoes_escape_without_pipe_letter (s : string) :
  EscapeValue.unescape (EscapeValue.escape s)
  = Str.replaceAll "|r" (Str.of_char Str.CR)
      (Str.replaceAll "|n" (Str.of_char Str.LF) s)
  ∧ (EscapeValue.unescape (EscapeValue.escape s) = s
     ↔ Tokens.no_pipe_letter s = true).
Proof.
  split; [apply RoundTrip.unescape_escape_is | apply RoundTrip.unescape_escape_iff].
Qed.

Lemma unescape_undoes_escape_without_pipe_letter_witness :
  Tokens.no_pipe_letter "it's [a|b]" = true
  ∧ EscapeValue.unescape (EscapeValue.escape "it's [a|b]") = "it's [a|b]".
Proof.
  split; [reflexivity|].
  apply (proj2 (unescape_undoes_escape_without_pipe_letter "it's [a|b]")).
  reflexivity.
Defined.

(** X2.  [escape] loses nothing: two texts with the same escaped text are
    the same text. *)
Theorem escape_is_injective (s1 s2 : string) :
  EscapeValue.escape s1 = EscapeValue.escape s2 → s1 = s2.
Proof.
  rewrite !RoundTrip.escape_tokens. apply EscapeFacts.flat_map_token_inj.
Qed.

Lemma escape_is_injective_witness :
  EscapeValue.escape "it's [a|n]" = EscapeValue.escape "it's [a|n]"
  ∧ "it's [a|n]" = "it's [a|n]".
Proof.
  split; [reflexivity|].
  apply (escape_is_injective "it's [a|n]" "it's [a|n]"). reflexivity.
Defined.

(** X3.  An escaped text is one line: it holds no line feed and no carriage
    return.  It is at least as long as the text, and at most twice as
    long. *)
Theorem escaped_text_is_one_line (s : string) :
  Re.all (fun c => negb (Re.isLineTerminator c)) (EscapeValue.escape s) = true
  ∧ (String.length s ≤ String.length (EscapeValue.escape s) ≤ 2 * String.length s)%nat.
Proof.
  rewrite RoundTrip.escape_tokens.
  induction s as [|c s [IHl IHn]]; [by split; [|cbn; lia]|].
  cbn [Tokens.flat_map].
  rewrite EscapeFacts.all_append, EscapeFacts.length_append.
  rewrite EscapeFacts.token_one_line, IHl.
  pose proof (EscapeFacts.token_length c). cbn [String.length andb]. split; [done|lia].
Qed.

(** X4.  A text without a reserved character is its own escaped text, and a
    text without a pipe is left as it is by [unescape]. *)
Theorem plain_text_is_left_alone (s : string) :
  (Re.all (fun c => negb (Tokens.is_reserved c)) s = true → EscapeValue.escape s = s)
  ∧ (Re.all (fun c => negb (Re.isChar "|" c)) s = true → EscapeValue.unescape s = s).
Proof.
  split.
  - rewrite RoundTrip.escape_tokens.
    induction s as [|c s IH]; [done|]. cbn [Re.all Tokens.flat_map].
    intros [Hc Hs]%andb_true_iff. rewrite (IH Hs).
    destruct (EscapeFacts.token_cases c)
      as [[_ ->]|[[-> _]|[[-> _]|[[-> _]|[[-> _]|[[-> _]|[-> _]]]]]]];
      first [ done | discriminate Hc ].
  - intros Hs.
    assert (∀ y, Run.includes (String "|" (Str.of_char y)) s = false) as Hnone.
    { intros y. induction s as [|c s IH]; [done|].
      cbn [Re.all] in Hs. apply andb_true_iff in Hs as [Hc Hs].
      cbn [Run.includes Str.startsWith]. rewrite (IH Hs), orb_false_r.
      unfold Re.isChar in Hc. by destruct (Str.eqb_char "|" c). }
    unfold EscapeValue.unescape, EscapeValue.patterns_escape,
      EscapeValue.values_escape, EscapeValue.values_unescape.
    cbn [EscapeValue.change_string].
    rewrite (EscapeFacts.replaceAll_none "||") by apply (Hnone "|"%char).
    rewrite (EscapeFacts.replaceAll_none "|'") by apply (Hnone "'"%char).
    rewrite (EscapeFacts.replaceAll_none "|n") by apply (Hnone "n"%char).
    rewrite (EscapeFacts.replaceAll_none "|r") by apply (Hnone "r"%char).
    rewrite (EscapeFacts.replaceAll_none "|]") by apply (Hnone "]"%char).
    by rewrite (EscapeFacts.replaceAll_none "|[") by apply (Hnone "["%char).
Qed.

Lemma plain_text_is_left_alone_witness :
  Re.all (fun c => negb (Tokens.is_reserved c)) "testAddition" = true
  ∧ Re.all (fun c => negb (Re.isChar "|" c)) "testAddition" = true
  ∧ EscapeValue.escape "testAddition" = "testAddition"
  ∧ EscapeValue.unescape "testAddition" = "testAddition".
Proof.
  split; [reflexivity|]. split; [reflexivity|]. split.
  - apply (proj1 (plain_text_is_left_alone "testAddition")). reflexivity.
  - apply (proj2 (plain_text_is_left_alone "testAddition")). reflexivity.
Defined.

(** X5.  Once [escapeSingleQuote] has run, the text holds no escaped quote,
    a pipe followed by a quote, any more; a text that held none is left as
    it is. *)
Theorem escapeSingleQuote_leaves_no_escaped_quote (s : string) :
  Run.includes "|'" (EscapeValue.escapeSingleQuote s) = false
  ∧ (Run.includes "|'" s = false → EscapeValue.escapeSingleQuote s = s).
Proof.
  split.
  - apply (EscapeFacts.quote_aside s).
  - apply (EscapeFacts.replaceAll_none "|'").
Qed.

Lemma escapeSingleQuote_leaves_no_escaped_quote_witness :
  Run.includes "|'" "it|'s" = true
  ∧ Run.includes "|'" (EscapeValue.escapeSingleQuote "it|'s") = false
  ∧ Run.includes "|'" "its" = false
  ∧ EscapeValue.escapeSingleQuote "its" = "its".
Proof.
  split; [reflexivity|]. split.
  - apply (proj1 (escapeSingleQuote_leaves_no_escaped_quote "it|'s")).
  - split; [reflexivity|].
    apply (proj2 (escapeSingleQuote_leaves_no_escaped_quote "its")). reflexivity.
Defined.

(** X6.  What [escapeSingleQuote] puts aside, [unescapeSingleQuote] puts
    back as a quote: for a text without the character [%], a property that
    holds the text after [escapeSingleQuote] holds, after
    [unescapeSingleQuote], the text in which every pipe followed by a quote
    has become a quote. *)
Theorem protected_quote_is_restored (k s : string) :
  Re.all (fun c => negb (Re.isChar "%" c)) s = true →
  EscapeValue.unescapeSingleQuote {[k := VString (EscapeValue.escapeSingleQuote s)]}
  = {[k := VString (Str.replaceAll "|'" "'" s)]}.
Proof.
  intros Hs. unfold EscapeValue.unescapeSingleQuote, EscapeValue.change_record.
  rewrite map_fmap_singleton. f_equal. cbn [EscapeValue.change]. f_equal.
  apply (proj1 (EscapeFacts.quote_restored s Hs)).
Qed.

Lemma protected_quote_is_restored_witness :
  EscapeValue.unescapeSingleQuote
    {["message" := VString (EscapeValue.escapeSingleQuote "it|'s")]}
  = {["message" := VString "it's"]}.
Proof.
  apply (protected_quote_is_restored "message" "it|'s"). reflexivity.
Defined.

(** ** TestResultSummaryParser *)

(** X7.  Whatever the line holds, the record of the summary keeps its [kind]
    and the [text] of the line: no field of the line can take their place,
    since the name of a field is stored as [skipped], [incomplete] or
    [risky], or else as a name that ends with the letter [s].  Each of these
    is a count, and no count is negative. *)
Theorem summary_keeps_kind_and_text (text : string) :
  TestResultSummaryParser.parse text !! "kind"
  = Some (VString TestResultSummaryParser.testResultSummary)
  ∧ TestResultSummaryParser.parse text !! "text" = Some (VString text)
  ∧ ∀ k v,
      TestResultSummaryParser.parse text !! k = Some v →
      k ≠ "kind" → k ≠ "text" →
      (k ∈ ["skipped"; "incomplete"; "risky"]
       ∨ TestResultSummaryParser.endsWith_s k = true)
      ∧ ∃ n, v = VNumber n ∧ (0 ≤ n)%Z.
Proof.
  split; [apply SummaryNames.parse_kind|].
  split; [apply SummaryNames.parse_text|].
  intros k v Hkv Hkind Htext.
  apply SummaryFacts.parse_fields in Hkv
    as [->|[->|(name & count & _ & -> & ->)]]; [done|done|].
  split; [apply SummaryNames.normalize_cases|].
  eexists. split; [done|]. apply SummaryNames.parseInt_nonneg.
Qed.

Lemma summary_keeps_kind_and_text_witness :
  TestResultSummaryParser.parse "Tests: 3, Assertions: 5, Failures: 1." !! "failures"
  = Some (VNumber 1)
  ∧ ("failures" ∈ ["skipped"; "incomplete"; "risky"]
     ∨ TestResultSummaryParser.endsWith_s "failures" = true)
  ∧ ∃ n, VNumber 1 = VNumber n ∧ (0 ≤ n)%Z.
Proof.
  split; [reflexivity|].
  apply (proj2 (proj2 (summary_keeps_kind_and_text
                         "Tests: 3, Assertions: 5, Failures: 1.")) "failures");
    [reflexivity|discriminate|discriminate].
Defined.

(** X8.  A line of fields, each a name, a colon, a space and a count, with a
    comma and a space between the fields and a full stop at the end, where
    every name is a word and every count a number below 2^53: each field
    sets the property of its normalized name to its count, in the order of
    the line, and nothing else is set.  So when no two fields have the same
    normalized name, the record holds the count of every field.  When the line starts
    with the fields [Tests] and [Assertions], it is taken for a summary. *)
Theorem summary_of_a_line_of_fields (l : list (string * string)) :
  Forall Text.well_formed_field l →
  Forall (fun f => Text.exact_count f.2) l →
  let text := Text.summary_line l in
  TestResultSummaryParser.parse text
  = foldl (fun (result : record) '(name, count) =>
             <[TestResultSummaryParser.normalize name := VNumber (Re.parseInt count)]>
               result)
          (<["kind" := VString TestResultSummaryParser.testResultSummary]>
             (<["text" := VString text]> ∅))
          l
  ∧ (NoDup (TestResultSummaryParser.normalize <$> l.*1) →
     ∀ name count,
       (name, count) ∈ l →
       TestResultSummaryParser.parse text !! TestResultSummaryParser.normalize name
       = Some (VNumber (Re.parseInt count)))
  ∧ (∀ tests assertions l',
       l = ("Tests", tests) :: ("Assertions", assertions) :: l' →
       TestResultSummaryParser.is_ text = true).
Proof.
  intros Hl _ text.
  assert (TestResultSummaryParser.parse text
          = foldl (fun (result : record) '(name, count) =>
                     <[TestResultSummaryParser.normalize name
                         := VNumber (Re.parseInt count)]> result)
                  (<["kind" := VString TestResultSummaryParser.testResultSummary]>
                     (<["text" := VString text]> ∅))
                  l) as Hparse.
  { unfold TestResultSummaryParser.parse. subst text.
    by rewrite (SummaryLine.matchAll_summary_line l Hl). }
  split; [done|]. split.
  - intros Hnd name count Hin. rewrite Hparse.
    by apply SummaryLine.parse_fold_lookup.
  - intros tests assertions l' ->. subst text.
    apply Forall_cons in Hl as [(_ & _ & Ht & Htests) Hl].
    apply Forall_cons in Hl as [(_ & _ & Ha & Hassertions) _].
    by apply SummaryLine.is_summary_line.
Qed.

Lemma summary_of_a_line_of_fields_witness :
  Text.summary_line
    [("Tests", "5"); ("Assertions", "10"); ("Failures", "2"); ("Skipped", "1")]
  = "Tests: 5, Assertions: 10, Failures: 2, Skipped: 1."
  ∧ TestResultSummaryParser.parse "Tests: 5, Assertions: 10, Failures: 2, Skipped: 1."
    !! "failures"
    = Some (VNumber 2)
  ∧ TestResultSummaryParser.is_ "Tests: 5, Assertions: 10, Failures: 2, Skipped: 1."
    = true.
Proof.
  assert (Forall Text.well_formed_field
            [("Tests", "5"); ("Assertions", "10"); ("Failures", "2"); ("Skipped", "1")])
    as Hl by (repeat constructor; discriminate).
  assert (Forall (fun f : string * string => Text.exact_count f.2)
            [("Tests", "5"); ("Assertions", "10"); ("Failures", "2"); ("Skipped", "1")])
    as Hexact by (repeat constructor).
  pose proof (summary_of_a_line_of_fields _ Hl Hexact) as (_ & Hlookup & His).
  split; [reflexivity|]. split.
  - apply (Hlookup ltac:(vm_compute; repeat constructor; SummaryNames.not_in_list)
             "Failures" "2").
    repeat constructor.
  - by eapply His.
Defined.

(** X9.  The line of a run without faults, [OK (5 tests, 10 assertions)],
    with any two numbers below 2^53 and with [test] and [assertion] in the
    singular or in the plural: it is taken for a summary, and its record
    holds the two numbers as [tests] and [assertions], besides the kind and
    the text. *)
Theorem summary_of_a_run_without_faults (tests ts assertions as_ : string) :
  tests ≠ "" → Re.all Re.isDigit tests = true → Text.exact_count tests →
  assertions ≠ "" → Re.all Re.isDigit assertions = true → Text.exact_count assertions →
  ts = "" ∨ ts = "s" →
  as_ = "" ∨ as_ = "s" →
  let text := Text.terse_line tests ts assertions as_ in
  TestResultSummaryParser.is_ text = true
  ∧ TestResultSummaryParser.parse text
    = <["assertions" := VNumber (Re.parseInt assertions)]>
        (<["tests" := VNumber (Re.parseInt tests)]>
           (<["kind" := VString TestResultSummaryParser.testResultSummary]>
              (<["text" := VString text]> ∅))).
Proof.
  intros Ht Htests _ Ha Hassertions _ Hts Has text. subst text. split.
  - unfold TestResultSummaryParser.is_.
    by rewrite (SummaryLine.is_terse_line tests ts assertions as_).
  - unfold TestResultSummaryParser.parse.
    rewrite (SummaryLine.matchAll_terse_line tests ts assertions as_) by done.
    cbn [foldl]. by destruct Hts as [-> | ->], Has as [-> | ->].
Qed.

Lemma summary_of_a_run_without_faults_witness :
  Text.terse_line "1" "" "3" "s" = "OK (1 test, 3 assertions)"
  ∧ TestResultSummaryParser.is_ "OK (1 test, 3 assertions)" = true
  ∧ TestResultSummaryParser.parse "OK (1 test, 3 assertions)"
    = <["assertions" := VNumber 3]>
        (<["tests" := VNumber 1]>
           (<["kind" := VString TestResultSummaryParser.testResultSummary]>
              (<["text" := VString "OK (1 test, 3 assertions)"]> ∅))).
Proof.
  split; [reflexivity|].
  apply (summary_of_a_run_without_faults "1" "" "3" "s");
    [discriminate|reflexivity|reflexivity|discriminate|reflexivity|reflexivity
    |by left|by right].
Defined.

(** ** The recognizers of the other lines *)

(** X10.  A line made of the label of a value recognizer, in any case, a
    colon, white space and a value, where the value starts with no white
    space and runs to the end of the line: the recognizer knows the line,
    and its record holds the value whole under the name of the recognizer in
    lower case, besides its kind and the text.  The recognizers are those of
    [Runtime], [Configuration] and [Processes]. *)
Theorem value_of_a_labelled_line (name kind label space : string) (c : ascii)
    (value : string) :
  (name, kind) ∈ [ ("Runtime", "testRuntime");
                   ("Configuration", "testConfiguration");
                   ("Processes", "testProcesses") ] →
  Re.toLowerCase label = Re.toLowerCase name →
  space ≠ "" →
  Re.all Re.isSpace space = true →
  Re.isSpace c = false →
  Re.all (fun c => negb (Re.isLineTerminator c)) (String c value) = true →
  let text := label +:+ ":" +:+ space +:+ String c value in
  ValueParser.is_ name text = true
  ∧ ValueParser.parse name kind text
    = Return (<["kind" := VString kind]>
                (<[Re.toLowerCase name := VString (String c value)]>
                   (<["text" := VString text]> ∅))).
Proof.
  intros _ Hlabel Hne Hspace Hc Hvalue text.
  unfold ValueParser.is_, ValueParser.parse. subst text.
  rewrite (RecognizerFacts.group_value name label space c value) by done.
  split; [|done]. by apply bool_decide_eq_true.
Qed.

Lemma value_of_a_labelled_line_witness :
  ValueParser.is_ "Runtime" "runtime:       PHP 8.1.12" = true
  ∧ ValueParser.parse "Runtime" "testRuntime" "runtime:       PHP 8.1.12"
    = Return (<["kind" := VString "testRuntime"]>
                (<["runtime" := VString "PHP 8.1.12"]>
                   (<["text" := VString "runtime:       PHP 8.1.12"]> ∅))).
Proof.
  apply (value_of_a_labelled_line "Runtime" "testRuntime" "runtime" "       "
           "P" "HP 8.1.12");
    [repeat constructor|reflexivity|discriminate|reflexivity|reflexivity|reflexivity].
Defined.

(** X11.  A line that starts with [PHPUnit], in any case, a white space and
    a version, a text of digits and dots that is followed by neither: the
    recognizer of the version knows the line; in its record [phpunit] is the
    version and [paratest] is [undefined]. *)
Theorem version_of_a_phpunit_line (label : string) (space : ascii)
    (version rest : string) :
  Re.toLowerCase label = "phpunit" →
  Re.isSpace space = true →
  version ≠ "" →
  Re.all TestVersionParser.isVersionChar version = true →
  Re.one TestVersionParser.isVersionChar rest = None →
  let text := label +:+ String space (version +:+ rest) in
  TestVersionParser.is_ text = true
  ∧ TestVersionParser.parse text
    = Return (<["kind" := VString TestVersionParser.testVersion]>
                (<["phpunit" := VString version]>
                   (<["paratest" := VUndefined]> (<["text" := VString text]> ∅)))).
Proof.
  intros Hlabel Hspace Hne Hversion Hrest text.
  unfold TestVersionParser.is_, TestVersionParser.parse. subst text.
  rewrite (RecognizerFacts.groups_phpunit label space version rest) by done.
  split; [|done]. by apply bool_decide_eq_true.
Qed.

Lemma version_of_a_phpunit_line_witness :
  TestVersionParser.is_ "PHPUnit 9.5.26 by Sebastian Bergmann and contributors." = true
  ∧ TestVersionParser.parse "PHPUnit 9.5.26 by Sebastian Bergmann and contributors."
    = Return (<["kind" := VString TestVersionParser.testVersion]>
                (<["phpunit" := VString "9.5.26"]>
                   (<["paratest" := VUndefined]>
                      (<["text" :=
                           VString "PHPUnit 9.5.26 by Sebastian Bergmann and contributors."]>
                         ∅)))).
Proof.
  apply (version_of_a_phpunit_line "PHPUnit" " " "9.5.26"
           " by Sebastian Bergmann and contributors.");
    [reflexivity|reflexivity|discriminate|reflexivity|reflexivity].
Defined.

(** X12.  A line of ParaTest: [ParaTest], a white space, the version of
    ParaTest with or without the letter [v] before it, some text on the same
    line that starts with no digit and no dot, [PHPUnit], a white space and
    the version of PHPUnit, followed by a text that starts with no digit and
    no dot and holds no letter [p].  The recognizer of the version knows the
    line; in its record [paratest] and [phpunit] are the two versions. *)
Theorem versions_of_a_paratest_line (label1 : string) (space1 : ascii)
    (v paratest : string) (m : ascii) (mid label2 : string) (space2 : ascii)
    (version rest : string) :
  Re.toLowerCase label1 = "paratest" →
  Re.isSpace space1 = true →
  v = "" ∨ Re.toLowerCase v = "v" →
  paratest ≠ "" →
  Re.all TestVersionParser.isVersionChar paratest = true →
  TestVersionParser.isVersionChar m = false →
  Re.all (fun c => negb (Re.isLineTerminator c)) (String m mid) = true →
  Re.toLowerCase label2 = "phpunit" →
  Re.isSpace space2 = true →
  version ≠ "" →
  Re.all TestVersionParser.isVersionChar version = true →
  Re.one TestVersionParser.isVersionChar rest = None →
  Re.all (fun c => negb (Re.isChar "p" (Re.lower c))) rest = true →
  let text :=
    label1 +:+ String space1 (v +:+ paratest +:+ String m mid
      +:+ label2 +:+ String space2 (version +:+ rest)) in
  TestVersionParser.is_ text = true
  ∧ TestVersionParser.parse text
    = Return (<["kind" := VString TestVersionParser.testVersion]>
                (<["phpunit" := VString version]>
                   (<["paratest" := VString paratest]>
                      (<["text" := VString text]> ∅)))).
Proof.
  intros Hl1 Hs1 Hv Hp Hps Hm Hmid Hl2 Hs2 Hver Hvers Hrest Hnop text.
  unfold TestVersionParser.is_, TestVersionParser.parse. subst text.
  rewrite (RecognizerFacts.groups_paratest label1 space1 v paratest m mid label2
             space2 version rest) by done.
  split; [|done]. by apply bool_decide_eq_true.
Qed.

Lemma versions_of_a_paratest_line_witness :
  TestVersionParser.is_
    "ParaTest v6.6.5 upon PHPUnit 9.5.26 by Sebastian Bergmann and contributors."
  = true
  ∧ TestVersionParser.parse
      "ParaTest v6.6.5 upon PHPUnit 9.5.26 by Sebastian Bergmann and contributors."
    = Return (<["kind" := VString TestVersionParser.testVersion]>
                (<["phpunit" := VString "9.5.26"]>
                   (<["paratest" := VString "6.6.5"]>
                      (<["text" :=
                           VString "ParaTest v6.6.5 upon PHPUnit 9.5.26 by Sebastian Bergmann and contributors."]>
                         ∅)))).
Proof.
  apply (versions_of_a_paratest_line "ParaTest" " " "v" "6.6.5" " " "upon "
           "PHPUnit" " " "9.5.26" " by Sebastian Bergmann and contributors.");
    [reflexivity|reflexivity|right; reflexivity|discriminate|reflexivity|reflexivity
    |reflexivity|reflexivity|reflexivity|discriminate|reflexivity|reflexivity
    |reflexivity].
Defined.

(** X13.  A line that starts with [Time:], a white space, the time, a comma,
    a white space, [Memory:], a white space and the memory: the recognizer
    knows the line, and its record holds the time and the memory.  The time
    is a text of digits, [+], [:] and [.], alone or with a unit, a word
    after one white space; the memory is a text of digits and dots, one
    white space and a unit, a word that ends where the next character is no
    character of a word. *)
Theorem time_and_memory_of_a_line (s1 s2 s3 s4 : ascii)
    (time tail size unit rest : string) :
  Re.isSpace s1 = true → Re.isSpace s2 = true →
  Re.isSpace s3 = true → Re.isSpace s4 = true →
  time ≠ "" → Re.all TimeAndMemoryParser.isTimeChar time = true →
  tail = ""
  ∨ (∃ s0 word, tail = String s0 word ∧ Re.isSpace s0 = true
                ∧ word ≠ "" ∧ Re.all Re.isWord word = true) →
  size ≠ "" → Re.all TestVersionParser.isVersionChar size = true →
  unit ≠ "" → Re.all Re.isWord unit = true →
  Re.one Re.isWord rest = None →
  let text :=
    "Time:" +:+ String s1 (time +:+ tail +:+ "," +:+ String s2 ("Memory:" +:+
      String s3 (size +:+ String s4 (unit +:+ rest)))) in
  TimeAndMemoryParser.is_ text = true
  ∧ TimeAndMemoryParser.parse text
    = Return (<["time" := VString (time +:+ tail)]>
                (<["memory" := VString (size +:+ String s4 unit)]>
                   (<["kind" := VString TimeAndMemoryParser.timeAndMemory]>
                      (<["text" := VString text]> ∅)))).
Proof.
  intros H1 H2 H3 H4 Htime Htimes Htail Hsize Hsizes Hunit Hunits Hrest text.
  assert (TimeAndMemoryParser.groups text = Some (time +:+ tail, size +:+ String s4 unit))
    as Hgroups.
  { subst text.
    pose proof (RecognizerFacts.match_at_time s1 time tail s2 s3 size s4 unit rest
                  H1 H2 H3 H4 Htime Htimes Htail Hsize Hsizes Hunit Hunits Hrest) as Hm.
    set (t := "Time:" +:+ _) in *. destruct t; cbn [TimeAndMemoryParser.groups];
      by rewrite Hm. }
  unfold TimeAndMemoryParser.is_, TimeAndMemoryParser.parse. rewrite Hgroups.
  split; [|done]. by apply bool_decide_eq_true.
Qed.

Lemma time_and_memory_of_a_line_witness :
  TimeAndMemoryParser.is_ "Time: 49 ms, Memory: 6.00 MB" = true
  ∧ TimeAndMemoryParser.parse "Time: 49 ms, Memory: 6.00 MB"
    = Return (<["time" := VString "49 ms"]>
                (<["memory" := VString "6.00 MB"]>
                   (<["kind" := VString TimeAndMemoryParser.timeAndMemory]>
                      (<["text" := VString "Time: 49 ms, Memory: 6.00 MB"]> ∅)))).
Proof.
  apply (time_and_memory_of_a_line " " " " " " " " "49" " ms" "6.00" "MB" "");
    [reflexivity|reflexivity|reflexivity|reflexivity|discriminate|reflexivity
    |right; exists " "%char, "ms"; by split_and!
    |discriminate|reflexivity|discriminate|reflexivity|reflexivity].
Defined.

(** ** Parser: which lines are service messages *)

(** X14.  The lines taken for service messages are those that are made of
    white space, if any, one [#] or more, the word [teamcity] and any text;
    and no other line. *)
Theorem service_message_lines (text : string) :
  Parser.is_ text = true
  ↔ ∃ space hashes rest,
      text = space +:+ hashes +:+ "teamcity" +:+ rest
      ∧ Re.all Re.isSpace space = true
      ∧ hashes ≠ ""
      ∧ Re.all (Re.isChar "#") hashes = true.
Proof.
  unfold Parser.is_. rewrite bool_decide_eq_true. split.
  - intros [rest Hrest].
    destruct (RecognizerFacts.pattern_text text rest Hrest) as (space & hashes & H).
    by exists space, hashes, rest.
  - intros (space & hashes & rest & -> & Hspace & Hne & Hhashes).
    exists rest. by apply RecognizerFacts.pattern_prefix.
Qed.

Lemma service_message_lines_witness :
  Parser.is_ "  ##teamcity[testCount count='3' flowId='1']" = true.
Proof.
  apply (proj2 (service_message_lines "  ##teamcity[testCount count='3' flowId='1']")).
  exists "  ", "##", "[testCount count='3' flowId='1']".
  split; [reflexivity|]. split; [reflexivity|]. split; [discriminate|reflexivity].
Defined.

(** ** Parser: the location hint *)

(** X15.  The location hint, once the scheme [php_qn://] is taken off its
    start and every [::\] has become [::], is cut at its first [::]: [file]
    is what stands before it and holds no [::], [id] is what stands after
    it, so that [file], [::] and [id] make up the hint again; without any
    [::] the whole hint is the [file] and [id] is empty.  [testId] is the
    start of [id]: what [id] has more, if anything, is a text that the
    pattern of the data set matches from its first character on. *)
Theorem locationHint_is_cut_at_the_first_separator (argv : record) (hint : string) :
  argv !! "locationHint" = Some (VString hint) →
  hint ≠ "" →
  ∃ file id testId rest,
    Parser.parseLocationHint argv
    = Return (<["id" := VString id]>
                (<["file" := VString file]> (<["testId" := VString testId]> ∅)))
    ∧ Run.includes "::" file = false
    ∧ (let text :=
         Str.replaceAll Parser.colons_backslash "::" (Parser.strip_scheme hint) in
       if Run.includes "::" text
       then text = file +:+ "::" +:+ id
       else file = text ∧ id = "")
    ∧ id = testId +:+ rest
    ∧ (rest = "" ∨ Parser.dataset_at rest = true).
Proof.
  intros Hh Hne. unfold Parser.parseLocationHint.
  rewrite !(Correlator.get_lookup _ _ _ Hh). cbn [truthy].
  apply String.eqb_neq in Hne as ->. cbn [negb].
  set (text := Str.replaceAll _ _ _).
  pose proof (HintPieces.first_piece_whole text) as Hfile.
  pose proof (HintPieces.split_join ":" ":" text) as Hjoin.
  pose proof (HintPieces.split_none "::" text) as Hnone.
  pose proof (HintPieces.split_some ":" ":" text) as Hsome.
  destruct (Parser.split "::" text) as [file pieces]. cbn [fst snd] in *.
  destruct (HintPieces.strip_dataset_cut (join "::" pieces)) as (rest & Hid & Hrest).
  exists file, (join "::" pieces), (Parser.strip_dataset (join "::" pieces)), rest.
  split; [done|]. split; [done|]. split; [|done].
  cbn zeta. destruct (Run.includes "::" text).
  - destruct pieces as [|p ps]; [by destruct Hsome|]. by rewrite <- Hjoin.
  - by injection (Hnone eq_refl) as -> ->.
Qed.

Lemma locationHint_is_cut_at_the_first_separator_witness :
  ∃ file id testId rest,
    Parser.parseLocationHint
      {["locationHint" := VString "php_qn:///p/T.php::\T::test_x with data set #1"]}
    = Return (<["id" := VString id]>
                (<["file" := VString file]> (<["testId" := VString testId]> ∅)))
    ∧ Run.includes "::" file = false
    ∧ (let text :=
         Str.replaceAll Parser.colons_backslash "::"
           (Parser.strip_scheme "php_qn:///p/T.php::\T::test_x with data set #1") in
       if Run.includes "::" text
       then text = file +:+ "::" +:+ id
       else file = text ∧ id = "")
    ∧ id = testId +:+ rest
    ∧ (rest = "" ∨ Parser.dataset_at rest = true).
Proof.
  apply (locationHint_is_cut_at_the_first_separator
           {["locationHint" := VString "php_qn:///p/T.php::\T::test_x with data set #1"]}
           "php_qn:///p/T.php::\T::test_x with data set #1");
    [reflexivity|discriminate].
Defined.

(** ** Parser: the details of a fault *)

(** X16.  A text of one line, made of a path, a colon and a line number
    below 2^53, with no white space at its start, gives one detail.  Its line
    is the number;
    its file is the path without the letters [s] it starts with, or the one
    letter [s] when the path holds nothing else, cleaned of leading dashes
    and of white space around.  So the path [src/A.php] is reported as
    [rc/A.php]. *)
Theorem detail_of_a_path_and_a_line (c : ascii) (path line : string) :
  Re.isSpace c = false →
  Re.all (fun c => negb (Re.isLineTerminator c)) (String c path) = true →
  line ≠ "" →
  Re.all Re.isDigit line = true →
  Text.exact_count line →
  Parser.parseFileAndLine (String c path +:+ ":" +:+ line)
  = [ (Parser.clean_file
         match (Re.span (Re.isChar "s") (String c path)).2 with
         | EmptyString => "s"
         | file => file
         end,
       Re.parseInt line) ].
Proof.
  intros Hc Hone Hline Hdigits _. unfold Parser.parseFileAndLine.
  destruct (DetailFacts.snoc_cases line Hline) as (a & d & Ha).
  assert (Re.isSpace d = false) as Hd.
  { apply DetailFacts.digit_is_no_space. rewrite Ha in Hdigits.
    rewrite EscapeFacts.all_append in Hdigits.
    apply andb_true_iff in Hdigits as [_ Hdigits]. cbn [Re.all] in Hdigits.
    by rewrite andb_true_r in Hdigits. }
  assert (Parser.split_lines (String c path +:+ ":" +:+ line)
          = (String c path +:+ ":" +:+ line, [])) as Hlines.
  { apply DetailFacts.split_lines_one_line.
    rewrite !EscapeFacts.all_append. apply andb_true_iff. split.
    - eapply DetailFacts.all_impl; [|exact Hone]. intros x Hx.
      apply negb_true_iff in Hx. apply negb_true_iff.
      destruct (Re.isChar Str.LF x) eqn:Hlf; [|done].
      apply Ascii.eqb_eq in Hlf as <-. done.
    - apply andb_true_iff. split; [done|].
      eapply DetailFacts.all_impl; [|exact Hdigits]. intros x Hx.
      apply negb_true_iff. destruct (Re.isChar Str.LF x) eqn:Hlf; [|done].
      apply Ascii.eqb_eq in Hlf as <-. done. }
  rewrite StrFacts.append_cons.
  rewrite (DetailFacts.trim_id c (path +:+ ":" +:+ line)
             (String c path +:+ ":" +:+ a) d Hc Hd)
    by (by rewrite Ha, !StrFacts.append_cons, !StrFacts.append_assoc).
  rewrite <- StrFacts.append_cons, Hlines.
  cbn [omap list_omap].
  by rewrite (DetailFacts.filePattern_path_line (String c path) line).
Qed.

Lemma detail_of_a_path_and_a_line_witness :
  Parser.parseFileAndLine "src/A.php:12" = [ ("rc/A.php", 12%Z) ].
Proof.
  apply (detail_of_a_path_and_a_line "s" "rc/A.php" "12");
    [reflexivity|reflexivity|discriminate|reflexivity|reflexivity].
Defined.

(** ** Parser: the decoded service message *)

(** X17.  The record of a service message holds every argument the tokenizer
    found, untouched, under its own name: only [kind], which repeats
    [event], and [id], [file], [testId], [message] and [details], which come
    from the location hint and from the details, are set by the parser.
    When the message has neither a location hint nor details, the record
    is the arguments and [kind]. *)
Theorem doParse_passes_the_arguments_on (toTeamcityArgv : string → record)
    (text : string) (r : record) :
  Parser.doParse toTeamcityArgv text = Return r →
  let argv :=
    toTeamcityArgv
      (Parser.strip_brackets
         match Parser.pattern (Re.trim text) with
         | Some s => s
         | None => Re.trim text
         end) in
  r !! "kind" = Some (get argv "event")
  ∧ (∀ k, k ∉ ["kind"; "id"; "file"; "testId"; "message"; "details"] →
          r !! k = argv !! k)
  ∧ (argv !! "locationHint" = None → argv !! "details" = None →
     r = <["kind" := get argv "event"]> argv).
Proof.
  unfold Parser.doParse. cbn zeta.
  set (argv := toTeamcityArgv _).
  destruct (Parser.parseLocationHint _) as [hint|] eqn:Hh; [|done].
  destruct (Parser.parseDetails _) as [details|] eqn:Hd; [|done].
  intros [= <-]. unfold spread. split_and!.
  - rewrite lookup_union_r
      by (by apply (ParserFacts.parseDetails_keys _ _ "kind" Hd)).
    rewrite lookup_union_r
      by (by apply (ParserFacts.parseLocationHint_keys _ _ "kind" Hh)).
    by rewrite lookup_insert_eq.
  - intros k Hk.
    assert (k ≠ "kind" ∧ k ≠ "id" ∧ k ≠ "file" ∧ k ≠ "testId"
            ∧ k ≠ "message" ∧ k ≠ "details") as (? & ? & ? & ? & ? & ?).
    { split_and!; intros ->; apply Hk; repeat constructor. }
    rewrite lookup_union_r
      by (by apply (ParserFacts.parseDetails_keys _ _ k Hd)).
    rewrite lookup_union_r
      by (by apply (ParserFacts.parseLocationHint_keys _ _ k Hh)).
    by rewrite lookup_insert_ne.
  - intros Hhint Hdetails.
    unfold Parser.parseLocationHint, get in Hh.
    rewrite lookup_insert_ne, Hhint in Hh by done. cbn in Hh. injection Hh as <-.
    unfold Parser.parseDetails, has in Hd.
    rewrite lookup_insert_ne, Hdetails in Hd by done.
    rewrite bool_decide_eq_false_2 in Hd by (by intros [? ?]).
    cbn in Hd. injection Hd as <-.
    by rewrite !(left_id ∅ (∪)).
Qed.

Lemma doParse_passes_the_arguments_on_witness :
  let toTeamcityArgv : string → record :=
    fun _ => <["event" := VString "testStarted"]>
               (<["name" := VString "t"]> (<["flowId" := VNumber 1]> ∅)) in
  let r : record :=
    <["kind" := VString "testStarted"]> (toTeamcityArgv "") in
  Parser.doParse toTeamcityArgv "##teamcity[testStarted name='t' flowId='1']" = Return r
  ∧ r !! "kind" = Some (VString "testStarted")
  ∧ r !! "name" = Some (VString "t")
  ∧ r = <["kind" := VString "testStarted"]> (toTeamcityArgv "").
Proof.
  cbn zeta.
  pose proof (doParse_passes_the_arguments_on
                (fun _ => <["event" := VString "testStarted"]>
                            (<["name" := VString "t"]> (<["flowId" := VNumber 1]> ∅)))
                "##teamcity[testStarted name='t' flowId='1']" _ eq_refl)
    as (Hkind & Hkeep & Hplain).
  split; [reflexivity|]. split; [exact Hkind|]. split.
  - apply (Hkeep "name"). SummaryNames.not_in_list.
  - apply Hplain; reflexivity.
Defined.

(** X18.  Decoding a service message throws in two cases, and in no other:
    the tokenizer found a location hint that is no text, a number that is
    not 0, [true] or a list; or it found details, and the message or the
    details are no text, or there is no message. *)
Theorem doParse_throws_exactly_when (toTeamcityArgv : string → record) (text : string) :
  let argv :=
    toTeamcityArgv
      (Parser.strip_brackets
         match Parser.pattern (Re.trim text) with
         | Some s => s
         | None => Re.trim text
         end) in
  Parser.doParse toTeamcityArgv text = Throw_TypeError
  ↔ (truthy (get argv "locationHint") = true
     ∧ ∀ hint, get argv "locationHint" ≠ VString hint)
    ∨ (has "details" argv = true
       ∧ ¬ ∃ message details,
             get argv "message" = VString message
             ∧ get argv "details" = VString details).
Proof.
  cbn zeta. unfold Parser.doParse. cbn zeta.
  set (argv := toTeamcityArgv _).
  set (argv' := <["kind" := get argv "event"]> argv).
  assert (get argv' "locationHint" = get argv "locationHint") as Hhint
    by (unfold get, argv'; by rewrite lookup_insert_ne).
  assert (get argv' "message" = get argv "message") as Hmessage
    by (unfold get, argv'; by rewrite lookup_insert_ne).
  assert (get argv' "details" = get argv "details") as Hdetails
    by (unfold get, argv'; by rewrite lookup_insert_ne).
  assert (has "details" argv' = has "details" argv) as Hhas
    by (unfold has, argv'; by rewrite lookup_insert_ne).
  rewrite <- Hhint, <- Hmessage, <- Hdetails, <- Hhas.
  rewrite <- Throws.parseLocationHint_throws, <- Throws.parseDetails_throws.
  destruct (Parser.parseLocationHint argv') as [hint|]; [|by split; [left|]].
  destruct (Parser.parseDetails argv') as [details|]; [|by split; [right|]].
  split; [done|]. by intros [?|?].
Qed.

Lemma doParse_throws_exactly_when_witness :
  Parser.doParse (fun _ => <["event" := VString "testFailed"]>
                             (<["message" := VNumber 5]>
                                (<["details" := VString " "]> ∅)))
    "##teamcity[testFailed message='5' details=' ']"
  = Throw_TypeError.
Proof.
  apply (proj2 (doParse_throws_exactly_when
                  (fun _ => <["event" := VString "testFailed"]>
                              (<["message" := VNumber 5]>
                                 (<["details" := VString " "]> ∅)))
                  "##teamcity[testFailed message='5' details=' ']")).
  right. split; [reflexivity|]. by intros (? & ? & ? & ?).
Defined.

(** ** The lines that are no service message *)



(** ** ProblemMatcher *)

(** X20.  A test that passes: the Started record, or the SuiteStarted one,
    and then the Finished or SuiteFinished record of the same key.  The
    first is answered as it came.  The second is answered with the terminal
    record: the properties of the Finished record, those of the Started
    record that the Finished record lacks, and the event of the Finished
    record as [event] and [kind].  Whatever the store held under the key
    before is gone, and so is the entry itself. *)
Theorem started_then_finished_is_merged (collect : store) (started finished : record) :
  isTestResult started = true →
  get started "event" = VString testStarted
  ∨ get started "event" = VString testSuiteStarted →
  isTestResult finished = true →
  get finished "event" = VString testFinished
  ∨ get finished "event" = VString testSuiteFinished →
  generateId finished = generateId started →
  dispatch_all collect [Some started; Some finished]
  = (delete (generateId started) collect,
     [ Return (RRecord started);
       Return (RRecord (<["kind" := get finished "event"]>
                          (<["event" := get finished "event"]>
                             (finished ∪ started)))) ]).
Proof.
  intros Hs Hse Hf Hfe Hid.
  rewrite !dispatch_all_cons.
  rewrite (dispatch_started _ _ Hs Hse). unfold handleStarted. cbn [fst snd].
  rewrite (dispatch_finished _ _ Hf Hfe). unfold handleFinished.
  rewrite Hid, lookup_insert_eq.
  assert (isFault started = false) as ->.
  { unfold isFault. by destruct Hse as [-> | ->]. }
  cbn [fst snd dispatch_all]. by rewrite delete_insert_eq.
Qed.

Lemma started_then_finished_is_merged_witness :
  dispatch_all ∅ [Some (<["locationHint" := VString "php_qn://T.php::\T::t"]>
                          (lifecycle testStarted "t" 1));
                  Some (finished "t" 1 12)]
  = (delete (generateId (<["locationHint" := VString "php_qn://T.php::\T::t"]>
                           (lifecycle testStarted "t" 1))) ∅,
     [ Return (RRecord (<["locationHint" := VString "php_qn://T.php::\T::t"]>
                          (lifecycle testStarted "t" 1)));
       Return (RRecord (<["kind" := get (finished "t" 1 12) "event"]>
                          (<["event" := get (finished "t" 1 12) "event"]>
                             (finished "t" 1 12
                              ∪ <["locationHint" := VString "php_qn://T.php::\T::t"]>
                                  (lifecycle testStarted "t" 1))))) ]).
Proof.
  apply (started_then_finished_is_merged ∅
           (<["locationHint" := VString "php_qn://T.php::\T::t"]>
              (lifecycle testStarted "t" 1))
           (finished "t" 1 12));
    [reflexivity|left; reflexivity|reflexivity|left; reflexivity|reflexivity].
Defined.

(** X21.  A test with any number of faults: Started, one fault, more faults,
    Finished, all of one key.  Every fault is answered with [undefined]; the
    Finished record is answered with one terminal record.  Its event and
    kind are those of the first fault, whatever the later ones are; its
    message is the messages of the faults in their order, two line feeds
    between them, where a later fault with an empty message adds nothing;
    its details are the details of all the faults in their order; its
    duration is that of the Finished record.  The store is left without the
    entry of the key. *)
Theorem faults_of_one_test_are_gathered (collect : store) (name : string)
    (flowId duration : Z) (event message : string) (details : list item)
    (later : list (string * string * list item)) :
  is_fault_event event →
  Forall (λ f, is_fault_event f.1.1) later →
  ∃ terminal,
    dispatch_all collect
      (Some (lifecycle testStarted name flowId)
       :: (Some <$> fault_records name flowId ((event, message, details) :: later))
       ++ [Some (finished name flowId duration)])
    = (delete (name +:+ "-" +:+ decimal flowId) collect,
       Return (RRecord (lifecycle testStarted name flowId))
       :: replicate (S (length later)) (Return RUndefined)
       ++ [Return (RRecord terminal)])
    ∧ terminal !! "event" = Some (VString event)
    ∧ terminal !! "kind" = Some (VString event)
    ∧ terminal !! "message" = Some (VString (gathered_message message (later.*1.*2)))
    ∧ terminal !! "details" = Some (VArray (details ++ concat (later.*2)))
    ∧ terminal !! "duration" = Some (VNumber duration).
Proof.
  intros Hevent Hlater.
  set (k := name +:+ "-" +:+ decimal flowId).
  pose proof (Gather.lifecycle_lifecycle_of testStarted name flowId) as Hs.
  pose proof (Gather.fault_lifecycle_of event name flowId message details) as Hf.
  pose proof (Gather.finished_lifecycle_of name flowId duration) as Hfin.
  set (started := lifecycle testStarted name flowId).
  set (first := fault event name flowId message details).
  set (p := spread started first).
  (* Started *)
  assert (dispatch collect (Some started)
          = (<[k := started]> collect, Return (RRecord started))) as H1.
  { rewrite dispatch_started;
      [|by eapply lifecycle_of_isTestResult|left; by eapply lifecycle_of_event].
    unfold handleStarted. by rewrite (lifecycle_of_generateId _ _ _ started Hs). }
  (* the first fault is laid over the Started record *)
  assert (dispatch (<[k := started]> collect) (Some first)
          = (<[k := p]> collect, Return RUndefined)) as H2.
  { rewrite dispatch_fault;
      [|by eapply lifecycle_of_isTestResult
       |rewrite (lifecycle_of_event _ _ _ first Hf); by destruct Hevent as [-> | ->]; [left|right]].
    unfold handleFault. rewrite (lifecycle_of_generateId _ _ _ first Hf). fold k.
    rewrite lookup_insert_eq.
    change (is_string (get started "kind") testStarted) with true. cbn match.
    by rewrite insert_insert_eq. }
  (* the later faults *)
  assert (p !! "event" = Some (VString event)) as Hpe by done.
  assert (p !! "kind" = Some (VString event)) as Hpk by done.
  destruct (Gather.gather_run name flowId later (<[k := p]> collect) k p message details)
    as (p' & H3 & HM & HD & He & Hk); try done.
  { apply lookup_insert_eq. }
  { unfold get. rewrite Hpk. by apply fault_event_not_started. }
  rewrite insert_insert_eq in H3.
  (* Finished *)
  rewrite Hpe in He. rewrite Hpk in Hk.
  destruct (handleFinished_fault (<[k := p']> collect) p' (finished name flowId duration))
    as (terminal & H4 & Hte & Htk & Hrest).
  { rewrite (lifecycle_of_generateId _ _ _ _ Hfin). apply lookup_insert_eq. }
  { by apply (fault_event_isFault event). }
  rewrite (lifecycle_of_generateId _ _ _ _ Hfin) in H4. fold k in H4.
  rewrite delete_insert_eq in H4.
  rewrite <- dispatch_finished in H4;
    [|by eapply lifecycle_of_isTestResult|left; by eapply lifecycle_of_event].
  exists terminal. split_and!.
  - unfold fault_records. rewrite fmap_cons. fold (fault_records name flowId later).
    fold first. rewrite fmap_cons, <- app_comm_cons.
    rewrite !dispatch_all_cons, H1. cbn [fst snd]. rewrite H2. cbn [fst snd].
    rewrite dispatch_all_app, H3. cbn [fst snd].
    rewrite dispatch_all_cons, H4. done.
  - rewrite Hte. by rewrite (get_lookup _ _ _ He).
  - rewrite Htk. by rewrite (get_lookup _ _ _ He).
  - rewrite Hrest by done. unfold spread. rewrite lookup_union_r by done.
    by rewrite HM, Gather.foldl_gathered.
  - rewrite Hrest by done. unfold spread. by rewrite lookup_union_r by done.
  - rewrite Hrest by done. unfold spread. by erewrite lookup_union_Some_l.
Qed.

Lemma faults_of_one_test_are_gathered_witness :
  ∃ terminal,
    dispatch_all ∅
      (Some (lifecycle testStarted "t" 1)
       :: (Some <$> fault_records "t" 1
                      [ (testFailed, "first", [IDetail "A.php" 3]);
                        (testIgnored, "", []);
                        (testFailed, "second", [IDetail "B.php" 5]) ])
       ++ [Some (finished "t" 1 12)])
    = (delete ("t" +:+ "-" +:+ decimal 1) ∅,
       Return (RRecord (lifecycle testStarted "t" 1))
       :: replicate 3 (Return RUndefined) ++ [Return (RRecord terminal)])
    ∧ terminal !! "event" = Some (VString testFailed)
    ∧ terminal !! "kind" = Some (VString testFailed)
    ∧ terminal !! "message"
      = Some (VString (gathered_message "first" ["";  "second"]))
    ∧ terminal !! "details" = Some (VArray [IDetail "A.php" 3; IDetail "B.php" 5])
    ∧ terminal !! "duration" = Some (VNumber 12).
Proof.
  apply (faults_of_one_test_are_gathered ∅ "t" 1 12 testFailed "first"
           [IDetail "A.php" 3]
           [ (testIgnored, "", []); (testFailed, "second", [IDetail "B.php" 5]) ]).
  - by left.
  - constructor; [by right|constructor; [by left|constructor]].
Defined.

(** ** ProblemMatcher: when a call throws *)

(** X22.  The answer of the parser is taken to be a record whose properties
    hold no object of their own: each is undefined, a boolean, a whole
    number, a text, or a list of detail entries and texts; and a name or a
    flow id that is a number is below 2^53 in absolute value.  (A property
    that is itself an object, with a [toString] that cannot be called, makes
    the building of the id throw; such records are left aside.)  For these
    records the matcher throws in four cases, and in no other.  Each time the
    answer is a record with [event], [name] and [flowId], and: the event is a
    Finished one and the store has no record under its key; or the event is
    a fault, the stored record of the key is no Started record, and the
    details cannot be added, because the stored details are no list or the
    new ones are neither a list nor a text; or the event is the name of one of three inherited members of the
    table that cannot be called this way; or it is the name of one of four
    inherited members that turn the record into a property key, and the
    record has a property [toString]. *)
Theorem matcher_throws_exactly_when (collect : store) (result : option record) :
  (∀ r, result = Some r → exact_key r) →
  (dispatch collect result).2 = Throw_TypeError
  ↔ ∃ r,
      result = Some r
      ∧ isTestResult r = true
      ∧ ((toString (get r "event") ∈ [testFinished; testSuiteFinished]
          ∧ collect !! generateId r = None)
         ∨ (toString (get r "event") ∈ [testFailed; testIgnored]
            ∧ ∃ p, collect !! generateId r = Some p
                   ∧ is_string (get p "kind") testStarted = false
                   ∧ push_details p r = None)
         ∨ toString (get r "event")
             ∈ ["__defineGetter__"; "__defineSetter__"; "__proto__"]
         ∨ (toString (get r "event")
              ∈ ["hasOwnProperty"; "propertyIsEnumerable";
                 "__lookupGetter__"; "__lookupSetter__"]
            ∧ has "toString" r = true)).
Proof.
  intros _. split.
  - destruct result as [r|]; [|done]. intros H.
    exists r. split; [done|]. by apply Throws.dispatch_throws.
  - intros (r & -> & Hr & H). by apply Throws.dispatch_throws_if.
Qed.

Lemma matcher_throws_exactly_when_witness :
  (dispatch ∅ (Some (finished "t" 1 12))).2 = Throw_TypeError.
Proof.
  apply (proj2 (matcher_throws_exactly_when ∅ (Some (finished "t" 1 12))
                  ltac:(by intros r [= <-]; split; intros n [= <-])));
    exists (finished "t" 1 12). split; [reflexivity|]. split; [reflexivity|].
  left. split; [repeat constructor|reflexivity].
Defined.

(** ** ProblemMatcher: a fault for an open suite *)

(** X23.  A fault record for the key of a suite that has started: the stored
    record of the suite has no details, so the call throws a [TypeError].
    By then the message of the fault has been appended to the message of the
    stored record, which it has not: the stored message is now the text
    [undefined], two line feeds and the message of the fault.  With an empty
    message the stored record is as it was. *)
Theorem fault_for_an_open_suite_throws (collect : store) (suite : record)
    (name : string) (flowId : Z) (event message : string) (details : list item) :
  lifecycle_of testSuiteStarted name flowId suite →
  suite !! "message" = None →
  suite !! "details" = None →
  is_fault_event event →
  dispatch_all collect [Some suite; Some (fault event name flowId message details)]
  = (<[name +:+ "-" +:+ decimal flowId :=
         if String.eqb message "" then suite
         else <["message" :=
                  VString ("undefined" +:+ Str.of_char Str.LF +:+ Str.of_char Str.LF
                           +:+ message)]> suite]> collect,
     [Return (RRecord suite); Throw_TypeError]).
Proof.
  intros Hs Hm Hd Hevent.
  pose proof (Gather.fault_lifecycle_of event name flowId message details) as Hf.
  set (k := name +:+ "-" +:+ decimal flowId).
  assert (dispatch collect (Some suite)
          = (<[k := suite]> collect, Return (RRecord suite))) as H1.
  { rewrite dispatch_started;
      [|by eapply lifecycle_of_isTestResult|right; by eapply lifecycle_of_event].
    unfold handleStarted. by rewrite (lifecycle_of_generateId _ _ _ _ Hs). }
  assert (dispatch (<[k := suite]> collect)
            (Some (fault event name flowId message details))
          = (<[k := if String.eqb message "" then suite
                    else <["message" :=
                             VString ("undefined" +:+ Str.of_char Str.LF
                                      +:+ Str.of_char Str.LF +:+ message)]> suite]>
               collect,
             Throw_TypeError)) as H2.
  { rewrite dispatch_fault;
      [|by eapply lifecycle_of_isTestResult
       |rewrite (lifecycle_of_event _ _ _ _ Hf); by destruct Hevent as [-> | ->]; [left|right]].
    unfold handleFault. rewrite (lifecycle_of_generateId _ _ _ _ Hf). fold k.
    rewrite lookup_insert_eq, (lifecycle_of_kind _ _ _ _ Hs).
    change (is_string (VString testSuiteStarted) testStarted) with false. cbn match.
    unfold append_message, push_details.
    change (get (fault event name flowId message details) "message")
      with (VString message).
    cbn [truthy toString].
    destruct (String.eqb message ""); cbn [negb]; unfold get.
    - rewrite Hd. cbn [default]. by rewrite insert_insert_eq.
    - rewrite lookup_insert_ne, Hd, Hm by done. cbn [default toString].
      by rewrite insert_insert_eq. }
  rewrite !dispatch_all_cons, H1. cbn [fst snd]. by rewrite H2.
Qed.

Lemma fault_for_an_open_suite_throws_witness :
  dispatch_all ∅ [Some (lifecycle testSuiteStarted "T" 1);
                  Some (fault testFailed "T" 1 "boom" [])]
  = (<["T" +:+ "-" +:+ decimal 1 :=
         if String.eqb "boom" "" then lifecycle testSuiteStarted "T" 1
         else <["message" :=
                  VString ("undefined" +:+ Str.of_char Str.LF +:+ Str.of_char Str.LF
                           +:+ "boom")]> (lifecycle testSuiteStarted "T" 1)]> ∅,
     [Return (RRecord (lifecycle testSuiteStarted "T" 1)); Throw_TypeError]).
Proof.
  apply (fault_for_an_open_suite_throws ∅ (lifecycle testSuiteStarted "T" 1)
           "T" 1 testFailed "boom" []);
    [by split_and!|reflexivity|reflexivity|by left].
Defined.
